(** * Vector-Quant: the box-breakout backtester and its grid optimizer

    A shallow embedding of [quant_engine.py] (class [QuantEngine]:
    [run_strategy], [calculate_metrics]) and of [run_optimizer.py]
    ([main]), with the properties of the specification stated over it.

    Numbers.  A pandas/numpy [float64] is modelled by [Float.float]: an
    exact rational, or one of the three special values NaN, +inf, -inf.
    Arithmetic on finite values is exact (binary rounding error, overflow
    and the sign of zero are not modelled); the special values follow
    IEEE 754: NaN propagates, every ordered comparison with NaN is false,
    [NaN != x] is true, x/0 is an infinity or NaN.  [round] is exact as
    well, so a reported metric can differ from the float64 one in its last
    digit: the statements about metrics are signs, ranges and cases in
    which the value before rounding is exactly 0.

    Library calls.  The pandas operations are those of the versions that
    accept the frequency "5S" of [generate_dummy_data]: [rolling] takes
    infinite values for missing ones and computes its window bounds as
    64-bit integers, [pct_change] fills forward before it divides, and
    [sort_values] sorts with numpy's [kind='quicksort']. *)

From Stdlib Require Import QArith Qround Qabs Lqa Sorted Permutation.
From stdpp Require Import gmap strings list fin_maps sorting.

Local Open Scope Z_scope.

(* ===================================================================== *)
(** * float64 values *)
(* ===================================================================== *)

Module Float.

Inductive float : Type :=
| NaN
| PInf
| NInf
| Fin (q : Q).

Definition of_Z (z : Z) : float := Fin (inject_Z z).
Definition of_nat (n : nat) : float := of_Z (Z.of_nat n).
Definition zero : float := Fin 0.
Definition one : float := Fin 1.

Definition isnan (x : float) : bool :=
  match x with NaN => true | _ => false end.
Definition notnan (x : float) : bool := negb (isnan x).
Definition isinf (x : float) : bool :=
  match x with PInf | NInf => true | _ => false end.
Definition isfinite (x : float) : bool :=
  match x with Fin _ => true | _ => false end.

(** The infinity (or NaN) carrying a sign given as a comparison with 0. *)
Definition inf_of (s : comparison) : float :=
  match s with Gt => PInf | Lt => NInf | Eq => NaN end.

Definition sgn (x : float) : comparison :=
  match x with
  | NaN => Eq
  | PInf => Gt
  | NInf => Lt
  | Fin q => (q ?= 0)%Q
  end.

Definition sgn_mul (s t : comparison) : comparison :=
  match s, t with
  | Eq, _ | _, Eq => Eq
  | Gt, Gt | Lt, Lt => Gt
  | _, _ => Lt
  end.

Definition neg (x : float) : float :=
  match x with
  | NaN => NaN
  | PInf => NInf
  | NInf => PInf
  | Fin q => Fin (- q)
  end.

Definition abs (x : float) : float :=
  match x with
  | NaN => NaN
  | PInf | NInf => PInf
  | Fin q => Fin (Qabs q)
  end.

Definition add (x y : float) : float :=
  match x, y with
  | NaN, _ | _, NaN => NaN
  | PInf, NInf | NInf, PInf => NaN
  | PInf, _ | _, PInf => PInf
  | NInf, _ | _, NInf => NInf
  | Fin a, Fin b => Fin (a + b)
  end.

Definition sub (x y : float) : float := add x (neg y).

Definition mul (x y : float) : float :=
  match x, y with
  | NaN, _ | _, NaN => NaN
  | Fin a, Fin b => Fin (a * b)
  | _, _ => inf_of (sgn_mul (sgn x) (sgn y))
  end.

Definition div (x y : float) : float :=
  match x, y with
  | NaN, _ | _, NaN => NaN
  | Fin a, Fin b =>
      if Qeq_bool b 0 then inf_of (a ?= 0)%Q else Fin (a / b)
  | Fin _, _ => Fin 0
  | _, Fin b =>
      match (b ?= 0)%Q with
      | Lt => neg x
      | _ => x
      end
  | _, _ => NaN
  end.

(** Ordered comparisons: false as soon as one side is NaN. *)
Definition ltb (x y : float) : bool :=
  match x, y with
  | NaN, _ | _, NaN => false
  | _, NInf => false
  | NInf, _ => true
  | PInf, _ => false
  | _, PInf => true
  | Fin a, Fin b => match (a ?= b)%Q with Lt => true | _ => false end
  end.

Definition gtb (x y : float) : bool := ltb y x.

Definition eqb (x y : float) : bool :=
  match x, y with
  | PInf, PInf | NInf, NInf => true
  | Fin a, Fin b => Qeq_bool a b
  | _, _ => false
  end.

Definition leb (x y : float) : bool := ltb x y || eqb x y.

(** [x != y]: true when either side is NaN. *)
Definition neb (x y : float) : bool := negb (eqb x y).

(** [rint]: the nearest integer, ties to the even one. *)
Definition rint (q : Q) : Z :=
  let f := Qfloor q in
  match (q - inject_Z f ?= 1 # 2)%Q with
  | Lt => f
  | Gt => f + 1
  | Eq => if Z.even f then f else f + 1
  end.

(** [round(x, ndigits)], round half to even at [ndigits] decimals. *)
Definition round (x : float) (ndigits : nat) : float :=
  match x with
  | Fin q =>
      let p := inject_Z (10 ^ Z.of_nat ndigits) in
      Fin (inject_Z (rint (q * p)) / p)
  | _ => x
  end.

End Float.

Import Float.

(* ===================================================================== *)
(** * Errors *)
(* ===================================================================== *)

(** The exceptions of the pipeline.  The text of the [OverflowError]
    depends on the numpy version and is left out. *)
Inductive exn : Type :=
| ValueError (msg : string)
| KeyError (key : string)
| OverflowError.

Inductive result (A : Type) : Type :=
| Ok (a : A)
| Raise (e : exn).
Arguments Ok {A} a.
Arguments Raise {A} e.

Definition bind {A B : Type} (r : result A) (k : A -> result B) : result B :=
  match r with
  | Ok a => k a
  | Raise e => Raise e
  end.

Notation "'try!' x ':=' r 'in' k" := (bind r (fun x => k))
  (at level 10, x name, r at level 100, k at level 200).

(* ===================================================================== *)
(** * The pandas and numpy operations the engine calls *)
(* ===================================================================== *)

Module Pandas.

(** [s.shift(1)]: every value moves one row down, row 0 gets [na]. *)
Definition shift1 {A : Type} (na : A) (s : list A) : list A :=
  take (length s) (na :: s).

(** The rows [i-w+1 .. i] of [s], cut at row 0. *)
Definition window_at (w : nat) (s : list float) (i : nat) : list float :=
  drop (i + 1 - w) (take (i + 1) s).

(** The larger and the smaller of two observations. *)
Definition maximum (x y : float) : float := if ltb x y then y else x.
Definition minimum (x y : float) : float := if ltb y x then y else x.

(** The aggregate of a window's observations; NaN for none. *)
Definition reduce (op : float -> float -> float) (obs : list float) : float :=
  match obs with
  | [] => NaN
  | x :: rest => fold_left op rest x
  end.

(** The values a rolling aggregation works on: an infinite value of the
    series is turned into NaN first. *)
Definition prep_values (s : list float) : list float :=
  map (fun x => if isinf x then NaN else x) s.

(** The aggregation of [s.rolling(window=w).agg()] with the default
    [min_periods = w]: the aggregate of the window's observations when
    the window holds at least [w] values that are neither NaN nor
    infinite, and [w > 0]; NaN otherwise. *)
Definition rolling (op : float -> float -> float) (w : nat)
    (s : list float) : list float :=
  let values := prep_values s in
  map (fun i =>
         let obs := List.filter notnan (window_at w values i) in
         if (0 <? w)%nat && (w <=? length obs)%nat then reduce op obs
         else NaN)
      (seq 0 (length s)).

Definition rolling_max := rolling maximum.
Definition rolling_min := rolling minimum.

(** [rolling(window=...)] validates its window first. *)
Definition validate_window (w : Z) : result Z :=
  if w <? 0 then Raise (ValueError "window must be an integer 0 or greater")
  else Ok w.

(** [s.rolling(window=window).agg()] as a whole.  The window is validated
    when the rolling object is built.  The aggregation returns a series
    without rows as it is; on any other series it computes the bounds of
    the windows as 64-bit integers, which fails for a window of 2^63 or
    more. *)
Definition rolling_apply (op : float -> float -> float) (window : Z)
    (s : list float) : result (list float) :=
  try! w := validate_window window in
  match s with
  | [] => Ok []
  | _ :: _ =>
      if 2 ^ 63 <=? w then Raise OverflowError
      else Ok (rolling op (Z.to_nat w) s)
  end.

(** [s.ffill()]: a NaN takes the last value before it, when there is one. *)
Fixpoint ffill_from (last : float) (s : list float) : list float :=
  match s with
  | [] => []
  | x :: rest =>
      let y := if isnan x then last else x in
      y :: ffill_from y rest
  end.

Definition ffill (s : list float) : list float := ffill_from NaN s.

(** [s.pct_change()] with its default [fill_method='pad']: the series is
    forward filled, then [data / data.shift(1) - 1]. *)
Definition pct_change (s : list float) : list float :=
  let data := ffill s in
  zip_with (fun x prev => sub (div x prev) one) data (shift1 NaN data).

(** [np.where(cond, x, y)] on aligned columns. *)
Definition np_where {A : Type} (cond : list bool) (x y : list A) : list A :=
  zip_with (fun (c : bool) (xy : A * A) => if c then xy.1 else xy.2)
           cond (zip x y).

(** A scalar broadcast against a column of [n] rows. *)
Definition broadcast {A : Type} (n : nat) (v : A) : list A := replicate n v.

(** [np.cumprod] / [np.maximum.accumulate]. *)
Fixpoint accumulate_from (op : float -> float -> float) (acc : float)
    (vals : list float) : list float :=
  match vals with
  | [] => []
  | v :: rest => let acc' := op acc v in acc' :: accumulate_from op acc' rest
  end.

Definition accumulate (op : float -> float -> float) (vals : list float)
    : list float :=
  match vals with
  | [] => []
  | v :: rest => v :: accumulate_from op v rest
  end.

(** [np.maximum]: propagates NaN. *)
Definition np_maximum (x y : float) : float :=
  if isnan x || isnan y then NaN else maximum x y.

(** pandas' cumulative functions with [skipna=True]: NaN entries are
    replaced by the neutral [fill] before accumulating, and put back as
    NaN in the result. *)
Definition cum_skipna (op : float -> float -> float) (fill : float)
    (s : list float) : list float :=
  let vals := map (fun x => if isnan x then fill else x) s in
  zip_with (fun x r => if isnan x then NaN else r) s (accumulate op vals).

Definition cumprod : list float -> list float := cum_skipna mul one.
Definition cummax : list float -> list float := cum_skipna np_maximum NInf.

(** [s.min()] and [s.mean()] with [skipna=True]. *)
Definition series_min (s : list float) : float :=
  reduce minimum (List.filter notnan s).

Definition series_sum (s : list float) : float :=
  fold_left add (List.filter notnan s) zero.

Definition series_mean (s : list float) : float :=
  div (series_sum s) (of_nat (length (List.filter notnan s))).

End Pandas.

Import Pandas.

(* ===================================================================== *)
(** * quant_engine.py *)
(* ===================================================================== *)

(** [StrategyConfig]; [fee_per_trade] defaults to 0.0002. *)
Record StrategyConfig : Type := {
  lookback_window : Z;
  profit_target_pct : float;
  stop_loss_pct : float;
  fee_per_trade : float;
}.

Definition default_fee : float := Fin (2 # 10000).

(** One row of [self.data]: the OHLC columns of one bar. *)
Record Bar : Type := {
  close : float;
  open : float;
  high : float;
  low : float;
}.

Definition DataFrame : Type := list Bar.

(** The frame [run_strategy] returns: the data and the columns it adds. *)
Record ResultFrame : Type := {
  rf_data : DataFrame;
  box_high : list float;
  box_low : list float;
  signal : list Z;
  pct_change_col : list float;
  strategy_return : list float;
}.

Record QuantEngine : Type := {
  initial_capital : float;
  data : option DataFrame;
}.

Definition QuantEngine_init : QuantEngine :=
  {| initial_capital := Fin 10000; data := None |}.

(** The stop-loss clamp followed by the profit-target clamp
    ([run_strategy], the two [np.where] after the lagged product). *)
Definition cap_stop_loss (config : StrategyConfig) (r : list float) : list float :=
  np_where (map (fun x => ltb x (neg (stop_loss_pct config))) r)
           (broadcast (length r) (neg (stop_loss_pct config)))
           r.

Definition cap_profit_target (config : StrategyConfig) (r : list float) : list float :=
  np_where (map (fun x => gtb x (profit_target_pct config)) r)
           (broadcast (length r) (profit_target_pct config))
           r.

Definition risk_cap (config : StrategyConfig) (r : list float) : list float :=
  cap_profit_target config (cap_stop_loss config r).

Definition apply_fees (config : StrategyConfig) (r : list float) : list float :=
  np_where (map (fun x => neb x zero) r)
           (map (fun x => sub x (fee_per_trade config)) r)
           r.

(** The signal column: long where the close is above the box high, then
    overwritten by short where the close is below the box low. *)
Definition long_signal (closes bh : list float) : list Z :=
  np_where (zip_with gtb closes bh)
           (broadcast (length closes) 1) (broadcast (length closes) 0).

Definition short_signal (closes bl : list float) (sig : list Z) : list Z :=
  np_where (zip_with ltb closes bl) (broadcast (length closes) (-1)) sig.

(** [df['signal'].shift(1) * df['pct_change']], before the clamps. *)
Definition lagged_return (sig : list Z) (pct : list float) : list float :=
  zip_with mul (shift1 NaN (map of_Z sig)) pct.

Definition run_strategy (self : QuantEngine) (config : StrategyConfig)
    : result ResultFrame :=
  match data self with
  | None => Raise (ValueError "Data not loaded. Run generate_dummy_data() first.")
  | Some df =>
      try! highest := rolling_apply maximum (lookback_window config)
                                    (map high df) in
      try! lowest := rolling_apply minimum (lookback_window config)
                                   (map low df) in
      let bh := shift1 NaN highest in
      let bl := shift1 NaN lowest in
      let closes := map close df in
      let sig := short_signal closes bl (long_signal closes bh) in
      let pct := pct_change closes in
      let r0 := lagged_return sig pct in
      let r := apply_fees config (risk_cap config r0) in
      Ok {| rf_data := df;
            box_high := bh;
            box_low := bl;
            signal := sig;
            pct_change_col := pct;
            strategy_return := r |}
  end.

(** Values of the metrics dictionary: Python ints and floats. *)
Inductive pyval : Type :=
| PInt (z : Z)
| PFloat (x : float).

Definition calculate_metrics (df_results : ResultFrame) : gmap string pyval :=
  let r := strategy_return df_results in
  let trades := List.filter (fun x => neb x zero) r in
  if (length trades =? 0)%nat then
    {[ "win_rate" := PInt 0; "total_trades" := PInt 0; "expectancy" := PInt 0 ]}
  else
    let total_trades := length trades in
    let winning_trades := List.filter (fun x => gtb x zero) trades in
    let win_rate := div (of_nat (length winning_trades)) (of_nat total_trades) in
    let avg_win :=
      if (0 <? length winning_trades)%nat then series_mean winning_trades
      else zero in
    let losing_trades := List.filter (fun x => leb x zero) trades in
    let avg_loss :=
      if (0 <? length losing_trades)%nat then abs (series_mean losing_trades)
      else zero in
    let expectancy :=
      sub (mul win_rate avg_win) (mul (sub one win_rate) avg_loss) in
    let cumulative_returns := cumprod (map (add one) r) in
    let peak := cummax cumulative_returns in
    let drawdown :=
      zip_with (fun c p => div (sub c p) p) cumulative_returns peak in
    let max_drawdown := series_min drawdown in
    {[ "total_trades" := PInt (Z.of_nat total_trades);
       "win_rate" := PFloat (round (mul win_rate (of_Z 100)) 2);
       "max_drawdown_pct" := PFloat (round (mul max_drawdown (of_Z 100)) 2);
       "expectancy" := PFloat (round (mul expectancy (of_Z 100)) 4);
       "net_profit_pct" :=
         PFloat (round (mul (sub (List.last cumulative_returns NaN) one)
                            (of_Z 100)) 2) ]}.

(* ===================================================================== *)
(** * run_optimizer.py *)
(* ===================================================================== *)

(** [self.data = df] at the end of [generate_dummy_data]; the generator of
    the synthetic bars is outside the core, its frame is a parameter. *)
Definition generate_dummy_data (self : QuantEngine) (df : DataFrame) : QuantEngine :=
  {| initial_capital := initial_capital self; data := Some df |}.

(** [d[key]] on a Python dict. *)
Definition getitem (d : gmap string pyval) (key : string) : result pyval :=
  match d !! key with
  | Some v => Ok v
  | None => Raise (KeyError key)
  end.

(** One entry of [results_log]. *)
Record Row : Type := {
  Window : Z;
  StopLoss : float;
  TakeProfit : float;
  WinRate : pyval;
  Trades : pyval;
  Drawdown : pyval;
  Expectancy : pyval;
}.

Definition params (r : Row) : Z * float * float :=
  (Window r, StopLoss r, TakeProfit r).

(** [itertools.product(a, b, c)]: the rightmost list runs fastest. *)
Definition product3 {A B C : Type} (a : list A) (b : list B) (c : list C)
    : list (A * B * C) :=
  flat_map (fun x => flat_map (fun y => map (fun z => (x, y, z)) c) b) a.

(** The body of the [for window, sl, tp in combinations] loop. *)
Definition evaluate (engine : QuantEngine) (combo : Z * float * float)
    : result Row :=
  let '(window, sl, tp) := combo in
  let config := {| lookback_window := window;
                   stop_loss_pct := sl;
                   profit_target_pct := tp;
                   fee_per_trade := default_fee |} in
  try! df_backtest := run_strategy engine config in
  let metrics := calculate_metrics df_backtest in
  try! win_rate := getitem metrics "win_rate" in
  try! total_trades := getitem metrics "total_trades" in
  try! max_drawdown_pct := getitem metrics "max_drawdown_pct" in
  try! expectancy := getitem metrics "expectancy" in
  Ok {| Window := window;
        StopLoss := sl;
        TakeProfit := tp;
        WinRate := win_rate;
        Trades := total_trades;
        Drawdown := max_drawdown_pct;
        Expectancy := expectancy |}.

Fixpoint sweep_loop (engine : QuantEngine) (combinations : list (Z * float * float))
    (results_log : list Row) : result (list Row) :=
  match combinations with
  | [] => Ok results_log
  | combo :: rest =>
      try! row := evaluate engine combo in
      sweep_loop engine rest (results_log ++ [row])
  end.

(** Lines 21-54 of [main]: the sweep that fills [results_log]. *)
Definition sweep (engine : QuantEngine) (lookback_windows : list Z)
    (stop_losses take_profits : list float) : result (list Row) :=
  sweep_loop engine (product3 lookback_windows stop_losses take_profits) [].

Definition float_of_pyval (v : pyval) : float :=
  match v with
  | PInt z => of_Z z
  | PFloat x => x
  end.

Definition sort_key (r : Row) : float := float_of_pyval (WinRate r).

(** [ndarray.argsort(kind=...)] maps the keys to a list of positions.
    The contract of every [kind] is that of a sort: the result lists every
    position once, in an order along which the keys do not decrease.  What
    it does with equal keys is left to the algorithm. *)
Definition key_at (keys : list float) (i : nat) : float := nth i keys NaN.

Definition nondecreasing (keys : list float) (i j : nat) : Prop :=
  ltb (key_at keys j) (key_at keys i) = false.

Record Argsort : Type := {
  argsort :> list float -> list nat;
  argsort_perm : forall keys, Permutation (argsort keys) (seq 0 (length keys));
  argsort_sorted : forall keys,
    Forall (fun x => notnan x = true) keys ->
    Sorted (nondecreasing keys) (argsort keys);
}.

(** numpy's [argsort] with [kind='quicksort'], the default of
    [sort_values], in its portable implementation (the one that runs when
    no vectorised kernel is selected for the processor): an introsort on
    the array [tosort] of positions, with a median-of-three partition, an
    insertion sort on runs of at most 17 positions, and a heapsort once
    the depth limit is used up. *)
Module Numpy.

(** The order of float64 keys: NaN after every number. *)
Definition less (a b : float) : bool := ltb a b || (isnan b && notnan a).

Definition SMALL_QUICKSORT : nat := 16.

(** [npy_get_msb]: the position of the highest bit set. *)
Definition npy_get_msb (num : nat) : Z := Z.log2 (Z.of_nat num).

Section Sort.

(** The keys. *)
Variable v : list float.

(** The key of the position stored at [p], and [INTP_SWAP] of the
    positions stored at [p] and [q]. *)
Definition deref (tosort : list nat) (p : nat) : float :=
  key_at v (nth p tosort O).

Definition swap (tosort : list nat) (p q : nat) : list nat :=
  <[q := nth p tosort O]> (<[p := nth q tosort O]> tosort).

(** [do { ++pi; } while (less(v[*pi], vp));] *)
Fixpoint scan_up (fuel : nat) (tosort : list nat) (vp : float) (pi : nat)
    : nat :=
  match fuel with
  | O => pi
  | S fuel =>
      let pi := S pi in
      if less (deref tosort pi) vp then scan_up fuel tosort vp pi else pi
  end.

(** [do { --pj; } while (less(vp, v[*pj]));] *)
Fixpoint scan_down (fuel : nat) (tosort : list nat) (vp : float) (pj : nat)
    : nat :=
  match fuel with
  | O => pj
  | S fuel =>
      let pj := pred pj in
      if less vp (deref tosort pj) then scan_down fuel tosort vp pj else pj
  end.

(** The partition loop: both scans, then a swap unless they have met. *)
Fixpoint partition (fuel : nat) (tosort : list nat) (vp : float)
    (pi pj : nat) : list nat * nat :=
  match fuel with
  | O => (tosort, pi)
  | S fuel =>
      let pi := scan_up (length tosort) tosort vp pi in
      let pj := scan_down (length tosort) tosort vp pj in
      if (pj <=? pi)%nat then (tosort, pi)
      else partition fuel (swap tosort pi pj) vp pi pj
  end.

(** [while (pj > pl && less(vp, v[*pk])) { *pj-- = *pk--; }] with
    [pk = pj - 1]. *)
Fixpoint shift_up (fuel : nat) (tosort : list nat) (pl : nat) (vp : float)
    (pj : nat) : list nat * nat :=
  match fuel with
  | O => (tosort, pj)
  | S fuel =>
      if (pl <? pj)%nat && less vp (deref tosort (pj - 1)) then
        shift_up fuel (<[pj := nth (pj - 1) tosort O]> tosort) pl vp (pj - 1)
      else (tosort, pj)
  end.

(** The insertion sort of the positions [pl .. pr]. *)
Definition insertion_sort (tosort : list nat) (pl pr : nat) : list nat :=
  fold_left
    (fun tosort pi =>
       let vi := nth pi tosort O in
       let '(tosort, pj) :=
         shift_up (length tosort) tosort pl (key_at v vi) pi in
       <[pj := vi]> tosort)
    (seq (pl + 1) (pr - pl)) tosort.

(** [aheapsort] on the [n] positions from [pl]; [a[k]] is the position
    [pl + k - 1] of [tosort]. *)
Definition heap_get (tosort : list nat) (pl k : nat) : nat :=
  nth (pl + k - 1) tosort O.

Definition heap_set (tosort : list nat) (pl k x : nat) : list nat :=
  <[(pl + k - 1)%nat := x]> tosort.

(** [for (i, j = 2 * i; j <= n;) { ... } a[i] = tmp;] *)
Fixpoint sift_down (fuel : nat) (tosort : list nat) (pl n tmp i j : nat)
    : list nat :=
  match fuel with
  | O => heap_set tosort pl i tmp
  | S fuel =>
      if (j <=? n)%nat then
        let j :=
          if (j <? n)%nat &&
             less (key_at v (heap_get tosort pl j))
                  (key_at v (heap_get tosort pl (j + 1)))
          then (j + 1)%nat else j in
        if less (key_at v tmp) (key_at v (heap_get tosort pl j)) then
          sift_down fuel (heap_set tosort pl i (heap_get tosort pl j))
                    pl n tmp j (j + j)
        else heap_set tosort pl i tmp
      else heap_set tosort pl i tmp
  end.

Definition aheapsort (tosort : list nat) (pl n : nat) : list nat :=
  let heap :=
    fold_left
      (fun tosort l =>
         sift_down n tosort pl n (heap_get tosort pl l) l (l + l))
      (reverse (seq 1 (n / 2))) tosort in
  fold_left
    (fun tosort m =>
       let tmp := heap_get tosort pl m in
       let tosort := heap_set tosort pl m (heap_get tosort pl 1) in
       sift_down n tosort pl (m - 1) tmp 1 2)
    (reverse (seq 2 (n - 1))) heap.

(** [while ((pr - pl) > SMALL_QUICKSORT)]: the pivot is the median of the
    first, middle and last key and is parked at [pr - 1]; after the
    partition the larger part is pushed on the stack, with the depth left,
    and the loop goes on with the smaller part. *)
Fixpoint quicksort_partitions (fuel : nat) (tosort : list nat) (pl pr : nat)
    (stack : list (nat * nat * Z)) (cdepth : Z)
    : list nat * nat * nat * list (nat * nat * Z) :=
  match fuel with
  | O => (tosort, pl, pr, stack)
  | S fuel =>
      if (SMALL_QUICKSORT <? pr - pl)%nat then
        let pm := (pl + (pr - pl) / 2)%nat in
        let tosort :=
          if less (deref tosort pm) (deref tosort pl)
          then swap tosort pm pl else tosort in
        let tosort :=
          if less (deref tosort pr) (deref tosort pm)
          then swap tosort pr pm else tosort in
        let tosort :=
          if less (deref tosort pm) (deref tosort pl)
          then swap tosort pm pl else tosort in
        let vp := deref tosort pm in
        let tosort := swap tosort pm (pr - 1) in
        let '(tosort, pi) :=
          partition (length tosort) tosort vp pl (pr - 1) in
        let tosort := swap tosort pi (pr - 1) in
        let cdepth := cdepth - 1 in
        if (pi - pl <? pr - pi)%nat then
          quicksort_partitions fuel tosort pl (pi - 1)
                               ((pi + 1, pr, cdepth)%nat :: stack) cdepth
        else
          quicksort_partitions fuel tosort (pi + 1) pr
                               ((pl, pi - 1, cdepth)%nat :: stack) cdepth
      else (tosort, pl, pr, stack)
  end.

(** The outer loop: a run [pl .. pr] is heapsorted when the depth is used
    up, and otherwise partitioned down to a short run that is insertion
    sorted; then the next run is popped from the stack. *)
Fixpoint aquicksort_loop (fuel : nat) (tosort : list nat) (pl pr : nat)
    (stack : list (nat * nat * Z)) (cdepth : Z) : list nat :=
  match fuel with
  | O => tosort
  | S fuel =>
      let '(tosort, stack) :=
        if cdepth <? 0 then (aheapsort tosort pl (pr + 1 - pl), stack)
        else
          let '(tosort, pl, pr, stack) :=
            quicksort_partitions (length tosort) tosort pl pr stack cdepth in
          (insertion_sort tosort pl pr, stack) in
      match stack with
      | [] => tosort
      | (pl, pr, cdepth) :: stack =>
          aquicksort_loop fuel tosort pl pr stack cdepth
      end
  end.

End Sort.

(** [keys.argsort(kind='quicksort')]. *)
Definition aquicksort (keys : list float) : list nat :=
  let num := length keys in
  aquicksort_loop keys (S num) (seq 0 num) 0 (num - 1) []
                  (npy_get_msb num * 2).

End Numpy.

(** pandas' [nargsort(items, kind, ascending=False, na_position='last')]:
    the keys that are not NaN are reversed, argsorted, and the indexer is
    reversed back; the positions of the NaN keys come last. *)
Definition nargsort_desc (kind : list float -> list nat) (items : list float)
    : list nat :=
  let idx := seq 0 (length items) in
  let non_nan_idx := List.filter (fun i => notnan (key_at items i)) idx in
  let nan_idx := List.filter (fun i => isnan (key_at items i)) idx in
  let non_nans := map (key_at items) non_nan_idx in
  let non_nans_r := reverse non_nans in
  let non_nan_idx_r := reverse non_nan_idx in
  let indexer := map (fun k => nth k non_nan_idx_r O) (kind non_nans_r) in
  reverse indexer ++ nan_idx.

(** [results_df.sort_values(by="WinRate", ascending=False)].  A frame
    built from an empty [results_log] has no column, and the lookup of
    the sort column raises. *)
Definition sort_values_WinRate_desc (kind : list float -> list nat)
    (results_df : list Row) : result (list Row) :=
  match results_df with
  | [] => Raise (KeyError "WinRate")
  | _ :: _ =>
      Ok (omap (fun i => results_df !! i)
               (nargsort_desc kind (map sort_key results_df)))
  end.

(** [main] up to [best_configs], on given data and parameter grid, with
    the algorithm [kind] behind [sort_values]. *)
Definition optimize (kind : list float -> list nat) (engine : QuantEngine)
    (lookback_windows : list Z) (stop_losses take_profits : list float)
    : result (list Row) :=
  try! results_log := sweep engine lookback_windows stop_losses take_profits in
  sort_values_WinRate_desc kind results_log.

Definition main_lookback_windows : list Z := [10; 20; 50; 100].
Definition main_stop_losses : list float :=
  [Fin (1 # 1000); Fin (2 # 1000); Fin (5 # 1000)].
Definition main_take_profits : list float :=
  [Fin (2 # 1000); Fin (5 # 1000); Fin (1 # 100)].

Definition main (kind : list float -> list nat) (df : DataFrame)
    : result (list Row) :=
  let engine := generate_dummy_data QuantEngine_init df in
  optimize kind engine main_lookback_windows main_stop_losses main_take_profits.

(* ===================================================================== *)
(** * Notions used in the statements *)
(* ===================================================================== *)

(** [m] is the largest value of [s] over the rows [i-w .. i-1]: it is
    attained there and no value of the window is above it. *)
Definition window_max (s : list float) (i w : nat) (m : float) : Prop :=
  (exists j, (i - w <= j < i)%nat /\ s !! j = Some m) /\
  forall j x, (i - w <= j < i)%nat -> s !! j = Some x -> ltb m x = false.

(** [m] is the smallest value of [s] over the rows [i-w .. i-1]. *)
Definition window_min (s : list float) (i w : nat) (m : float) : Prop :=
  (exists j, (i - w <= j < i)%nat /\ s !! j = Some m) /\
  forall j x, (i - w <= j < i)%nat -> s !! j = Some x -> ltb x m = false.

(** A price series whose highs and lows are not NaN. *)
Definition no_nan_prices (df : DataFrame) : Prop :=
  Forall (fun b => notnan (high b) = true /\ notnan (low b) = true) df.

(** A price series whose highs and lows are numbers: neither NaN nor
    infinite. *)
Definition finite_prices (df : DataFrame) : Prop :=
  Forall (fun b => isfinite (high b) = true /\ isfinite (low b) = true) df.

(** What [risk_cap] does to one value: the stop-loss clamp, then the
    profit-target clamp on its result. *)
Definition clamp (config : StrategyConfig) (x : float) : float :=
  let y := if ltb x (neg (stop_loss_pct config))
           then neg (stop_loss_pct config) else x in
  if gtb y (profit_target_pct config) then profit_target_pct config else y.

(** What [apply_fees] does to one value. *)
Definition charge (config : StrategyConfig) (x : float) : float :=
  if neb x zero then sub x (fee_per_trade config) else x.

(** [df_results[df_results['strategy_return'] != 0]['strategy_return']]. *)
Definition trades_of (r : list float) : list float :=
  List.filter (fun x => neb x zero) r.

(** [trades[trades > 0]]: the winning trades of a return series. *)
Definition winning_trades_of (r : list float) : list float :=
  List.filter (fun x => gtb x zero) (trades_of r).

(** The record of the branch [len(trades) == 0]. *)
Definition degenerate_metrics : gmap string pyval :=
  {[ "win_rate" := PInt 0; "total_trades" := PInt 0; "expectancy" := PInt 0 ]}.

(** [run_strategy] raises. *)
Definition fails_fast (self : QuantEngine) (config : StrategyConfig) : Prop :=
  exists e, run_strategy self config = Raise e.

(** The inputs the specification calls precondition violations. *)
Definition precondition_violated (df : DataFrame) (config : StrategyConfig)
    : Prop :=
  df = [] \/ lookback_window config < 1 \/
  ltb (fee_per_trade config) zero = true \/
  ltb (stop_loss_pct config) zero = true \/
  ltb (profit_target_pct config) zero = true.

(** The columns [calculate_metrics] builds for the drawdown, and the
    value it reports, as functions of the return series. *)
Definition cumulative_returns (r : list float) : list float :=
  cumprod (map (add one) r).

Definition running_peak (r : list float) : list float :=
  cummax (cumulative_returns r).

Definition drawdown (r : list float) : list float :=
  zip_with (fun c p => div (sub c p) p) (cumulative_returns r) (running_peak r).

Definition max_drawdown_pct (r : list float) : float :=
  round (mul (series_min (drawdown r)) (of_Z 100)) 2.

(** The two steps around the accumulation in [cum_skipna], and the tail
    of a cumulative column from the accumulator reached so far. *)
Definition fillna (fill x : float) : float := if isnan x then fill else x.

Definition mask (x r : float) : float := if isnan x then NaN else r.

Definition cum_tail (op : float -> float -> float) (fill acc : float)
    (s : list float) : list float :=
  zip_with mask s (accumulate_from op acc (map (fillna fill) s)).

(** A return the simulator can produce: NaN, or a number above -100%. *)
Definition return_ok (x : float) : Prop :=
  match x with
  | NaN => True
  | Fin q => (-1 < q)%Q
  | _ => False
  end.

(** A return next to its rows of the curve and of the peak: all three are
    NaN, or the return is a number and [0 < cum <= peak]. *)
Definition row_ok (x c p : float) : Prop :=
  match x, c, p with
  | NaN, NaN, NaN => True
  | Fin _, Fin a, Fin b => (0 < a /\ a <= b)%Q
  | _, _, _ => False
  end.

(** The accumulator of [cummax]: -inf before the first number, a number
    from then on. *)
Definition peak_acc_ok (M : float) : Prop := M = NInf \/ exists m, M = Fin m.

(** The curve never falls below its running peak. *)
Definition never_below_peak (r : list float) : Prop :=
  forall (i : nat) (c p : float),
    cumulative_returns r !! i = Some c -> running_peak r !! i = Some p ->
    ltb c p = false.

(** A well-formed return series: every entry is NaN or a number above
    -100%, and at least one entry is a number. *)
Definition well_formed_returns (r : list float) : Prop :=
  Forall return_ok r /\ exists x, x ∈ r /\ notnan x = true.

(** Insertion of position [i] into a sorted list of positions, before the
    first position [j] with [before key[i] key[j]]. *)
Fixpoint insert_index (before : float -> float -> bool) (keys : list float)
    (i : nat) (sorted : list nat) : list nat :=
  match sorted with
  | [] => [i]
  | j :: rest =>
      if before (key_at keys i) (key_at keys j) then i :: j :: rest
      else j :: insert_index before keys i rest
  end.

(** The positions [0 .. n-1] inserted one after the other. *)
Definition insertion_argsort (before : float -> float -> bool)
    (keys : list float) : list nat :=
  fold_left (fun acc i => insert_index before keys i acc)
            (seq 0 (length keys)) [].

(** No row has a smaller WinRate than a row that comes after it. *)
Definition descending_WinRate (rows : list Row) : Prop :=
  StronglySorted (fun r1 r2 => ltb (sort_key r1) (sort_key r2) = false) rows.

(** Rows with the same WinRate come out in the order of [log]. *)
Definition ties_keep_enumeration_order (log out : list Row) : Prop :=
  forall (i j : nat) (ri rj : Row),
    (i < j)%nat -> log !! i = Some ri -> log !! j = Some rj ->
    eqb (sort_key ri) (sort_key rj) = true ->
    exists p q : nat, (p < q)%nat /\ out !! p = Some ri /\ out !! q = Some rj.

(** The order of a stable sort: by key, and by position among equal keys. *)
Definition key_then_position (keys : list float) (a b : nat) : Prop :=
  ltb (key_at keys b) (key_at keys a) = false /\
  (eqb (key_at keys a) (key_at keys b) = true -> (a < b)%nat).

(** A sort that keeps equal keys in input order. *)
Definition stable_argsort (kind : Argsort) : Prop :=
  forall keys, Forall (fun x => notnan x = true) keys ->
    StronglySorted (key_then_position keys) (kind keys).

(* ===================================================================== *)
(** * generate_dummy_data and the report of main *)
(* ===================================================================== *)

(** [100 * np.cumprod(1 + returns)]. *)
Definition price_path (returns : list float) : list float :=
  map (mul (of_Z 100)) (accumulate mul (map (add one) returns)).

(** [df['close'].shift(1).fillna(df['close'])]. *)
Definition open_column (closes : list float) : list float :=
  zip_with (fun prev c => fillna c prev) (shift1 NaN closes) closes.

(** [df[['open', 'close']].max(axis=1)] and [.min(axis=1)] on one row. *)
Definition row_max (o c : float) : float :=
  reduce maximum (List.filter notnan [o; c]).

Definition row_min (o c : float) : float :=
  reduce minimum (List.filter notnan [o; c]).

(** The frame [generate_dummy_data] stores in [self.data], as a function of
    its three random draws of [num_rows] values each: [returns] for the
    random walk, [wick_high] and [wick_low] for the two wicks. *)
Definition synthetic_frame (returns wick_high wick_low : list float)
    : list Bar :=
  let closes := price_path returns in
  let opens := open_column closes in
  let highs := zip_with mul (zip_with row_max opens closes)
                        (map (fun n => add one (abs n)) wick_high) in
  let lows := zip_with mul (zip_with row_min opens closes)
                       (map (fun n => sub one (abs n)) wick_low) in
  zip_with (fun co hl => {| close := co.1; open := co.2;
                            high := hl.1; low := hl.2 |})
           (zip closes opens) (zip highs lows).

(** [best_configs.head(5)], the table [main] prints. *)
Definition top_configurations (best_configs : list Row) : list Row :=
  take 5 best_configs.

(** [best_configs[best_configs['WinRate'] >= 80]]. *)
Definition high_win_rate (best_configs : list Row) : list Row :=
  List.filter (fun r => leb (of_Z 80) (sort_key r)) best_configs.

(** [high_win_rate.iloc[0]] when [high_win_rate] is not empty: the Window,
    StopLoss and TakeProfit of the configuration [main] recommends. *)
Definition recommended_config (best_configs : list Row)
    : option (Z * float * float) :=
  params <$> head (high_win_rate best_configs).

(* ===================================================================== *)
(** * Notions used in the further statements *)
(* ===================================================================== *)

Definition grid_config (combo : Z * float * float) : StrategyConfig :=
  {| lookback_window := combo.1.1;
     profit_target_pct := combo.2;
     stop_loss_pct := combo.1.2;
     fee_per_trade := default_fee |}.

(** Draws that give prices: returns above -100%, wicks that are numbers,
    the low wick below 100%. *)
Definition draws_ok (returns wick_high wick_low : list float) : Prop :=
  length wick_high = length returns /\ length wick_low = length returns /\
  Forall (fun x => exists q, x = Fin q /\ (-1 < q)%Q) returns /\
  Forall (fun x => exists q, x = Fin q) wick_high /\
  Forall (fun x => exists q, x = Fin q /\ (Qabs q < 1)%Q) wick_low.

(** A bar of positive prices with [low <= open, close <= high]. *)
Definition ohlc_ok (b : Bar) : Prop :=
  exists c o h l : Q,
    b = {| close := Fin c; open := Fin o; high := Fin h; low := Fin l |} /\
    (0 < l)%Q /\ (l <= o <= h)%Q /\ (l <= c <= h)%Q.

Definition positive (x : float) : Prop := exists q, x = Fin q /\ (0 < q)%Q.

(* ===================================================================== *)
(** * Example inputs *)
(* ===================================================================== *)

(** A bar from its close, high and low; the open is not used by the engine. *)
Definition bar (c h l : Q) : Bar :=
  {| close := Fin c; open := Fin c; high := Fin h; low := Fin l |}.

(** Six bars with the closes 100, 101, 99, 100, 99, 101. *)
Definition example_bars : DataFrame :=
  [bar 100 (201 # 2) (199 # 2); bar 101 (203 # 2) (201 # 2);
   bar 99 (199 # 2) (197 # 2); bar 100 (201 # 2) (199 # 2);
   bar 99 (199 # 2) (197 # 2); bar 101 (203 # 2) (201 # 2)].

Definition example_config : StrategyConfig :=
  {| lookback_window := 2; profit_target_pct := Fin (1 # 2);
     stop_loss_pct := Fin (1 # 2); fee_per_trade := Fin 0 |}.

Definition example_engine : QuantEngine :=
  generate_dummy_data QuantEngine_init example_bars.

(** A bar whose high lies below its low, followed by a close in between. *)
Definition degenerate_bars : DataFrame := [bar 5 1 10; bar 5 6 4].

Definition degenerate_config : StrategyConfig :=
  {| lookback_window := 1; profit_target_pct := Fin (1 # 2);
     stop_loss_pct := Fin (1 # 2); fee_per_trade := Fin 0 |}.

Definition degenerate_engine : QuantEngine :=
  generate_dummy_data QuantEngine_init degenerate_bars.



(** Configurations and inputs the specification calls invalid. *)
Definition negative_fee_config : StrategyConfig :=
  {| lookback_window := 2; profit_target_pct := Fin (1 # 2);
     stop_loss_pct := Fin (1 # 2); fee_per_trade := Fin (-1 # 100) |}.

Definition negative_stop_config : StrategyConfig :=
  {| lookback_window := 2; profit_target_pct := Fin (-1 # 2);
     stop_loss_pct := Fin (-1 # 2); fee_per_trade := Fin 0 |}.

Definition zero_window_config : StrategyConfig :=
  {| lookback_window := 0; profit_target_pct := Fin (1 # 2);
     stop_loss_pct := Fin (1 # 2); fee_per_trade := Fin 0 |}.

Definition empty_engine : QuantEngine :=
  generate_dummy_data QuantEngine_init [].

(** A frame whose returns are all zero. *)
Definition flat_frame : ResultFrame :=
  {| rf_data := [bar 100 100 100; bar 100 100 100];
     box_high := [NaN; Fin 100];
     box_low := [NaN; Fin 100];
     signal := [0; 0];
     pct_change_col := [NaN; Fin 0];
     strategy_return := [Fin 0; Fin 0] |}.

(** Seven bars that rise by 1 from 10 to 16: every bar from the window on
    breaks out of its box. *)
Definition rising_bars : DataFrame :=
  [bar 10 10 10; bar 11 11 11; bar 12 12 12; bar 13 13 13;
   bar 14 14 14; bar 15 15 15; bar 16 16 16].

Definition rising_engine : QuantEngine :=
  generate_dummy_data QuantEngine_init rising_bars.

(** A grid of six configurations for the rising bars. *)
Definition rising_windows : list Z := [3; 1; 2].
Definition rising_stop_losses : list float := [Fin (1 # 2); Fin (6 # 10)].
Definition rising_take_profits : list float := [Fin (1 # 2)].

(** Four bars, the second with a high of -inf. *)
Definition infinite_high_bars : DataFrame :=
  [bar 4 4 4;
   {| close := Fin 4; open := Fin 4; high := NInf; low := Fin 4 |};
   bar 5 4 4; bar 8 8 4].

(** A window one above the largest 64-bit integer, and that integer. *)
Definition window_config (window : Z) : StrategyConfig :=
  {| lookback_window := window; profit_target_pct := Fin (1 # 2);
     stop_loss_pct := Fin (1 # 2); fee_per_trade := Fin 0 |}.

(** The six example bars with another high and low on the last bar. *)
Definition example_bars_other_wick : DataFrame :=
  [bar 100 (201 # 2) (199 # 2); bar 101 (203 # 2) (201 # 2);
   bar 99 (199 # 2) (197 # 2); bar 100 (201 # 2) (199 # 2);
   bar 99 (199 # 2) (197 # 2); bar 101 200 1].

(** Draws for two synthetic bars. *)
Definition example_returns : list float := [Fin (1 # 100); Fin (-1 # 100)].

Definition example_wick_high : list float := [Fin (1 # 1000); Fin (-2 # 1000)].

Definition example_wick_low : list float := [Fin (-1 # 1000); Fin (3 # 1000)].

(* ===================================================================== *)
(** * Facts about the float order *)
(* ===================================================================== *)

Section FloatOrder.

Local Ltac qcases :=
  repeat match goal with
         | |- context [(?a ?= ?b)%Q] => destruct (Qcompare_spec a b)
         | H : context [(?a ?= ?b)%Q] |- _ => destruct (Qcompare_spec a b)
         end.

Local Ltac float_cases :=
  intros;
  repeat match goal with x : float |- _ => destruct x end;
  simpl in *; try done; qcases; try done; try lra.

Lemma ltb_irrefl x : ltb x x = false.
Proof. float_cases. Qed.

Lemma ltb_asym x y : ltb x y = true -> ltb y x = false.
Proof. float_cases. Qed.

Lemma ltb_trans x y z : ltb x y = true -> ltb y z = true -> ltb x z = true.
Proof. float_cases. Qed.

(** [x <= y <= z] gives [x <= z], when the middle value is a number. *)
Lemma nlt_trans x y z :
  notnan y = true -> ltb y x = false -> ltb z y = false -> ltb z x = false.
Proof. float_cases. Qed.

Lemma ltb_nan_l x : ltb NaN x = false.
Proof. done. Qed.

Lemma ltb_nan_r x : ltb x NaN = false.
Proof. by destruct x. Qed.

Lemma neb_nan x : neb NaN x = true.
Proof. done. Qed.

Lemma eqb_Fin a b : eqb (Fin a) (Fin b) = true <-> (a == b)%Q.
Proof. simpl. apply Qeq_bool_iff. Qed.


Lemma ltb_Fin_false a b : ltb (Fin a) (Fin b) = false <-> (b <= a)%Q.
Proof. simpl. qcases; split; intros; try done; lra. Qed.

Lemma maximum_notnan x y :
  notnan x = true -> notnan y = true -> notnan (maximum x y) = true.
Proof. unfold maximum. by destruct (ltb x y). Qed.

Lemma minimum_notnan x y :
  notnan x = true -> notnan y = true -> notnan (minimum x y) = true.
Proof. unfold minimum. by destruct (ltb y x). Qed.

End FloatOrder.

(* ===================================================================== *)
(** * Facts about the column operations *)
(* ===================================================================== *)

Section Columns.

Context {A : Type}.

Lemma shift1_length (na : A) (s : list A) : length (shift1 na s) = length s.
Proof. unfold shift1. rewrite length_take. simpl. lia. Qed.

Lemma shift1_lookup_0 (na : A) (s : list A) :
  (0 < length s)%nat -> shift1 na s !! O = Some na.
Proof. unfold shift1. destruct s; simpl; [lia | done]. Qed.

Lemma shift1_lookup_S (na : A) (s : list A) (i : nat) :
  (S i < length s)%nat -> shift1 na s !! S i = s !! i.
Proof.
  intros Hi. unfold shift1. rewrite lookup_take_lt by lia. done.
Qed.

Lemma np_where_lookup (cond : list bool) (x y : list A) (i : nat)
    (c : bool) (a b : A) :
  cond !! i = Some c -> x !! i = Some a -> y !! i = Some b ->
  np_where cond x y !! i = Some (if c then a else b).
Proof.
  intros Hc Hx Hy. unfold np_where.
  rewrite lookup_zip_with, Hc. simpl.
  rewrite lookup_zip_with, Hx. simpl. rewrite Hy. done.
Qed.

Lemma np_where_map_scalar (f : A -> bool) (v : A) (r : list A) :
  np_where (map f r) (broadcast (length r) v) r
  = map (fun x => if f x then v else x) r.
Proof.
  unfold np_where, broadcast.
  induction r as [|x r IH]; simpl; [done|]. by rewrite IH.
Qed.

Lemma np_where_map_map (f : A -> bool) (g : A -> A) (r : list A) :
  np_where (map f r) (map g r) r = map (fun x => if f x then g x else x) r.
Proof.
  unfold np_where.
  induction r as [|x r IH]; simpl; [done|]. by rewrite IH.
Qed.

End Columns.

(* ===================================================================== *)
(** * The rolling window *)
(* ===================================================================== *)

Section Extremum.

(** [pick] keeps the larger of two values for a strict order [lt]:
    [maximum] for [ltb], [minimum] for the converse order. *)
Variable lt : float -> float -> bool.
Hypothesis lt_irrefl : forall x, lt x x = false.
Hypothesis lt_asym : forall x y, lt x y = true -> lt y x = false.
Hypothesis lt_nlt_trans : forall x y z,
  notnan y = true -> lt y x = false -> lt z y = false -> lt z x = false.

Definition pick (x y : float) : float := if lt x y then y else x.

Lemma pick_notnan x y :
  notnan x = true -> notnan y = true -> notnan (pick x y) = true.
Proof. unfold pick. by destruct (lt x y). Qed.

Lemma fold_pick_spec (rest : list float) (x : float) :
  Forall (fun v => notnan v = true) (x :: rest) ->
  let m := fold_left pick rest x in
  notnan m = true /\ m ∈ x :: rest /\ forall v, v ∈ x :: rest -> lt m v = false.
Proof.
  revert x. induction rest as [|y rest IH]; intros x Hnn; simpl.
  - inversion Hnn; subst. split; [done|]. split; [apply list_elem_of_here|].
    intros v Hv. apply list_elem_of_singleton in Hv. subst. apply lt_irrefl.
  - inversion Hnn as [|? ? Hx Hrest]; subst.
    inversion Hrest as [|? ? Hy Hrest']; subst.
    assert (Hp : notnan (pick x y) = true) by by apply pick_notnan.
    destruct (IH (pick x y)) as (Hm & Hin & Hub).
    { by constructor. }
    split; [done|]. split.
    + apply elem_of_cons in Hin as [Hin | Hin].
      * rewrite Hin. unfold pick.
        destruct (lt x y); auto using list_elem_of_here, list_elem_of_further.
      * auto using list_elem_of_further.
    + intros v Hv.
      assert (Hpm : lt (fold_left pick rest (pick x y)) (pick x y) = false)
        by (apply Hub, list_elem_of_here).
      apply elem_of_cons in Hv as [-> | Hv].
      * eapply lt_nlt_trans; [exact Hp | | exact Hpm].
        unfold pick. destruct (lt x y) eqn:E; [by apply lt_asym | apply lt_irrefl].
      * apply elem_of_cons in Hv as [-> | Hv].
        -- eapply lt_nlt_trans; [exact Hp | | exact Hpm].
           unfold pick. destruct (lt x y) eqn:E; [apply lt_irrefl | done].
        -- by apply Hub, list_elem_of_further.
Qed.

End Extremum.

Lemma reduce_maximum_spec (obs : list float) :
  obs <> [] -> Forall (fun v => notnan v = true) obs ->
  reduce maximum obs ∈ obs /\ forall v, v ∈ obs -> ltb (reduce maximum obs) v = false.
Proof.
  destruct obs as [|x rest]; [done|]. intros _ Hnn.
  apply (fold_pick_spec ltb ltb_irrefl ltb_asym nlt_trans rest x Hnn).
Qed.

Lemma reduce_minimum_spec (obs : list float) :
  obs <> [] -> Forall (fun v => notnan v = true) obs ->
  reduce minimum obs ∈ obs /\ forall v, v ∈ obs -> ltb v (reduce minimum obs) = false.
Proof.
  destruct obs as [|x rest]; [done|]. intros _ Hnn.
  apply (fold_pick_spec (fun a b => ltb b a)); [ | | | done].
  - intros. apply ltb_irrefl.
  - intros a b. apply ltb_asym.
  - intros a b c Hb H1 H2. by apply (nlt_trans c b a).
Qed.

Lemma filter_notnan_id (l : list float) :
  Forall (fun v => notnan v = true) l -> List.filter notnan l = l.
Proof.
  induction 1 as [|x l Hx _ IH]; simpl; [done|]. by rewrite Hx, IH.
Qed.

Lemma filter_length_le {A} (f : A -> bool) (l : list A) :
  (length (List.filter f l) <= length l)%nat.
Proof. induction l as [|x l IH]; simpl; [lia|]. destruct (f x); simpl; lia. Qed.

Lemma rolling_length op w s : length (rolling op w s) = length s.
Proof. unfold rolling. by rewrite length_map, length_seq. Qed.

Lemma prep_values_length s : length (prep_values s) = length s.
Proof. unfold prep_values. by rewrite length_map. Qed.

(** A series of numbers goes into the aggregation as it is. *)
Lemma prep_values_finite s :
  Forall (fun v => isfinite v = true) s -> prep_values s = s.
Proof.
  induction 1 as [|x s Hx _ IH]; [done|].
  unfold prep_values in *. simpl. rewrite IH. by destruct x.
Qed.

Lemma finite_notnan (l : list float) :
  Forall (fun v => isfinite v = true) l -> Forall (fun v => notnan v = true) l.
Proof. intros H. eapply Forall_impl; [exact H|]. by intros []. Qed.

Lemma rolling_lookup op w s (i : nat) :
  (i < length s)%nat ->
  rolling op w s !! i =
    Some (let obs := List.filter notnan (window_at w (prep_values s) i) in
          if (0 <? w)%nat && (w <=? length obs)%nat then reduce op obs else NaN).
Proof.
  intros Hi. unfold rolling.
  rewrite list_lookup_fmap, lookup_seq_lt by done. done.
Qed.

(** A window that starts before row 0 is incomplete: the result is NaN. *)
Lemma rolling_incomplete op w s (i : nat) :
  (i < length s)%nat -> (i + 1 < w)%nat -> rolling op w s !! i = Some NaN.
Proof.
  intros Hi Hw. rewrite rolling_lookup by done. simpl.
  assert (Hlen : (length (List.filter notnan (window_at w (prep_values s) i))
                  <= i + 1)%nat).
  { etransitivity; [apply filter_length_le|].
    unfold window_at. rewrite length_drop, length_take. lia. }
  replace (w <=? _)%nat with false by (symmetry; apply Nat.leb_gt; lia).
  by rewrite andb_false_r.
Qed.

Lemma window_at_elem (w : nat) (s : list float) (i : nat) (x : float) :
  x ∈ window_at w s i <-> exists j, (i + 1 - w <= j < i + 1)%nat /\ s !! j = Some x.
Proof.
  unfold window_at. rewrite list_elem_of_lookup. split.
  - intros [k Hk]. rewrite lookup_drop in Hk.
    apply lookup_take_Some in Hk as [Hk Hlt]. exists (i + 1 - w + k)%nat.
    split; [lia | done].
  - intros (j & Hj & Hx). exists (j - (i + 1 - w))%nat.
    rewrite lookup_drop. replace (i + 1 - w + (j - (i + 1 - w)))%nat with j by lia.
    rewrite lookup_take_lt by lia. done.
Qed.

Lemma window_at_length (w : nat) (s : list float) (i : nat) :
  (i < length s)%nat -> (w <= i + 1)%nat -> length (window_at w s i) = w.
Proof. intros. unfold window_at. rewrite length_drop, length_take. lia. Qed.

(* ===================================================================== *)
(** * run_strategy, column by column *)
(* ===================================================================== *)

(** [rolling_apply] returns the aggregation, and it returns exactly for the
    windows from 0 that fit a 64-bit integer or on a series without rows. *)
Lemma rolling_apply_inv op window s out :
  rolling_apply op window s = Ok out ->
  exists w : nat,
    window = Z.of_nat w /\ (window < 2 ^ 63 \/ s = []) /\ out = rolling op w s.
Proof.
  unfold rolling_apply, validate_window.
  destruct (Z.ltb_spec window 0) as [Hw|Hw]; [done|]. simpl.
  destruct s as [|x s].
  - intros [= <-]. exists (Z.to_nat window).
    split; [by rewrite Z2Nat.id|]. split; [by right | done].
  - destruct (Z.leb_spec (2 ^ 63) window) as [Hb|Hb]; [done|].
    intros [= <-]. exists (Z.to_nat window).
    split; [by rewrite Z2Nat.id|]. split; [by left | done].
Qed.

Lemma rolling_apply_Ok op window s :
  0 <= window -> window < 2 ^ 63 \/ s = [] ->
  rolling_apply op window s = Ok (rolling op (Z.to_nat window) s).
Proof.
  intros Hw Hb. unfold rolling_apply, validate_window.
  destruct (Z.ltb_spec window 0) as [?|_]; [lia|]. simpl.
  destruct s as [|x s]; [done|].
  destruct Hb as [Hb|Hb]; [|done].
  by destruct (Z.leb_spec (2 ^ 63) window) as [?|_]; [lia|].
Qed.

Lemma rolling_apply_negative op window s :
  window < 0 ->
  rolling_apply op window s
  = Raise (ValueError "window must be an integer 0 or greater").
Proof.
  intros Hw. unfold rolling_apply, validate_window.
  by destruct (Z.ltb_spec window 0) as [_|?]; [|lia].
Qed.

Lemma rolling_apply_overflow op window s :
  2 ^ 63 <= window -> s <> [] ->
  rolling_apply op window s = Raise OverflowError.
Proof.
  intros Hw Hs. unfold rolling_apply, validate_window.
  destruct (Z.ltb_spec window 0) as [?|_]; [lia|]. simpl.
  destruct s as [|x s]; [done|].
  by destruct (Z.leb_spec (2 ^ 63) window) as [_|?]; [|lia].
Qed.

Lemma run_strategy_inv self config out :
  run_strategy self config = Ok out ->
  exists df (w : nat),
    data self = Some df /\ lookback_window config = Z.of_nat w /\
    rf_data out = df /\
    box_high out = shift1 NaN (rolling_max w (map high df)) /\
    box_low out = shift1 NaN (rolling_min w (map low df)) /\
    signal out = short_signal (map close df) (box_low out)
                   (long_signal (map close df) (box_high out)) /\
    pct_change_col out = pct_change (map close df) /\
    strategy_return out =
      apply_fees config
        (risk_cap config (lagged_return (signal out) (pct_change_col out))).
Proof.
  unfold run_strategy. intros H.
  destruct (data self) as [df|]; [|done].
  destruct (rolling_apply maximum _ _) as [hs|e] eqn:Hhs; [|done].
  destruct (rolling_apply minimum _ _) as [ls|e] eqn:Hls; [|done].
  simpl in H. injection H as <-.
  destruct (rolling_apply_inv _ _ _ _ Hhs) as (w & Hw & _ & ->).
  destruct (rolling_apply_inv _ _ _ _ Hls) as (w' & Hw' & _ & ->).
  assert (w' = w) by lia. subst w'.
  exists df, w. done.
Qed.

(** With data loaded, [run_strategy] returns for every window from 0 that
    fits a 64-bit integer. *)
Lemma run_strategy_total self config df :
  data self = Some df -> 0 <= lookback_window config < 2 ^ 63 ->
  exists out, run_strategy self config = Ok out.
Proof.
  intros Hd Hw. unfold run_strategy. rewrite Hd.
  rewrite !rolling_apply_Ok by first [lia | left; lia]. simpl. eauto.
Qed.

(** On a series without rows the size of the window is not looked at. *)
Lemma run_strategy_total_empty self config :
  data self = Some [] -> 0 <= lookback_window config ->
  exists out, run_strategy self config = Ok out.
Proof.
  intros Hd Hw. unfold run_strategy. rewrite Hd.
  simpl. rewrite !rolling_apply_Ok by first [lia | by right]. simpl. eauto.
Qed.

(** The windows for which [run_strategy] has returned. *)
Lemma run_strategy_window self config out :
  run_strategy self config = Ok out ->
  0 <= lookback_window config /\
  (lookback_window config < 2 ^ 63 \/ rf_data out = []).
Proof.
  unfold run_strategy. intros H.
  destruct (data self) as [df|]; [|done].
  destruct (rolling_apply maximum _ _) as [hs|e] eqn:Hhs; [|done].
  destruct (rolling_apply minimum _ _) as [ls|e] eqn:Hls; [|done].
  simpl in H. injection H as <-. simpl.
  destruct (rolling_apply_inv _ _ _ _ Hhs) as (w & Hw & Hb & _).
  split; [lia|]. destruct Hb as [Hb|Hb]; [by left | right].
  by destruct df.
Qed.

Lemma signal_lookup (closes bh bl : list float) (i : nat) (c h l : float) :
  closes !! i = Some c -> bh !! i = Some h -> bl !! i = Some l ->
  short_signal closes bl (long_signal closes bh) !! i
  = Some (if ltb c l then -1 else if gtb c h then 1 else 0).
Proof.
  intros Hc Hh Hl.
  assert (Hi : (i < length closes)%nat) by (by eapply lookup_lt_Some).
  unfold short_signal, long_signal, broadcast.
  apply np_where_lookup.
  - by rewrite lookup_zip_with, Hc; simpl; rewrite Hl.
  - by apply lookup_replicate_2.
  - rewrite (np_where_lookup _ _ _ i (gtb c h) 1 0);
      [done | | by apply lookup_replicate_2 ..].
    by rewrite lookup_zip_with, Hc; simpl; rewrite Hh.
Qed.

(** The box at row [i] reads the rolling aggregate of row [i-1]. *)
Lemma box_lookup_S op (w : nat) (s : list float) (i : nat) :
  (S i < length s)%nat ->
  shift1 NaN (rolling op w s) !! S i = rolling op w s !! i.
Proof. intros. apply shift1_lookup_S. by rewrite rolling_length. Qed.

Lemma box_lookup_early op (w : nat) (s : list float) (i : nat) :
  (i < length s)%nat -> (i < w)%nat ->
  shift1 NaN (rolling op w s) !! i = Some NaN.
Proof.
  intros Hi Hw. destruct i as [|i].
  - apply shift1_lookup_0. by rewrite rolling_length.
  - rewrite box_lookup_S by done. apply rolling_incomplete; lia.
Qed.

Lemma window_at_notnan (w : nat) (s : list float) (i : nat) :
  Forall (fun v => notnan v = true) s ->
  Forall (fun v => notnan v = true) (window_at w s i).
Proof.
  intros Hs. apply Forall_forall. intros x Hx.
  apply window_at_elem in Hx as (j & _ & Hj).
  rewrite Forall_forall in Hs. apply Hs. by eapply list_elem_of_lookup_2.
Qed.

Lemma rolling_full op (w : nat) (s : list float) (i : nat) :
  (1 <= w)%nat -> (w <= i + 1)%nat -> (i < length s)%nat ->
  Forall (fun v => isfinite v = true) s ->
  rolling op w s !! i = Some (reduce op (window_at w s i))
  /\ window_at w s i <> [].
Proof.
  intros Hw Hwi Hi Hs. rewrite rolling_lookup by done. simpl.
  rewrite prep_values_finite by done. apply finite_notnan in Hs.
  rewrite filter_notnan_id by by apply window_at_notnan.
  pose proof (window_at_length w s i Hi Hwi) as Hlen. rewrite Hlen.
  replace (0 <? w)%nat with true by (symmetry; apply Nat.ltb_lt; lia).
  rewrite Nat.leb_refl. simpl. split; [done|].
  intros E. rewrite E in Hlen. simpl in Hlen. lia.
Qed.

Lemma box_high_window (w : nat) (s : list float) (i : nat) :
  (1 <= w)%nat -> (w <= i)%nat -> (i < length s)%nat ->
  Forall (fun v => isfinite v = true) s ->
  exists m, shift1 NaN (rolling_max w s) !! i = Some m /\ window_max s i w m.
Proof.
  intros Hw Hwi Hi Hs. destruct i as [|i]; [lia|].
  unfold rolling_max. rewrite box_lookup_S by done.
  destruct (rolling_full maximum w s i) as [-> Hne]; try done; try lia.
  apply finite_notnan in Hs.
  eexists; split; [done|].
  destruct (reduce_maximum_spec (window_at w s i) Hne) as [Hin Hub].
  { by apply window_at_notnan. }
  split.
  - apply window_at_elem in Hin as (j & Hj & Hx). exists j. split; [lia|done].
  - intros j x Hj Hx. apply Hub, window_at_elem. exists j. split; [lia|done].
Qed.

Lemma box_low_window (w : nat) (s : list float) (i : nat) :
  (1 <= w)%nat -> (w <= i)%nat -> (i < length s)%nat ->
  Forall (fun v => isfinite v = true) s ->
  exists m, shift1 NaN (rolling_min w s) !! i = Some m /\ window_min s i w m.
Proof.
  intros Hw Hwi Hi Hs. destruct i as [|i]; [lia|].
  unfold rolling_min. rewrite box_lookup_S by done.
  destruct (rolling_full minimum w s i) as [-> Hne]; try done; try lia.
  apply finite_notnan in Hs.
  eexists; split; [done|].
  destruct (reduce_minimum_spec (window_at w s i) Hne) as [Hin Hub].
  { by apply window_at_notnan. }
  split.
  - apply window_at_elem in Hin as (j & Hj & Hx). exists j. split; [lia|done].
  - intros j x Hj Hx. apply Hub, window_at_elem. exists j. split; [lia|done].
Qed.

(** C1. With a lookback window [w >= 1] that fits a 64-bit integer,
    [run_strategy] returns a frame in which, at every row [i < w], both
    box values are NaN (undefined) and the signal is 0, and at every row
    [i >= w] of a price series whose highs and lows are numbers,
    [box_high[i]] is the maximum of the highs and [box_low[i]] the minimum
    of the lows over the rows [i-w .. i-1], the row [i] itself excluded. *)
Theorem C1_box_is_trailing_window_extremum :
  forall self config df (w : nat),
    data self = Some df ->
    lookback_window config = Z.of_nat w ->
    (1 <= w)%nat -> Z.of_nat w < 2 ^ 63 ->
    exists out,
      run_strategy self config = Ok out /\
      forall i : nat, (i < length df)%nat ->
        ((i < w)%nat ->
           box_high out !! i = Some NaN /\ box_low out !! i = Some NaN /\
           signal out !! i = Some 0) /\
        ((w <= i)%nat -> finite_prices df ->
           exists hi lo,
             box_high out !! i = Some hi /\ box_low out !! i = Some lo /\
             window_max (map high df) i w hi /\
             window_min (map low df) i w lo).
Proof.
  intros self config df w Hd Hw Hw1 Hw63.
  destruct (run_strategy_total self config df Hd) as [out Hout]; [lia|].
  exists out. split; [done|].
  destruct (run_strategy_inv _ _ _ Hout)
    as (df' & w' & Hd' & Hw' & _ & Hbh & Hbl & Hsig & _ & _).
  assert (df' = df) by congruence. assert (w' = w) by lia. subst df' w'.
  intros i Hi. split.
  - intros Hiw.
    assert (Hh : box_high out !! i = Some NaN).
    { rewrite Hbh. apply box_lookup_early; [by rewrite length_map | done]. }
    assert (Hl : box_low out !! i = Some NaN).
    { rewrite Hbl. apply box_lookup_early; [by rewrite length_map | done]. }
    split; [done|]. split; [done|].
    destruct (lookup_lt_is_Some_2 (map close df) i) as [c Hc];
      [by rewrite length_map|].
    rewrite Hsig, (signal_lookup _ _ _ i c NaN NaN Hc Hh Hl).
    unfold gtb. by rewrite ltb_nan_r, ltb_nan_l.
  - intros Hiw Hnn.
    destruct (box_high_window w (map high df) i) as (hi & Hhi & Hmax);
      try done; [by rewrite length_map | | ].
    { apply Forall_fmap. eapply Forall_impl; [exact Hnn|]. by intros b [? ?]. }
    destruct (box_low_window w (map low df) i) as (lo & Hlo & Hmin);
      try done; [by rewrite length_map | | ].
    { apply Forall_fmap. eapply Forall_impl; [exact Hnn|]. by intros b [? ?]. }
    exists hi, lo. by rewrite Hbh, Hbl.
Qed.

(* ===================================================================== *)
(** * The signal rule *)
(* ===================================================================== *)

(** C2. At every row, the signal is -1 when the close is below the box
    low, else +1 when the close is above the box high, else 0; when both
    comparisons hold the short signal -1 wins over the long signal +1. *)
Theorem C2_signal_rule_short_precedence :
  forall self config out (i : nat) (c bh bl : float),
    run_strategy self config = Ok out ->
    map close (rf_data out) !! i = Some c ->
    box_high out !! i = Some bh ->
    box_low out !! i = Some bl ->
    signal out !! i
      = Some (if ltb c bl then -1 else if gtb c bh then 1 else 0)
    /\ (gtb c bh = true -> ltb c bl = true -> signal out !! i = Some (-1)).
Proof.
  intros self config out i c bh bl Hout Hc Hbh Hbl.
  destruct (run_strategy_inv _ _ _ Hout)
    as (df & w & _ & _ & Hdf & _ & _ & Hsig & _ & _).
  rewrite Hdf in Hc.
  assert (E : signal out !! i
              = Some (if ltb c bl then -1 else if gtb c bh then 1 else 0)).
  { rewrite Hsig. by apply signal_lookup. }
  split; [exact E|]. intros _ Hlt. by rewrite E, Hlt.
Qed.

(* ===================================================================== *)
(** * The lagged return, the clamps and the fee *)
(* ===================================================================== *)

Lemma risk_cap_map config r : risk_cap config r = map (clamp config) r.
Proof.
  unfold risk_cap, cap_profit_target, cap_stop_loss.
  rewrite !np_where_map_scalar. rewrite map_map. done.
Qed.

Lemma apply_fees_map config r : apply_fees config r = map (charge config) r.
Proof. unfold apply_fees. apply np_where_map_map. Qed.

Lemma clamp_idempotent config x : clamp config (clamp config x) = clamp config x.
Proof.
  unfold clamp, gtb.
  set (sl := neg (stop_loss_pct config)). set (tp := profit_target_pct config).
  destruct (ltb x sl) eqn:E1.
  - destruct (ltb tp sl) eqn:E2.
    + by rewrite E2, E2.
    + by rewrite ltb_irrefl, E2.
  - destruct (ltb tp x) eqn:E2.
    + destruct (ltb tp sl) eqn:E3.
      * by rewrite E3.
      * by rewrite ltb_irrefl.
    + by rewrite E1, E2.
Qed.

Lemma clamp_nan config : clamp config NaN = NaN.
Proof. unfold clamp, gtb. simpl. by rewrite ltb_nan_r. Qed.

Lemma charge_nan config : charge config NaN = NaN.
Proof. done. Qed.

(** C9. Clamping at the stop loss and then at the profit target a series
    that went through both clamps already changes none of its values. *)
Theorem C9_risk_cap_idempotent :
  forall config r, risk_cap config (risk_cap config r) = risk_cap config r.
Proof.
  intros config r. rewrite !risk_cap_map, map_map.
  apply map_ext. intros x. apply clamp_idempotent.
Qed.

Lemma ffill_from_length last s : length (ffill_from last s) = length s.
Proof. revert last. induction s as [|x s IH]; intros last; simpl; by f_equal. Qed.

Lemma ffill_length s : length (ffill s) = length s.
Proof. apply ffill_from_length. Qed.

(** The forward fill leaves every value that is not NaN where it is. *)
Lemma ffill_from_lookup_notnan last s (i : nat) (x : float) :
  s !! i = Some x -> notnan x = true -> ffill_from last s !! i = Some x.
Proof.
  revert last i. induction s as [|y s IH]; intros last i Hi Hx; [done|].
  destruct i as [|i]; simpl in *.
  - injection Hi as ->. by destruct x.
  - by apply IH.
Qed.

Lemma ffill_lookup_notnan s (i : nat) (x : float) :
  s !! i = Some x -> notnan x = true -> ffill s !! i = Some x.
Proof. apply ffill_from_lookup_notnan. Qed.

(** Row 0 has no value before it: a NaN there stays. *)
Lemma ffill_lookup_0 s : ffill s !! O = s !! O.
Proof. destruct s as [|x s]; [done|]. simpl. by destruct x. Qed.

Lemma take_ffill_from (n : nat) last s :
  take n (ffill_from last s) = ffill_from last (take n s).
Proof.
  revert last n. induction s as [|x s IH]; intros last n; [by destruct n|].
  destruct n as [|n]; [done|]. simpl. by rewrite IH.
Qed.

Lemma pct_change_lookup_S (s : list float) (i : nat) (c p : float) :
  ffill s !! i = Some p -> ffill s !! S i = Some c ->
  pct_change s !! S i = Some (sub (div c p) one).
Proof.
  intros Hp Hc. unfold pct_change.
  rewrite lookup_zip_with, Hc. simpl.
  rewrite shift1_lookup_S by (by eapply lookup_lt_Some).
  by rewrite Hp.
Qed.

(** Between two closes that are not NaN the raw return is the plain ratio. *)
Lemma pct_change_lookup_notnan (s : list float) (i : nat) (c p : float) :
  s !! i = Some p -> s !! S i = Some c ->
  notnan p = true -> notnan c = true ->
  pct_change s !! S i = Some (sub (div c p) one).
Proof.
  intros Hp Hc Hnp Hnc.
  apply pct_change_lookup_S; by apply ffill_lookup_notnan.
Qed.

Lemma lagged_return_lookup_S (sig : list Z) (pct : list float) (i : nat)
    (s : Z) (x : float) :
  length sig = length pct ->
  sig !! i = Some s -> pct !! S i = Some x ->
  lagged_return sig pct !! S i = Some (mul (of_Z s) x).
Proof.
  intros Hlen Hs Hx. unfold lagged_return.
  rewrite lookup_zip_with.
  rewrite shift1_lookup_S.
  - by rewrite list_lookup_fmap, Hs; simpl; rewrite Hx.
  - rewrite length_map, Hlen. by eapply lookup_lt_Some.
Qed.

Lemma lagged_return_lookup_0 (sig : list Z) (pct : list float) :
  sig <> [] -> pct <> [] -> lagged_return sig pct !! O = Some NaN.
Proof.
  intros Hs Hp. unfold lagged_return.
  destruct sig as [|s sig]; [done|]. destruct pct as [|x pct]; [done|]. done.
Qed.

Lemma np_where_length {A} (cond : list bool) (x y : list A) :
  length cond = length x -> length x = length y ->
  length (np_where cond x y) = length y.
Proof.
  intros H1 H2. unfold np_where.
  rewrite !length_zip_with. lia.
Qed.

Lemma signal_length (closes bh bl : list float) :
  length bh = length closes -> length bl = length closes ->
  length (short_signal closes bl (long_signal closes bh)) = length closes.
Proof.
  intros Hh Hl. unfold short_signal, long_signal, np_where, broadcast.
  rewrite !length_zip_with, !length_replicate. lia.
Qed.

Lemma pct_change_length s : length (pct_change s) = length s.
Proof.
  unfold pct_change. rewrite length_zip_with, shift1_length, ffill_length. lia.
Qed.

Lemma run_strategy_lengths self config out :
  run_strategy self config = Ok out ->
  length (signal out) = length (rf_data out) /\
  length (pct_change_col out) = length (rf_data out) /\
  length (strategy_return out) = length (rf_data out).
Proof.
  intros Hout.
  destruct (run_strategy_inv _ _ _ Hout)
    as (df & w & _ & _ & Hdf & Hbh & Hbl & Hsig & Hpct & Hr).
  assert (Hs : length (signal out) = length df).
  { rewrite Hsig, signal_length, length_map; [done | |].
    - rewrite Hbh, shift1_length. unfold rolling_max.
      by rewrite rolling_length, !length_map.
    - rewrite Hbl, shift1_length. unfold rolling_min.
      by rewrite rolling_length, !length_map. }
  assert (Hp : length (pct_change_col out) = length df).
  { by rewrite Hpct, pct_change_length, length_map. }
  rewrite Hdf. split; [done|]. split; [done|].
  rewrite Hr, apply_fees_map, risk_cap_map, !length_map.
  unfold lagged_return. rewrite length_zip_with, shift1_length, length_map. lia.
Qed.

(** Row 0 of the returned [strategy_return] column is NaN. *)
Lemma strategy_return_bar0 self config out :
  run_strategy self config = Ok out -> rf_data out <> [] ->
  lagged_return (signal out) (pct_change_col out) !! O = Some NaN /\
  strategy_return out !! O = Some NaN.
Proof.
  intros Hout Hne.
  destruct (run_strategy_lengths _ _ _ Hout) as (Hs & Hp & _).
  destruct (run_strategy_inv _ _ _ Hout)
    as (df & w & _ & _ & Hdf & _ & _ & _ & _ & Hr).
  assert (H0 : lagged_return (signal out) (pct_change_col out) !! O = Some NaN).
  { apply lagged_return_lookup_0.
    - intros E. rewrite E in Hs. destruct (rf_data out); done.
    - intros E. rewrite E in Hp. destruct (rf_data out); done. }
  split; [done|].
  rewrite Hr, apply_fees_map, risk_cap_map, !list_lookup_fmap, H0. simpl.
  by rewrite clamp_nan.
Qed.

(** C3. For every row [i >= 1] whose close and previous close are not
    NaN, the return before the clamps is
    [signal[i-1] * (close[i]/close[i-1] - 1)]; where a close is NaN,
    [pct_change] reads the last close before it that is not, so the same
    formula holds on the forward-filled closes at every row [i >= 1].  At
    row 0 the lagged signal and the raw return are both NaN, and so are
    their product and the value of [strategy_return] after the clamps and
    the fee: it is NaN, which is different from 0. *)
Theorem C3_lagged_return_and_bar0 :
  forall self config out,
    run_strategy self config = Ok out ->
    let closes := map close (rf_data out) in
    let r0 := lagged_return (signal out) (pct_change_col out) in
    strategy_return out = apply_fees config (risk_cap config r0) /\
    (forall (i : nat) (s : Z) (c p : float),
        signal out !! i = Some s ->
        closes !! i = Some p -> closes !! S i = Some c ->
        notnan p = true -> notnan c = true ->
        r0 !! S i = Some (mul (of_Z s) (sub (div c p) one))) /\
    (forall (i : nat) (s : Z) (c p : float),
        signal out !! i = Some s ->
        ffill closes !! i = Some p -> ffill closes !! S i = Some c ->
        r0 !! S i = Some (mul (of_Z s) (sub (div c p) one))) /\
    (rf_data out <> [] ->
       r0 !! O = Some NaN /\ strategy_return out !! O = Some NaN /\
       eqb NaN zero = false).
Proof.
  intros self config out Hout closes r0.
  destruct (run_strategy_lengths _ _ _ Hout) as (Hs & Hp & _).
  destruct (run_strategy_inv _ _ _ Hout)
    as (df & w & _ & _ & Hdf & _ & _ & _ & Hpct & Hr).
  split; [done|]. split; [|split].
  - intros i s c p Hsig Hpi Hci Hnp Hnc. subst r0.
    apply lagged_return_lookup_S; [lia | done |].
    rewrite Hpct, <- Hdf. by apply pct_change_lookup_notnan.
  - intros i s c p Hsig Hpi Hci. subst r0.
    apply lagged_return_lookup_S; [lia | done |].
    rewrite Hpct, <- Hdf. by apply pct_change_lookup_S.
  - intros Hne. destruct (strategy_return_bar0 _ _ _ Hout Hne) as [H0 H1].
    done.
Qed.

(* ===================================================================== *)
(** * calculate_metrics: the trades and the record *)
(* ===================================================================== *)

Lemma calculate_metrics_no_trades df_results :
  trades_of (strategy_return df_results) = [] ->
  calculate_metrics df_results = degenerate_metrics.
Proof. unfold calculate_metrics, trades_of. by intros ->. Qed.

Lemma calculate_metrics_total_trades df_results :
  trades_of (strategy_return df_results) <> [] ->
  calculate_metrics df_results !! "total_trades"
  = Some (PInt (Z.of_nat (length (trades_of (strategy_return df_results))))).
Proof.
  unfold calculate_metrics, trades_of. intros Hne.
  destruct (List.filter _ _) as [|t ts]; [done|]. simpl.
  by rewrite lookup_insert_eq.
Qed.

Lemma calculate_metrics_win_rate df_results :
  trades_of (strategy_return df_results) <> [] ->
  calculate_metrics df_results !! "win_rate"
  = Some (PFloat
      (round (mul (div (of_nat (length (List.filter (fun x => gtb x zero)
                                  (trades_of (strategy_return df_results)))))
                       (of_nat (length (trades_of (strategy_return df_results)))))
                  (of_Z 100)) 2)).
Proof.
  unfold calculate_metrics, trades_of. intros Hne.
  destruct (List.filter _ _) as [|t ts]; [done|]. cbn [length Nat.eqb].
  by rewrite lookup_insert_ne, lookup_insert_eq.
Qed.

(** C7. When no return of the series is non-zero, [calculate_metrics]
    returns the record with exactly the three entries total_trades = 0,
    win_rate = 0 and expectancy = 0: the keys max_drawdown_pct and
    net_profit_pct are absent from it. *)
Theorem C7_no_trades_record :
  forall df_results,
    trades_of (strategy_return df_results) = [] ->
    let metrics := calculate_metrics df_results in
    metrics = {[ "total_trades" := PInt 0; "win_rate" := PInt 0;
                 "expectancy" := PInt 0 ]} /\
    metrics !! "total_trades" = Some (PInt 0) /\
    metrics !! "win_rate" = Some (PInt 0) /\
    metrics !! "expectancy" = Some (PInt 0) /\
    metrics !! "max_drawdown_pct" = None /\
    metrics !! "net_profit_pct" = None /\
    size metrics = 3%nat.
Proof.
  intros df_results Hno metrics. subst metrics.
  rewrite (calculate_metrics_no_trades _ Hno). unfold degenerate_metrics.
  repeat split; done.
Qed.

(** A series of zeros has no trade. *)
Lemma trades_of_zeros r :
  Forall (fun x => eqb x zero = true) r -> trades_of r = [].
Proof.
  induction 1 as [|x r Hx _ IH]; [done|].
  unfold trades_of in *. simpl. unfold neb. by rewrite Hx.
Qed.

(* ===================================================================== *)
(** * The pipeline: run_strategy, then calculate_metrics *)
(* ===================================================================== *)

(** C10. On a non-empty loaded price series, whatever the configuration,
    every frame [run_strategy] returns has NaN at row 0 of
    [strategy_return]; NaN passes the [!= 0] filter and fails [> 0], so
    [calculate_metrics] counts row 0 among the trades and not among the
    winning trades: total_trades is one more than the trades of the later
    rows and is >= 1, the winning trades are those of the later rows only,
    win_rate is their share of all trades, row 0 included, and the record
    of the no-trade branch is never returned.  [run_strategy] does return
    a frame for every lookback window from 0 that fits a 64-bit
    integer. *)
Theorem C10_bar0_counts_as_trade :
  forall self config df,
    data self = Some df -> df <> [] ->
    (0 <= lookback_window config < 2 ^ 63 ->
     exists out, run_strategy self config = Ok out)
    /\
    (forall out, run_strategy self config = Ok out ->
       exists later : list float,
         strategy_return out = NaN :: later /\
         neb NaN zero = true /\ gtb NaN zero = false /\
         trades_of (strategy_return out) = NaN :: trades_of later /\
         winning_trades_of (strategy_return out) = winning_trades_of later /\
         (exists n : Z,
             calculate_metrics out !! "total_trades" = Some (PInt n) /\
             n = 1 + Z.of_nat (length (trades_of later)) /\ 1 <= n) /\
         calculate_metrics out !! "win_rate"
           = Some (PFloat
               (round (mul (div (of_nat (length (winning_trades_of later)))
                                (of_nat (S (length (trades_of later)))))
                           (of_Z 100)) 2)) /\
         calculate_metrics out <> degenerate_metrics).
Proof.
  intros self config df Hd Hne. split.
  - intros Hw. by eapply run_strategy_total.
  - intros out Hout.
    destruct (run_strategy_inv _ _ _ Hout) as (df' & w & Hd' & _ & Hdf & _).
    rewrite Hd in Hd'. injection Hd' as <-.
    destruct (strategy_return_bar0 _ _ _ Hout) as [_ H0]; [by rewrite Hdf|].
    destruct (strategy_return out) as [|x later] eqn:Hr; [done|].
    injection H0 as ->. exists later.
    assert (Ht : trades_of (NaN :: later) = NaN :: trades_of later) by done.
    assert (Hwin : winning_trades_of (NaN :: later) = winning_trades_of later)
      by done.
    assert (Htt : calculate_metrics out !! "total_trades"
                  = Some (PInt (Z.of_nat (length (NaN :: trades_of later))))).
    { rewrite <- Ht, <- Hr. apply calculate_metrics_total_trades.
      by rewrite Hr, Ht. }
    split; [done|]. split; [done|]. split; [done|].
    split; [done|]. split; [done|]. split; [|split].
    + eexists. split; [exact Htt|]. simpl length. lia.
    + rewrite calculate_metrics_win_rate by (by rewrite Hr, Ht).
      rewrite Hr. fold (winning_trades_of (NaN :: later)).
      by rewrite Hwin, Ht.
    + intros E. rewrite E in Htt. unfold degenerate_metrics in Htt.
      rewrite lookup_insert_ne, lookup_insert_eq in Htt by done.
      injection Htt. simpl. lia.
Qed.

(* ===================================================================== *)
(** * Errors of the pipeline *)
(* ===================================================================== *)

(** The three ways [run_strategy] raises, and when it returns. *)
Lemma run_strategy_cases self config :
  match data self with
  | None =>
      run_strategy self config
      = Raise (ValueError "Data not loaded. Run generate_dummy_data() first.")
  | Some df =>
      if lookback_window config <? 0 then
        run_strategy self config
        = Raise (ValueError "window must be an integer 0 or greater")
      else if (2 ^ 63 <=? lookback_window config)
              && negb (length df =? 0)%nat then
        run_strategy self config = Raise OverflowError
      else exists out, run_strategy self config = Ok out
  end.
Proof.
  destruct (data self) as [df|] eqn:Hd; [|by unfold run_strategy; rewrite Hd].
  destruct (Z.ltb_spec (lookback_window config) 0) as [Hw|Hw].
  { unfold run_strategy. rewrite Hd.
    by rewrite rolling_apply_negative by done. }
  destruct (Z.leb_spec (2 ^ 63) (lookback_window config)) as [Hb|Hb]; simpl.
  - destruct df as [|b df]; simpl.
    + by apply run_strategy_total_empty.
    + unfold run_strategy. rewrite Hd.
      by rewrite rolling_apply_overflow by done.
  - apply (run_strategy_total self config df); [done | lia].
Qed.

(** C5. [run_strategy] raises exactly when the engine holds no data (its
    own ValueError), when the lookback window is negative (the ValueError
    of [rolling]), or when the window does not fit a 64-bit integer and
    the series has a row (an OverflowError from the aggregation); in every
    other case it returns a frame, whatever the series, the fee and the
    two fractions. *)
Theorem C5_raises_iff_no_data_or_window_out_of_range :
  forall self config,
    (fails_fast self config <->
       data self = None \/ lookback_window config < 0 \/
       (2 ^ 63 <= lookback_window config /\
        exists df, data self = Some df /\ df <> [])) /\
    ((exists out, run_strategy self config = Ok out) <->
       exists df, data self = Some df /\ 0 <= lookback_window config /\
                  (lookback_window config < 2 ^ 63 \/ df = [])) /\
    (data self = None ->
     run_strategy self config
     = Raise (ValueError "Data not loaded. Run generate_dummy_data() first.")) /\
    (is_Some (data self) -> lookback_window config < 0 ->
     run_strategy self config
     = Raise (ValueError "window must be an integer 0 or greater")) /\
    (forall df, data self = Some df -> df <> [] ->
                2 ^ 63 <= lookback_window config ->
                run_strategy self config = Raise OverflowError).
Proof.
  intros self config. pose proof (run_strategy_cases self config) as H.
  unfold fails_fast.
  destruct (data self) as [df|] eqn:Hd;
    [destruct (Z.ltb_spec (lookback_window config) 0) as [Hw|Hw];
     [|destruct (Z.leb_spec (2 ^ 63) (lookback_window config)) as [Hb|Hb];
       [destruct df as [|b df]|]; simpl in H;
       [destruct H as [out H]| |destruct H as [out H]]]|];
    rewrite H.
  all: unfold is_Some; repeat split; intros;
    repeat match goal with
           | H : _ \/ _ |- _ => destruct H
           | H : _ /\ _ |- _ => destruct H
           | H : ex _ |- _ => destruct H
           | H : Some _ = Some _ |- _ => injection H as <-
           end; try done; try lia; eauto 10 with lia.
Qed.

(* ===================================================================== *)
(** * Rounding *)
(* ===================================================================== *)



(** [round(x * 100, 2)] of a number: its sign and when it is zero. *)
Lemma round_pct_Fin (m : Q) :
  round (mul (Fin m) (of_Z 100)) 2
  = Fin (inject_Z (rint (m * (100 # 1) * (100 # 1))) / (100 # 1)).
Proof. reflexivity. Qed.




(* ===================================================================== *)
(** * The equity curve, its running peak and the drawdown *)
(* ===================================================================== *)

Lemma calculate_metrics_max_drawdown df_results :
  trades_of (strategy_return df_results) <> [] ->
  calculate_metrics df_results !! "max_drawdown_pct"
  = Some (PFloat (max_drawdown_pct (strategy_return df_results))).
Proof.
  unfold calculate_metrics, trades_of. intros Hne.
  destruct (List.filter _ _) as [|t ts]; [done|]. simpl.
  by rewrite lookup_insert_ne, lookup_insert_ne, lookup_insert_eq.
Qed.

Lemma cum_skipna_cons op fill x s :
  cum_skipna op fill (x :: s)
  = mask x (fillna fill x) :: cum_tail op fill (fillna fill x) s.
Proof. reflexivity. Qed.

Lemma cum_tail_cons op fill acc x s :
  cum_tail op fill acc (x :: s)
  = mask x (op acc (fillna fill x))
      :: cum_tail op fill (op acc (fillna fill x)) s.
Proof. reflexivity. Qed.

Lemma np_maximum_fill M : peak_acc_ok M -> np_maximum M NInf = M.
Proof. by intros [-> | [m ->]]. Qed.

Lemma np_maximum_Fin M (c : Q) :
  peak_acc_ok M -> exists b, np_maximum M (Fin c) = Fin b /\ (c <= b)%Q.
Proof.
  intros [-> | [m ->]].
  - exists c. split; [done | lra].
  - unfold np_maximum, maximum. simpl.
    destruct (Qcompare_spec m c); eexists; (split; [done | lra]).
Qed.

Lemma curve_tail_ok (r : list float) :
  forall (p : Q) (M : float),
    Forall return_ok r -> (0 < p)%Q -> peak_acc_ok M ->
    Forall3 row_ok r
      (cum_tail mul one (Fin p) (map (add one) r))
      (cum_tail np_maximum NInf M (cum_tail mul one (Fin p) (map (add one) r))).
Proof.
  induction r as [|x r IH]; intros p M Hr Hp HM; [constructor|].
  inversion Hr as [|? ? Hx Hr']; subst. simpl map.
  destruct x as [| | |q]; try done.
  - change (add one NaN) with NaN. rewrite !cum_tail_cons.
    cbn [mask fillna isnan]. rewrite np_maximum_fill by done.
    constructor; [done|].
    change (mul (Fin p) one) with (Fin (p * 1)). apply IH; [done | lra | done].
  - change (add one (Fin q)) with (Fin (1 + q)). rewrite !cum_tail_cons.
    cbn [mask fillna isnan].
    change (mul (Fin p) (Fin (1 + q))) with (Fin (p * (1 + q))).
    cbn [mask fillna isnan].
    simpl in Hx.
    assert (Hc : (0 < p * (1 + q))%Q) by (apply Qmult_lt_0_compat; lra).
    destruct (np_maximum_Fin M (p * (1 + q)) HM) as (b & -> & Hb).
    constructor; [simpl; lra|].
    apply IH; [done | done | right; eauto].
Qed.

Lemma curve_ok (r : list float) :
  Forall return_ok r ->
  Forall3 row_ok r (cumulative_returns r) (running_peak r).
Proof.
  intros Hr. unfold running_peak, cumulative_returns, cumprod, cummax.
  destruct r as [|x r]; [constructor|].
  inversion Hr as [|? ? Hx Hr']; subst. simpl map.
  destruct x as [| | |q]; try done.
  - change (add one NaN) with NaN. rewrite !cum_skipna_cons.
    cbn [mask fillna isnan].
    constructor; [done|].
    apply (curve_tail_ok r 1 NInf); [done | lra | by left].
  - change (add one (Fin q)) with (Fin (1 + q)). rewrite !cum_skipna_cons.
    cbn [mask fillna isnan].
    simpl in Hx.
    constructor; [simpl; lra|].
    apply (curve_tail_ok r (1 + q) (Fin (1 + q))); [done | lra | right; eauto].
Qed.

(** The drawdown of one row. *)
Lemma drawdown_row (x c p : float) :
  row_ok x c p ->
  (x = NaN /\ c = NaN /\ p = NaN /\ div (sub c p) p = NaN) \/
  (exists a b, notnan x = true /\ c = Fin a /\ p = Fin b /\
               (0 < a /\ a <= b)%Q /\
               div (sub c p) p = Fin ((a + - b) / b)).
Proof.
  destruct x as [| | |q], c as [| | |a], p as [| | |b]; try done.
  - intros _. by left.
  - intros [Ha Hab]. right. exists a, b. repeat split; try done.
    unfold sub, neg, add, div.
    destruct (Qeq_bool b 0) eqn:E; [|done].
    apply Qeq_bool_iff in E. lra.
Qed.

Lemma drawdown_value_nonpos (a b : Q) :
  (0 < a)%Q -> (a <= b)%Q -> ((a + - b) / b <= 0)%Q.
Proof. intros Ha Hab. apply Qle_shift_div_r; lra. Qed.


Lemma drawdown_length r :
  Forall return_ok r -> length (drawdown r) = length r.
Proof.
  intros Hr. pose proof (curve_ok r Hr) as H3.
  unfold drawdown. rewrite length_zip_with.
  rewrite <- (Forall3_length_lm _ _ _ _ H3), <- (Forall3_length_lr _ _ _ _ H3).
  lia.
Qed.

Lemma drawdown_elem r d :
  Forall return_ok r -> d ∈ drawdown r ->
  exists (i : nat) x c p,
    r !! i = Some x /\ cumulative_returns r !! i = Some c /\
    running_peak r !! i = Some p /\ row_ok x c p /\ d = div (sub c p) p.
Proof.
  intros Hr Hd. pose proof (curve_ok r Hr) as H3.
  unfold drawdown in Hd.
  apply elem_of_lookup_zip_with in Hd as (i & c & p & -> & Hc & Hp).
  destruct (Forall3_lookup_m _ _ _ _ i c H3 Hc) as (x & p' & Hx & Hp' & Hok).
  assert (p' = p) by congruence. subst p'. by exists i, x, c, p.
Qed.

Lemma drawdown_elem_nonpos r d :
  Forall return_ok r -> d ∈ drawdown r ->
  d = NaN \/ exists q, d = Fin q /\ (q <= 0)%Q.
Proof.
  intros Hr Hd.
  destruct (drawdown_elem r d Hr Hd) as (i & x & c & p & _ & _ & _ & Hok & ->).
  destruct (drawdown_row _ _ _ Hok)
    as [(_ & _ & _ & ->) | (a & b & _ & _ & _ & [Ha Hab] & ->)]; [by left|].
  right. eexists. split; [done|]. by apply drawdown_value_nonpos.
Qed.

Lemma filter_notnan_Forall (l : list float) :
  Forall (fun v => notnan v = true) (List.filter notnan l).
Proof.
  apply Forall_forall. intros x Hx.
  apply list_elem_of_In, filter_In in Hx. tauto.
Qed.

Lemma filter_notnan_elem (l : list float) (x : float) :
  x ∈ List.filter notnan l <-> x ∈ l /\ notnan x = true.
Proof. rewrite !list_elem_of_In. apply filter_In. Qed.

(** The smallest drawdown of a series that has at least one number. *)
Lemma series_min_drawdown r :
  Forall return_ok r -> (exists x, x ∈ r /\ notnan x = true) ->
  exists mn : Q,
    series_min (drawdown r) = Fin mn /\ (mn <= 0)%Q /\
    Fin mn ∈ drawdown r /\
    forall d, d ∈ drawdown r -> ltb d (Fin mn) = false.
Proof.
  intros Hr (x & Hx & Hnn).
  pose proof (curve_ok r Hr) as H3.
  apply list_elem_of_lookup in Hx as [i Hi].
  destruct (Forall3_lookup_l _ _ _ _ i x H3 Hi) as (c & p & Hc & Hp & Hok).
  assert (Hd : div (sub c p) p ∈ drawdown r).
  { unfold drawdown. apply elem_of_lookup_zip_with. by exists i, c, p. }
  destruct (drawdown_row _ _ _ Hok)
    as [(-> & _) | (a & b & _ & _ & _ & _ & Hdv)]; [done|].
  rewrite Hdv in Hd.
  set (nn := List.filter notnan (drawdown r)).
  assert (Hne : nn <> []).
  { intros E. assert (Hin : Fin ((a + - b) / b) ∈ nn)
      by by apply filter_notnan_elem.
    rewrite E in Hin. by apply not_elem_of_nil in Hin. }
  destruct (reduce_minimum_spec nn Hne (filter_notnan_Forall _)) as [Hin Hlb].
  fold (series_min (drawdown r)) in Hin, Hlb.
  apply filter_notnan_elem in Hin as [Hin Hmn].
  destruct (drawdown_elem_nonpos r _ Hr Hin) as [E | (mn & E & Hle)].
  { by rewrite E in Hmn. }
  exists mn. rewrite E in *. repeat split; try done.
  intros d Hdd. destruct (notnan d) eqn:Hdn.
  - apply Hlb. by apply filter_notnan_elem.
  - destruct d; done.
Qed.



(* ===================================================================== *)
(** * A stable sort that meets the contract of [argsort] *)
(* ===================================================================== *)

Section InsertionArgsort.

Variable before : float -> float -> bool.
Hypothesis before_true : forall a b, before a b = true -> ltb b a = false.
Hypothesis before_false : forall a b, before a b = false -> ltb a b = false.

Lemma insert_index_perm keys i s : insert_index before keys i s ≡ₚ i :: s.
Proof.
  induction s as [|j s IH]; simpl; [done|].
  destruct (before _ _); [done|]. rewrite IH. apply perm_swap.
Qed.

Lemma insertion_fold_perm keys (l acc : list nat) :
  fold_left (fun acc i => insert_index before keys i acc) l acc ≡ₚ acc ++ l.
Proof.
  revert acc. induction l as [|i l IH]; intros acc; simpl.
  - by rewrite app_nil_r.
  - rewrite IH, insert_index_perm. simpl. apply Permutation_middle.
Qed.

Lemma insertion_argsort_perm keys :
  insertion_argsort before keys ≡ₚ seq 0 (length keys).
Proof. unfold insertion_argsort. by rewrite insertion_fold_perm. Qed.

Lemma insert_index_HdRel keys i j s :
  HdRel (nondecreasing keys) j s -> nondecreasing keys j i ->
  HdRel (nondecreasing keys) j (insert_index before keys i s).
Proof.
  intros Hs Hji. destruct s as [|k s]; simpl; [by constructor|].
  destruct (before _ _); constructor; [done|]. by inversion Hs.
Qed.

Lemma insert_index_sorted keys i s :
  Sorted (nondecreasing keys) s ->
  Sorted (nondecreasing keys) (insert_index before keys i s).
Proof.
  induction 1 as [|j s Hs IH Hhd]; simpl; [by repeat constructor|].
  destruct (before _ _) eqn:E.
  - constructor; [by constructor|]. constructor. by apply before_true.
  - constructor; [done|]. apply insert_index_HdRel; [done|].
    by apply before_false.
Qed.

Lemma insertion_argsort_sorted keys :
  Sorted (nondecreasing keys) (insertion_argsort before keys).
Proof.
  unfold insertion_argsort.
  assert (H : forall l acc, Sorted (nondecreasing keys) acc ->
    Sorted (nondecreasing keys)
      (fold_left (fun acc i => insert_index before keys i acc) l acc)).
  { induction l as [|i l IH]; intros acc Hacc; simpl; [done|].
    by apply IH, insert_index_sorted. }
  apply H. constructor.
Qed.

End InsertionArgsort.

(** Equal keys stay in input order (what [kind='stable'] promises). *)
Definition argsort_stable : Argsort.
Proof.
  refine {| argsort := insertion_argsort ltb |}.
  - apply insertion_argsort_perm.
  - intros keys _. apply insertion_argsort_sorted.
    + apply ltb_asym.
    + done.
Defined.

(* ===================================================================== *)
(** * sort_values: a permutation, in descending order of WinRate *)
(* ===================================================================== *)

Section SortedLists.

Context {A B : Type}.

Lemma StronglySorted_reverse (R : relation A) (l : list A) :
  StronglySorted R l -> StronglySorted (flip R) (reverse l).
Proof.
  induction 1 as [|x l Hl IH Hx]; [apply SSorted_nil|].
  rewrite reverse_cons. apply StronglySorted_app_2; [|done|by repeat constructor].
  intros x1 x2 H1 H2. apply list_elem_of_singleton in H2 as ->.
  rewrite elem_of_reverse in H1. unfold flip.
  rewrite Forall_forall in Hx. by apply Hx.
Qed.

Lemma StronglySorted_omap (R1 : relation A) (R2 : relation B)
    (h : A -> option B) (l : list A) :
  StronglySorted R1 l ->
  (forall a b ra rb, a ∈ l -> b ∈ l -> R1 a b ->
                     h a = Some ra -> h b = Some rb -> R2 ra rb) ->
  StronglySorted R2 (omap h l).
Proof.
  induction 1 as [|x l Hl IH Hx]; intros Hh; [constructor|].
  assert (IH' : StronglySorted R2 (omap h l)).
  { apply IH. intros a b ra rb Ha Hb. apply Hh; by apply list_elem_of_further. }
  simpl. destruct (h x) as [y|] eqn:Ey; [|done].
  constructor; [done|]. apply Forall_forall. intros z Hz.
  apply list_elem_of_omap in Hz as (b & Hb & Ez).
  rewrite Forall_forall in Hx.
  apply (Hh x b); auto using list_elem_of_here, list_elem_of_further.
Qed.

(** A sorted list is strongly sorted when the order is transitive on the
    values the list holds. *)
Lemma Sorted_StronglySorted_on (R : relation A) (P : A -> Prop) (l : list A) :
  (forall x y z, P y -> R x y -> R y z -> R x z) ->
  Forall P l -> Sorted R l -> StronglySorted R l.
Proof.
  intros Htr HP Hs. induction Hs as [|x l Hs IH Hhd]; [constructor|].
  inversion HP as [|? ? Px Pl]; subst. specialize (IH Pl).
  constructor; [done|].
  destruct Hhd as [|y l Rxy]; [constructor|].
  inversion IH as [|? ? _ Hy]; subst. inversion Pl as [|? ? Py _]; subst.
  constructor; [done|].
  eapply Forall_impl; [exact Hy|]. intros z Ryz. by apply (Htr x y z).
Qed.

End SortedLists.

Lemma map_nth_seq {A} (l : list A) (d : A) :
  map (fun j => nth j l d) (seq 0 (length l)) = l.
Proof.
  apply list_eq. intros i. rewrite list_lookup_fmap.
  destruct (decide (i < length l)%nat) as [Hi|Hi].
  - rewrite lookup_seq_lt by done. simpl.
    destruct (lookup_lt_is_Some_2 l i Hi) as [x Hx]. rewrite Hx.
    f_equal. by apply nth_lookup_Some.
  - rewrite lookup_seq_ge by lia. simpl. symmetry. apply lookup_ge_None. lia.
Qed.

Lemma omap_fmap_compose {A B C} (f : B -> option C) (g : A -> B) (l : list A) :
  omap f (g <$> l) = omap (fun x => f (g x)) l.
Proof. induction l as [|a l IH]; [done|]. csimpl. by rewrite IH. Qed.

Lemma omap_lookup_seq {A} (l : list A) :
  omap (fun i => l !! i) (seq 0 (length l)) = l.
Proof.
  induction l as [|x l IH]; [done|].
  simpl. f_equal. rewrite <- fmap_S_seq, omap_fmap_compose. exact IH.
Qed.

Lemma filter_nan_partition (keys : list float) (idx : list nat) :
  List.filter (fun i => notnan (key_at keys i)) idx
  ++ List.filter (fun i => isnan (key_at keys i)) idx ≡ₚ idx.
Proof.
  induction idx as [|i idx IH]; [done|]. simpl. unfold notnan.
  destruct (isnan (key_at keys i)); simpl.
  - rewrite <- Permutation_middle. by constructor.
  - by constructor.
Qed.

Lemma key_at_lookup (keys : list float) (i : nat) (x : float) :
  keys !! i = Some x -> key_at keys i = x.
Proof. intros H. unfold key_at. by apply nth_lookup_Some. Qed.

Lemma nargsort_desc_perm (kind : Argsort) (items : list float) :
  nargsort_desc kind items ≡ₚ seq 0 (length items).
Proof.
  unfold nargsort_desc.
  set (idx := seq 0 (length items)).
  set (nn := List.filter (fun i => notnan (key_at items i)) idx).
  etransitivity; [|apply (filter_nan_partition items idx)]. fold nn.
  apply Permutation_app; [|done].
  rewrite reverse_Permutation, (argsort_perm kind).
  rewrite length_reverse, length_map, <- (length_reverse nn).
  rewrite map_nth_seq. apply reverse_Permutation.
Qed.

Lemma sort_values_inv (kind : Argsort) (rows out : list Row) :
  sort_values_WinRate_desc kind rows = Ok out ->
  out = omap (fun i => rows !! i) (nargsort_desc kind (map sort_key rows)).
Proof.
  unfold sort_values_WinRate_desc. destruct rows; [done|].
  intros H. by injection H.
Qed.

Lemma sort_values_perm (kind : Argsort) (rows out : list Row) :
  sort_values_WinRate_desc kind rows = Ok out -> out ≡ₚ rows.
Proof.
  intros H. rewrite (sort_values_inv _ _ _ H).
  rewrite nargsort_desc_perm, length_map. by rewrite omap_lookup_seq.
Qed.

Lemma sort_values_nonempty (kind : Argsort) (rows : list Row) :
  rows <> [] -> exists out, sort_values_WinRate_desc kind rows = Ok out.
Proof. destruct rows; [done|]. intros _. simpl. eauto. Qed.

Lemma ltb_isnan_r (x y : float) : isnan y = true -> ltb x y = false.
Proof. destruct y; try done. intros _. apply ltb_nan_r. Qed.

Lemma nan_keys_descending (rows : list Row) :
  Forall (fun r => isnan (sort_key r) = true) rows -> descending_WinRate rows.
Proof.
  induction 1 as [|r rows Hr Hrows IH]; [constructor|].
  constructor; [done|]. eapply Forall_impl; [exact Hrows|].
  intros r' Hn. by apply ltb_isnan_r.
Qed.

Lemma sort_key_lookup (rows : list Row) (i : nat) (r : Row) :
  rows !! i = Some r -> key_at (map sort_key rows) i = sort_key r.
Proof. intros H. apply key_at_lookup. by rewrite list_lookup_fmap, H. Qed.

Lemma sort_values_descending (kind : Argsort) (rows out : list Row) :
  sort_values_WinRate_desc kind rows = Ok out -> descending_WinRate out.
Proof.
  intros H. rewrite (sort_values_inv _ _ _ H). clear H.
  unfold nargsort_desc.
  set (idx := seq 0 (length (map sort_key rows))).
  set (nn := List.filter (fun i => notnan (key_at (map sort_key rows) i)) idx).
  set (nnr := reverse (map (key_at (map sort_key rows)) nn)).
  assert (Hnnr : nnr = map (key_at (map sort_key rows)) (reverse nn))
    by (symmetry; apply fmap_reverse).
  assert (Hlen : length nnr = length (reverse nn))
    by (by rewrite Hnnr, length_map).
  assert (Hfree : Forall (fun x => notnan x = true) nnr).
  { rewrite Hnnr. apply Forall_fmap, Forall_forall. intros i Hi. simpl.
    rewrite elem_of_reverse in Hi. apply list_elem_of_In, filter_In in Hi. tauto. }
  rewrite omap_app. apply StronglySorted_app_2.
  - intros r1 r2 _ H2. apply list_elem_of_omap in H2 as (i & Hi & Hr).
    apply list_elem_of_In, filter_In in Hi as [_ Hi].
    rewrite (sort_key_lookup rows i r2 Hr) in Hi.
    by apply ltb_isnan_r.
  - rewrite <- fmap_reverse, omap_fmap_compose.
    assert (Hrange : forall j, j ∈ kind nnr -> (j < length nnr)%nat).
    { intros j Hj. rewrite (argsort_perm kind) in Hj.
      apply elem_of_seq in Hj. lia. }
    assert (Hkey : forall j ra, j ∈ kind nnr ->
              rows !! nth j (reverse nn) O = Some ra ->
              key_at nnr j = sort_key ra).
    { intros j ra Hj Hra. apply Hrange in Hj.
      destruct (lookup_lt_is_Some_2 (reverse nn) j) as [i Hi]; [lia|].
      rewrite (nth_lookup_Some _ _ _ _ Hi) in Hra.
      rewrite <- (sort_key_lookup rows i ra Hra).
      apply key_at_lookup. by rewrite Hnnr, list_lookup_fmap, Hi. }
    apply (StronglySorted_omap (flip (nondecreasing nnr))).
    + apply StronglySorted_reverse.
      apply (Sorted_StronglySorted_on _
               (fun j => notnan (key_at nnr j) = true)).
      * intros x y z Hy Hxy Hyz. unfold nondecreasing in *.
        by apply (nlt_trans _ (key_at nnr y)).
      * apply Forall_forall. intros j Hj. apply Hrange in Hj.
        destruct (lookup_lt_is_Some_2 nnr j Hj) as [x Hx].
        rewrite (key_at_lookup _ _ _ Hx).
        rewrite Forall_forall in Hfree. apply Hfree.
        by eapply list_elem_of_lookup_2.
      * by apply (argsort_sorted kind).
    + intros a b ra rb Ha Hb Hab Hra Hrb.
      rewrite elem_of_reverse in Ha, Hb. unfold flip, nondecreasing in Hab.
      simpl in Hra, Hrb.
      by rewrite (Hkey a ra Ha Hra), (Hkey b rb Hb Hrb) in Hab.
  - apply nan_keys_descending, Forall_forall. intros r Hr.
    apply list_elem_of_omap in Hr as (i & Hi & Hr).
    apply list_elem_of_In, filter_In in Hi as [_ Hi].
    by rewrite (sort_key_lookup rows i r Hr) in Hi.
Qed.

(* ===================================================================== *)
(** * The sweep over the parameter grid *)
(* ===================================================================== *)

Lemma flat_map_bind {A B} (f : A -> list B) (l : list A) :
  flat_map f l = l ≫= f.
Proof. induction l as [|x l IH]; [done|]. simpl. by rewrite IH. Qed.

Lemma product3_length {A B C} (a : list A) (b : list B) (c : list C) :
  length (product3 a b c) = (length a * length b * length c)%nat.
Proof.
  unfold product3.
  rewrite (flat_map_constant_length (c := (length b * length c)%nat)); [lia|].
  intros x _.
  rewrite (flat_map_constant_length (c := length c)); [lia|].
  intros y _. by rewrite length_map.
Qed.

Lemma product3_nil {A B C} (a : list A) (b : list B) (c : list C) :
  product3 a b c = [] <-> a = [] \/ b = [] \/ c = [].
Proof.
  split.
  - intros H. destruct a as [|x a]; [by left|]. destruct b as [|y b]; [auto|].
    destruct c as [|z c]; [auto|]. done.
  - intros H. apply length_zero_iff_nil. rewrite product3_length.
    destruct H as [-> | [-> | ->]]; simpl; lia.
Qed.

Lemma product3_elem {A B C} (a : list A) (b : list B) (c : list C) x y z :
  (x, y, z) ∈ product3 a b c <-> x ∈ a /\ y ∈ b /\ z ∈ c.
Proof.
  unfold product3. rewrite !flat_map_bind, list_elem_of_bind. split.
  - intros (x' & H & Hx). rewrite flat_map_bind in H.
    apply list_elem_of_bind in H as (y' & H & Hy).
    apply list_elem_of_fmap in H as (z' & E & Hz).
    injection E as -> -> ->. done.
  - intros (Hx & Hy & Hz). exists x. split; [|done].
    rewrite flat_map_bind. apply list_elem_of_bind. exists y. split; [|done].
    apply list_elem_of_fmap. by exists z.
Qed.

Lemma product3_NoDup {A B C} (a : list A) (b : list B) (c : list C) :
  NoDup a -> NoDup b -> NoDup c -> NoDup (product3 a b c).
Proof.
  intros Ha Hb Hc. unfold product3. rewrite flat_map_bind.
  apply NoDup_bind; [| |done].
  - intros x1 x2 [[x y] z] _ _ H1 H2. rewrite flat_map_bind in H1, H2.
    apply list_elem_of_bind in H1 as (y1 & H1 & _).
    apply list_elem_of_bind in H2 as (y2 & H2 & _).
    apply list_elem_of_fmap in H1 as (z1 & E1 & _).
    apply list_elem_of_fmap in H2 as (z2 & E2 & _).
    congruence.
  - intros x _. rewrite flat_map_bind. apply NoDup_bind; [| |done].
    + intros y1 y2 [[x' y] z] _ _ H1 H2.
      apply list_elem_of_fmap in H1 as (z1 & E1 & _).
      apply list_elem_of_fmap in H2 as (z2 & E2 & _).
      congruence.
    + intros y _. apply NoDup_fmap_2; [|done].
      intros z1 z2 E. by injection E.
Qed.

Lemma calculate_metrics_keys df_results :
  trades_of (strategy_return df_results) <> [] ->
  exists wr tt dd ex,
    getitem (calculate_metrics df_results) "win_rate" = Ok wr /\
    getitem (calculate_metrics df_results) "total_trades" = Ok tt /\
    getitem (calculate_metrics df_results) "max_drawdown_pct" = Ok dd /\
    getitem (calculate_metrics df_results) "expectancy" = Ok ex.
Proof.
  unfold calculate_metrics, trades_of, getitem. intros Hne.
  destruct (List.filter _ _) as [|t ts]; [done|]. cbn [length Nat.eqb].
  repeat eexists.
Qed.

Lemma pipeline_has_trades self config out :
  run_strategy self config = Ok out -> rf_data out <> [] ->
  trades_of (strategy_return out) <> [].
Proof.
  intros Hout Hne. destruct (strategy_return_bar0 _ _ _ Hout Hne) as [_ H0].
  destruct (strategy_return out) as [|x r]; [done|].
  injection H0 as ->. done.
Qed.

Lemma evaluate_ok engine df (combo : Z * float * float) :
  data engine = Some df -> df <> [] -> 0 <= combo.1.1 < 2 ^ 63 ->
  exists row, evaluate engine combo = Ok row /\ params row = combo.
Proof.
  intros Hd Hne Hw. destruct combo as [[window sl] tp]. simpl in Hw.
  unfold evaluate.
  set (config := {| lookback_window := window; profit_target_pct := tp;
                    stop_loss_pct := sl; fee_per_trade := default_fee |}).
  destruct (run_strategy_total engine config df Hd Hw) as [out Hout].
  rewrite Hout. simpl bind.
  destruct (run_strategy_inv _ _ _ Hout) as (df' & w & Hd' & _ & Hdf & _).
  rewrite Hd in Hd'. injection Hd' as <-.
  destruct (calculate_metrics_keys out)
    as (wr & tt & dd & ex & -> & -> & -> & ->).
  { apply (pipeline_has_trades engine config); [done | by rewrite Hdf]. }
  simpl. eauto.
Qed.

Lemma sweep_loop_ok engine df (combos : list (Z * float * float)) :
  data engine = Some df -> df <> [] ->
  Forall (fun combo => 0 <= combo.1.1 < 2 ^ 63) combos ->
  forall log, exists rows,
    sweep_loop engine combos log = Ok (log ++ rows) /\
    map params rows = combos.
Proof.
  intros Hd Hne. induction 1 as [|combo combos Hw _ IH]; intros log.
  - exists []. by rewrite app_nil_r.
  - destruct (evaluate_ok engine df combo Hd Hne Hw) as (row & Hrow & Hp).
    destruct (IH (log ++ [row])) as (rows & Hrows & Hps).
    exists (row :: rows). simpl. rewrite Hrow. simpl.
    rewrite Hrows, <- app_assoc. simpl. by rewrite Hp, Hps.
Qed.

(** The sweep on a loaded non-empty series and windows in range. *)
Lemma sweep_ok engine df (windows : list Z) (stop_losses take_profits : list float) :
  data engine = Some df -> df <> [] ->
  Forall (fun w => 0 <= w < 2 ^ 63) windows ->
  exists results_log,
    sweep engine windows stop_losses take_profits = Ok results_log /\
    map params results_log = product3 windows stop_losses take_profits.
Proof.
  intros Hd Hne Hws.
  destruct (sweep_loop_ok engine df (product3 windows stop_losses take_profits)
              Hd Hne) with (log := @nil Row) as (rows & Hrows & Hps).
  { apply Forall_forall. intros [[w sl] tp] Hin.
    apply product3_elem in Hin as (Hw & _). simpl.
    rewrite Forall_forall in Hws. by apply Hws. }
  exists rows. by split.
Qed.

(** C8. On a non-empty loaded price series, with lookback windows from 0
    that fit a 64-bit integer, the sweep logs one row per element of the
    Cartesian product of the three parameter lists, in enumeration order.
    When none of the three lists is empty the optimizer's output holds
    these rows: |windows| x |stop_losses| x |take_profits| rows, every
    parameter tuple of the product present, and none twice when the lists
    hold no value twice.  When one of the lists is empty there is no
    output: the ranking raises KeyError 'WinRate'. *)
Theorem C8_optimizer_covers_cartesian_product :
  forall (kind : Argsort) engine df
         (windows : list Z) (stop_losses take_profits : list float),
    data engine = Some df -> df <> [] ->
    Forall (fun w => 0 <= w < 2 ^ 63) windows ->
    (exists results_log,
        sweep engine windows stop_losses take_profits = Ok results_log /\
        map params results_log = product3 windows stop_losses take_profits) /\
    (windows <> [] -> stop_losses <> [] -> take_profits <> [] ->
     exists best_configs,
       optimize kind engine windows stop_losses take_profits
         = Ok best_configs /\
       length best_configs
         = (length windows * length stop_losses * length take_profits)%nat /\
       map params best_configs
         ≡ₚ product3 windows stop_losses take_profits /\
       (forall w sl tp,
           (w, sl, tp) ∈ map params best_configs
           <-> w ∈ windows /\ sl ∈ stop_losses /\ tp ∈ take_profits) /\
       (NoDup windows -> NoDup stop_losses -> NoDup take_profits ->
        NoDup (map params best_configs))) /\
    (windows = [] \/ stop_losses = [] \/ take_profits = [] ->
     optimize kind engine windows stop_losses take_profits
       = Raise (KeyError "WinRate")).
Proof.
  intros kind engine df ws sls tps Hd Hne Hws.
  destruct (sweep_ok engine df ws sls tps Hd Hne Hws) as (log & Hlog & Hps).
  split; [by exists log|]. split.
  - intros Hw Hsl Htp.
    assert (Hlen : length log = (length ws * length sls * length tps)%nat).
    { by rewrite <- (length_map params), Hps, product3_length. }
    assert (Hnil : log <> []).
    { intros ->. simpl in Hlen.
      destruct ws; [done|]. destruct sls; [done|]. destruct tps; [done|].
      simpl in Hlen. lia. }
    destruct (sort_values_nonempty kind log Hnil) as [best Hbest].
    pose proof (sort_values_perm _ _ _ Hbest) as Hperm.
    assert (Hpp : map params best ≡ₚ product3 ws sls tps).
    { rewrite <- Hps. by apply fmap_Permutation. }
    exists best. unfold optimize. rewrite Hlog. simpl.
    split; [done|]. split; [by rewrite Hperm|]. split; [done|]. split.
    + intros w sl tp. rewrite Hpp. apply product3_elem.
    + intros. rewrite Hpp. by apply product3_NoDup.
  - intros Hempty.
    assert (Hp : product3 ws sls tps = []) by by apply product3_nil.
    rewrite Hp in Hps. destruct log; [|done].
    unfold optimize. by rewrite Hlog.
Qed.

(* ===================================================================== *)
(** * Rows in a strongly sorted list *)
(* ===================================================================== *)

Lemma StronglySorted_lookup_lt {A} (R : relation A) (l : list A)
    (i j : nat) (x y : A) :
  StronglySorted R l -> (i < j)%nat ->
  l !! i = Some x -> l !! j = Some y -> R x y.
Proof.
  intros Hl. revert i j. induction Hl as [|a l Hl IH Ha]; intros i j Hij Hi Hj.
  - done.
  - destruct j as [|j]; [lia|]. destruct i as [|i].
    + injection Hi as ->. rewrite Forall_forall in Ha.
      apply Ha. by eapply list_elem_of_lookup_2.
    + apply (IH i j); [lia | done | done].
Qed.

(* ===================================================================== *)
(** * Stable sorts keep ties in enumeration order *)
(* ===================================================================== *)

Lemma ltb_not_eqb x y : ltb x y = true -> eqb x y = false.
Proof.
  destruct x as [| | |a], y as [| | |b]; try done. simpl.
  destruct (Qcompare_spec a b) as [E|E|E]; try done. intros _.
  destruct (Qeq_bool a b) eqn:Eab; [|done].
  apply Qeq_bool_iff in Eab. lra.
Qed.

Lemma eqb_sym x y : eqb x y = eqb y x.
Proof.
  destruct x as [| | |a], y as [| | |b]; try done. simpl.
  destruct (Qeq_bool a b) eqn:E1, (Qeq_bool b a) eqn:E2; try done.
  - apply Qeq_bool_iff in E1. apply Qeq_bool_neq in E2. by destruct E2.
  - apply Qeq_bool_iff in E2. apply Qeq_bool_neq in E1. by destruct E1.
Qed.

Lemma ltb_nlt_trans x y z :
  notnan z = true -> ltb x y = true -> ltb z y = false -> ltb x z = true.
Proof.
  destruct x as [| | |a], y as [| | |b], z as [| | |c]; try done. simpl.
  destruct (Qcompare_spec a b), (Qcompare_spec c b), (Qcompare_spec a c);
    try done; intros; lra.
Qed.

Section StableInsertion.

Variable keys : list float.
Hypothesis keys_notnan : Forall (fun x => notnan x = true) keys.

Lemma key_at_notnan (i : nat) :
  (i < length keys)%nat -> notnan (key_at keys i) = true.
Proof.
  intros Hi. destruct (lookup_lt_is_Some_2 keys i Hi) as [x Hx].
  rewrite (key_at_lookup _ _ _ Hx).
  rewrite Forall_forall in keys_notnan. apply keys_notnan.
  by eapply list_elem_of_lookup_2.
Qed.

(** Inserting a position larger than all those present keeps the order. *)
Lemma insert_index_stable (m : nat) (acc : list nat) :
  StronglySorted (key_then_position keys) acc ->
  Forall (fun e => (e < m)%nat) acc ->
  Forall (fun e => (e < length keys)%nat) acc ->
  StronglySorted (key_then_position keys) (insert_index ltb keys m acc).
Proof.
  induction 1 as [|j rest Hrest IH Hj]; intros Hlt Hrange; simpl.
  - by repeat constructor.
  - inversion Hlt as [|? ? Hjm Hlt']; subst.
    inversion Hrange as [|? ? Hjr Hrange']; subst.
    destruct (ltb (key_at keys m) (key_at keys j)) eqn:E.
    + constructor; [by constructor|]. constructor.
      * split; [by apply ltb_asym|]. intros Heq.
        by rewrite (ltb_not_eqb _ _ E) in Heq.
      * rewrite Forall_forall in Hj, Hrange'. apply Forall_forall.
        intros e He. destruct (Hj e He) as [Hje _].
        assert (Hme : ltb (key_at keys m) (key_at keys e) = true).
        { apply (ltb_nlt_trans _ (key_at keys j)); [|done|done].
          apply key_at_notnan. by apply Hrange'. }
        split; [by apply ltb_asym|]. intros Heq.
        by rewrite (ltb_not_eqb _ _ Hme) in Heq.
    + constructor; [by apply IH|].
      rewrite insert_index_perm. constructor; [|done].
      split; [done | intros _; lia].
Qed.

Lemma insertion_fold_stable (n a : nat) (acc : list nat) :
  StronglySorted (key_then_position keys) acc ->
  Forall (fun e => (e < a)%nat) acc ->
  (a + n <= length keys)%nat ->
  StronglySorted (key_then_position keys)
    (fold_left (fun acc i => insert_index ltb keys i acc) (seq a n) acc).
Proof.
  revert a acc. induction n as [|n IH]; intros a acc Hacc Hlt Hlen; [done|].
  simpl. apply IH; [| |lia].
  - apply insert_index_stable; [done | done |].
    eapply Forall_impl; [exact Hlt|]. simpl. lia.
  - rewrite insert_index_perm. constructor; [lia|].
    eapply Forall_impl; [exact Hlt|]. simpl. lia.
Qed.

End StableInsertion.

Lemma argsort_stable_is_stable : stable_argsort argsort_stable.
Proof.
  intros keys Hnn. simpl. unfold insertion_argsort.
  apply insertion_fold_stable; [done | constructor | constructor | lia].
Qed.

(** In a strongly sorted list, of two distinct members the one that may
    not come first comes second. *)
Lemma StronglySorted_second {A} (R : relation A) (l : list A) (x y : A) :
  StronglySorted R l -> x ∈ l -> y ∈ l -> x <> y -> ~ R x y ->
  exists l1 l2 l3, l = l1 ++ y :: l2 ++ x :: l3.
Proof.
  intros Hl Hx Hy Hne Hn.
  apply list_elem_of_split in Hx as (l1 & l2 & ->).
  apply elem_of_app in Hy as [Hy | Hy].
  - apply list_elem_of_split in Hy as (m1 & m2 & ->).
    exists m1, m2, l2. by rewrite <- app_assoc.
  - apply elem_of_cons in Hy as [-> | Hy]; [done|].
    apply StronglySorted_app_1_r in Hl. inversion Hl as [|? ? _ Hall]; subst.
    rewrite Forall_forall in Hall. destruct Hn. by apply Hall.
Qed.

Lemma StronglySorted_lt_seq (a n : nat) : StronglySorted lt (seq a n).
Proof.
  revert a. induction n as [|n IH]; intros a; [constructor|].
  simpl. constructor; [apply IH|]. apply Forall_forall. intros e He.
  apply elem_of_seq in He. lia.
Qed.

Lemma StronglySorted_filter {A} (R : relation A) (f : A -> bool) (l : list A) :
  StronglySorted R l -> StronglySorted R (List.filter f l).
Proof.
  induction 1 as [|x l Hl IH Hx]; [constructor|]. simpl.
  destruct (f x); [|done]. constructor; [done|].
  apply Forall_forall. intros y Hy. apply list_elem_of_In, filter_In in Hy as [Hy _].
  rewrite Forall_forall in Hx. by apply Hx, list_elem_of_In.
Qed.

Lemma sort_values_stable (kind : Argsort) (rows out : list Row) :
  stable_argsort kind ->
  sort_values_WinRate_desc kind rows = Ok out ->
  ties_keep_enumeration_order rows out.
Proof.
  intros Hstable H i j ri rj Hij Hri Hrj Heq.
  rewrite (sort_values_inv _ _ _ H). clear H. unfold nargsort_desc.
  set (idx := seq 0 (length (map sort_key rows))).
  set (nn := List.filter (fun i => notnan (key_at (map sort_key rows) i)) idx).
  set (nan_idx := List.filter (fun i => isnan (key_at (map sort_key rows) i)) idx).
  set (nnr := reverse (map (key_at (map sort_key rows)) nn)).
  assert (Hnnr : nnr = map (key_at (map sort_key rows)) (reverse nn))
    by (symmetry; apply fmap_reverse).
  assert (Hfree : Forall (fun x => notnan x = true) nnr).
  { rewrite Hnnr. apply Forall_fmap, Forall_forall. intros e He. simpl.
    rewrite elem_of_reverse in He. apply list_elem_of_In, filter_In in He. tauto. }
  (* both rows have a number as key, and sit in [nn] *)
  pose proof (sort_key_lookup rows i ri Hri) as Hki.
  pose proof (sort_key_lookup rows j rj Hrj) as Hkj.
  assert (Hin : forall e r, rows !! e = Some r -> notnan (sort_key r) = true ->
                            e ∈ reverse nn).
  { intros e r He Hr. rewrite elem_of_reverse. apply list_elem_of_In, filter_In.
    split.
    - apply list_elem_of_In, elem_of_seq. rewrite length_map.
      apply lookup_lt_Some in He. lia.
    - by rewrite (sort_key_lookup rows e r He). }
  assert (Hni : notnan (sort_key ri) = true) by (by destruct (sort_key ri)).
  assert (Hnj : notnan (sort_key rj) = true)
    by (by destruct (sort_key ri), (sort_key rj)).
  apply (Hin i ri Hri), list_elem_of_lookup in Hni as [a Ha].
  apply (Hin j rj Hrj), list_elem_of_lookup in Hnj as [b Hb].
  (* [reverse nn] is decreasing, so [j] sits before [i] in it *)
  assert (Hdec : StronglySorted (flip lt) (reverse nn)).
  { apply StronglySorted_reverse, StronglySorted_filter, StronglySorted_lt_seq. }
  assert (Hba : (b < a)%nat).
  { destruct (Nat.lt_trichotomy a b) as [Hab | [Hab | Hab]]; [| |done].
    - pose proof (StronglySorted_lookup_lt _ _ a b i j Hdec Hab Ha Hb) as Hc.
      unfold flip in Hc. lia.
    - subst b. rewrite Ha in Hb. injection Hb as ->. lia. }
  assert (Hka : key_at nnr a = sort_key ri).
  { rewrite <- Hki. apply key_at_lookup. by rewrite Hnnr, list_lookup_fmap, Ha. }
  assert (Hkb : key_at nnr b = sort_key rj).
  { rewrite <- Hkj. apply key_at_lookup. by rewrite Hnnr, list_lookup_fmap, Hb. }
  assert (Hlen : length nnr = length (reverse nn))
    by (by rewrite Hnnr, length_map).
  (* the stable sort of the reversed keys puts [b] before [a] *)
  destruct (StronglySorted_second (key_then_position nnr) (kind nnr) a b)
    as (l1 & l2 & l3 & Ho).
  { by apply Hstable. }
  { rewrite (argsort_perm kind). apply elem_of_seq.
    apply lookup_lt_Some in Ha. lia. }
  { rewrite (argsort_perm kind). apply elem_of_seq.
    apply lookup_lt_Some in Hb. lia. }
  { lia. }
  { intros [_ Hc]. rewrite Hka, Hkb in Hc. specialize (Hc Heq). lia. }
  rewrite Ho.
  set (g := fun k : nat => nth k (reverse nn) 0%nat).
  set (f := fun e : nat => rows !! e).
  assert (Hrev : reverse (map g (l1 ++ b :: l2 ++ a :: l3))
                 = reverse (map g l3) ++ [i] ++ reverse (map g l2)
                   ++ [j] ++ reverse (map g l1)).
  { rewrite map_app, reverse_app. simpl map. rewrite reverse_cons.
    rewrite map_app, reverse_app. simpl map. rewrite reverse_cons.
    unfold g at 2 4.
    rewrite (nth_lookup_Some _ _ _ _ Ha), (nth_lookup_Some _ _ _ _ Hb).
    by rewrite <- !app_assoc. }
  rewrite Hrev, <- !app_assoc, !omap_app.
  assert (Hfi : omap f [i] = [ri]) by (unfold f; csimpl; by rewrite Hri).
  assert (Hfj : omap f [j] = [rj]) by (unfold f; csimpl; by rewrite Hrj).
  rewrite Hfi, Hfj. cbn [app].
  exists (length (omap f (reverse (map g l3)))),
         (length (omap f (reverse (map g l3)))
          + S (length (omap f (reverse (map g l2)))))%nat.
  split; [lia|]. split.
  - by rewrite list_lookup_middle.
  - rewrite lookup_app_r by lia.
    replace (_ + S _ - _)%nat
      with (S (length (omap f (reverse (map g l2))))) by lia.
    simpl. by rewrite list_lookup_middle.
Qed.

(* ===================================================================== *)
(** * The ranking *)
(* ===================================================================== *)

(** C4. Whatever the sort algorithm behind [sort_values], the
    optimizer's output holds the rows of the sweep in descending order of
    WinRate: no row has a smaller WinRate than a row after it.  Rows with
    the same WinRate keep their enumeration order when that algorithm is
    stable, which the default [kind] does not promise. *)
Theorem C4_ranking_descending_by_win_rate :
  forall (kind : Argsort) engine windows stop_losses take_profits best_configs,
    optimize kind engine windows stop_losses take_profits = Ok best_configs ->
    (exists results_log,
        sweep engine windows stop_losses take_profits = Ok results_log /\
        best_configs ≡ₚ results_log /\
        (stable_argsort kind ->
         ties_keep_enumeration_order results_log best_configs)) /\
    descending_WinRate best_configs /\
    (forall (p q : nat) (r1 r2 : Row),
        (p < q)%nat ->
        best_configs !! p = Some r1 -> best_configs !! q = Some r2 ->
        ltb (sort_key r1) (sort_key r2) = false).
Proof.
  intros kind engine ws sls tps best Hbest. unfold optimize in Hbest.
  destruct (sweep engine ws sls tps) as [log|e] eqn:Hlog; [|done].
  simpl in Hbest.
  pose proof (sort_values_descending _ _ _ Hbest) as Hdesc.
  split; [|split; [done|]].
  - exists log. split; [done|]. split; [by apply sort_values_perm in Hbest|].
    intros Hstable. by apply (sort_values_stable kind).
  - intros p q r1 r2 Hpq H1 H2.
    by apply (StronglySorted_lookup_lt _ best p q r1 r2 Hdesc).
Qed.

(* ===================================================================== *)
(** * The theorems at the examples *)
(* ===================================================================== *)

Lemma C1_witness :
  data example_engine = Some example_bars /\
  lookback_window example_config = Z.of_nat 2 /\
  (1 <= 2)%nat /\ Z.of_nat 2 < 2 ^ 63 /\
  exists out,
    run_strategy example_engine example_config = Ok out /\
    forall i : nat, (i < length example_bars)%nat ->
      ((i < 2)%nat ->
         box_high out !! i = Some NaN /\ box_low out !! i = Some NaN /\
         signal out !! i = Some 0) /\
      ((2 <= i)%nat -> finite_prices example_bars ->
         exists hi lo,
           box_high out !! i = Some hi /\ box_low out !! i = Some lo /\
           window_max (map high example_bars) i 2 hi /\
           window_min (map low example_bars) i 2 lo).
Proof.
  split; [reflexivity|]. split; [reflexivity|]. split; [lia|].
  split; [reflexivity|].
  apply (C1_box_is_trailing_window_extremum
           example_engine example_config example_bars 2);
    [reflexivity | reflexivity | lia | reflexivity].
Defined.

(** C1 asks for highs and lows that are numbers: a high of -inf is no
    observation of a window, so the box after it is NaN and the bar gives
    no signal. *)
Example infinite_high_is_no_observation :
  exists out,
    run_strategy (generate_dummy_data QuantEngine_init infinite_high_bars)
                 degenerate_config = Ok out /\
    box_high out = [NaN; Fin 4; NaN; Fin 4] /\
    signal out = [0; 0; 0; 1].
Proof. eexists. split; [vm_compute; reflexivity|]. split; reflexivity. Qed.

(** C1 and C5 at the largest windows: 2^63 - 1 would still be validated,
    2^63 raises on a series with a row and not on a series without. *)
Example window_beyond_64_bits :
  run_strategy example_engine (window_config (2 ^ 63)) = Raise OverflowError /\
  (exists out, run_strategy empty_engine (window_config (2 ^ 63)) = Ok out) /\
  run_strategy example_engine (window_config (-1))
    = Raise (ValueError "window must be an integer 0 or greater").
Proof.
  split; [vm_compute; reflexivity|]. split; [|vm_compute; reflexivity].
  eexists. vm_compute. reflexivity.
Qed.

Lemma C2_witness :
  exists out,
    run_strategy degenerate_engine degenerate_config = Ok out /\
    map close (rf_data out) !! 1%nat = Some (Fin 5) /\
    box_high out !! 1%nat = Some (Fin 1) /\
    box_low out !! 1%nat = Some (Fin 10) /\
    gtb (Fin 5) (Fin 1) = true /\ ltb (Fin 5) (Fin 10) = true /\
    (signal out !! 1%nat
       = Some (if ltb (Fin 5) (Fin 10) then -1
               else if gtb (Fin 5) (Fin 1) then 1 else 0)
     /\ (gtb (Fin 5) (Fin 1) = true -> ltb (Fin 5) (Fin 10) = true ->
         signal out !! 1%nat = Some (-1))).
Proof.
  eexists. split; [vm_compute; reflexivity|].
  split; [reflexivity|]. split; [reflexivity|]. split; [reflexivity|].
  split; [reflexivity|]. split; [reflexivity|].
  apply (C2_signal_rule_short_precedence degenerate_engine degenerate_config);
    [vm_compute; reflexivity | reflexivity | reflexivity | reflexivity].
Defined.

Lemma C3_witness :
  exists out,
    run_strategy example_engine example_config = Ok out /\
    let closes := map close (rf_data out) in
    let r0 := lagged_return (signal out) (pct_change_col out) in
    strategy_return out = apply_fees example_config (risk_cap example_config r0) /\
    (forall (i : nat) (s : Z) (c p : float),
        signal out !! i = Some s ->
        closes !! i = Some p -> closes !! S i = Some c ->
        notnan p = true -> notnan c = true ->
        r0 !! S i = Some (mul (of_Z s) (sub (div c p) one))) /\
    (forall (i : nat) (s : Z) (c p : float),
        signal out !! i = Some s ->
        ffill closes !! i = Some p -> ffill closes !! S i = Some c ->
        r0 !! S i = Some (mul (of_Z s) (sub (div c p) one))) /\
    (rf_data out <> [] ->
       r0 !! O = Some NaN /\ strategy_return out !! O = Some NaN /\
       eqb NaN zero = false).
Proof.
  eexists. split; [vm_compute; reflexivity|].
  apply (C3_lagged_return_and_bar0 example_engine example_config).
  vm_compute; reflexivity.
Defined.

(** The raw return after a close that is NaN: the close of 8 is read in
    its place, which gives 0 at the NaN and 16/8 - 1 = 1 after it. *)
Example pct_change_reads_last_close :
  Forall2 (fun x y => (x = NaN /\ y = NaN) \/ eqb x y = true)
          (pct_change [Fin 4; Fin 8; NaN; Fin 16; Fin 32])
          [NaN; Fin 1; Fin 0; Fin 1; Fin 1].
Proof.
  repeat (constructor; [first [by left | by right]|]). constructor.
Qed.

(** C3 at the example: the code returns NaN at bar 0, where the
    specification has 0. *)
Lemma C3_bar0_is_nan_at_example :
  exists out,
    run_strategy example_engine example_config = Ok out /\
    strategy_return out !! O = Some NaN /\
    strategy_return out !! O <> Some zero /\
    calculate_metrics out !! "total_trades" = Some (PInt 2).
Proof.
  eexists. split; [vm_compute; reflexivity|].
  split; [reflexivity|]. split; [discriminate|]. vm_compute. reflexivity.
Qed.

(** numpy's quicksort on small inputs.  Up to 17 keys are insertion
    sorted, which keeps equal keys in order; from 18 keys on the partition
    moves equal keys past each other. *)
Example aquicksort_sorts :
  Numpy.aquicksort (map of_Z [7; 3; 9; 1; 4; 8; 2; 6; 5; 0; 11; 15; 13; 12;
                              14; 10; 19; 17; 16; 18])
  = [9; 3; 6; 1; 4; 8; 7; 0; 5; 2; 15; 10; 13; 12; 14; 11; 18; 17; 19; 16]%nat.
Proof. vm_compute. reflexivity. Qed.

Example aquicksort_17_equal_keys :
  Numpy.aquicksort (replicate 17 (Fin 0)) = seq 0 17.
Proof. vm_compute. reflexivity. Qed.

Example aquicksort_18_equal_keys :
  Numpy.aquicksort (replicate 18 (Fin 0))
  = [0; 15; 14; 13; 12; 11; 10; 9; 8; 7; 6; 5; 4; 3; 2; 1; 16; 17]%nat.
Proof. vm_compute. reflexivity. Qed.

(** The positions [p] at which a lookup [Hp] in a list of distinct rows
    can hold: the other positions are discarded. *)
Ltac locate_row p Hp :=
  first [ discriminate Hp
        | destruct p as [|p];
          [try discriminate Hp | simpl in Hp; locate_row p Hp] ].

(** Against the second half of C4: on the six example bars the 36
    configurations of [main] all have the same WinRate, and numpy's
    quicksort returns them in an order that is not their enumeration
    order (the configuration enumerated third comes out after the one
    enumerated fourth). *)
Lemma C4_counterexample_ties_not_in_enumeration_order :
  exists results_log best_configs,
    sweep example_engine main_lookback_windows main_stop_losses
          main_take_profits = Ok results_log /\
    main Numpy.aquicksort example_bars = Ok best_configs /\
    length best_configs = 36%nat /\
    Forall (fun row => eqb (sort_key row) zero = true) results_log /\
    descending_WinRate best_configs /\
    ~ ties_keep_enumeration_order results_log best_configs.
Proof.
  eexists. eexists. split; [vm_compute; reflexivity|].
  split; [vm_compute; reflexivity|]. split; [reflexivity|].
  split; [repeat constructor|]. split.
  - repeat (constructor; [repeat constructor|]). constructor.
  - intros H.
    edestruct (H 2%nat 3%nat) as (p & q & Hpq & Hp & Hq);
      [lia | reflexivity | reflexivity | reflexivity |].
    locate_row p Hp. locate_row q Hq. lia.
Qed.

Lemma C4_witness :
  exists best_configs,
    optimize argsort_stable rising_engine
             rising_windows rising_stop_losses rising_take_profits
      = Ok best_configs /\
    map sort_key best_configs
      = [Fin (8333 # 100); Fin (8333 # 100); Fin (8000 # 100);
         Fin (8000 # 100); Fin (7500 # 100); Fin (7500 # 100)] /\
    (exists results_log,
        sweep rising_engine rising_windows rising_stop_losses
              rising_take_profits = Ok results_log /\
        best_configs ≡ₚ results_log /\
        (stable_argsort argsort_stable ->
         ties_keep_enumeration_order results_log best_configs)) /\
    descending_WinRate best_configs /\
    (forall (p q : nat) (r1 r2 : Row),
        (p < q)%nat ->
        best_configs !! p = Some r1 -> best_configs !! q = Some r2 ->
        ltb (sort_key r1) (sort_key r2) = false).
Proof.
  eexists. split; [vm_compute; reflexivity|].
  split; [vm_compute; reflexivity|].
  apply (C4_ranking_descending_by_win_rate argsort_stable rising_engine
           rising_windows rising_stop_losses rising_take_profits).
  vm_compute; reflexivity.
Defined.

(** Against C5 as the specification has it: with data loaded, an empty
    series, a lookback window of 0, a negative fee and negative stop-loss
    and profit-target fractions are all accepted, and the pipeline returns
    numbers. *)
Lemma C5_counterexample_invalid_inputs_accepted :
  (precondition_violated [] example_config /\
   ~ fails_fast empty_engine example_config /\
   exists out, run_strategy empty_engine example_config = Ok out /\
               calculate_metrics out !! "total_trades" = Some (PInt 0)) /\
  (precondition_violated example_bars zero_window_config /\
   ~ fails_fast example_engine zero_window_config /\
   exists out, run_strategy example_engine zero_window_config = Ok out /\
               calculate_metrics out !! "total_trades" = Some (PInt 1)) /\
  (precondition_violated example_bars negative_fee_config /\
   ~ fails_fast example_engine negative_fee_config /\
   exists out, run_strategy example_engine negative_fee_config = Ok out /\
               strategy_return out !! 3%nat = Some (Fin (-1 # 9900)) /\
               calculate_metrics out !! "total_trades" = Some (PInt 2)) /\
  (precondition_violated example_bars negative_stop_config /\
   ~ fails_fast example_engine negative_stop_config /\
   exists out, run_strategy example_engine negative_stop_config = Ok out /\
               strategy_return out !! 1%nat = Some (Fin (-1 # 2)) /\
               calculate_metrics out !! "total_trades" = Some (PInt 6)).
Proof.
  repeat split;
    try (by left); try (right; left; reflexivity);
    try (right; right; left; reflexivity);
    try (right; right; right; left; reflexivity);
    try (intros [e He]; vm_compute in He; discriminate He).
  - eexists. split; [vm_compute; reflexivity|]. vm_compute. reflexivity.
  - eexists. split; [vm_compute; reflexivity|]. vm_compute. reflexivity.
  - eexists. split; [vm_compute; reflexivity|]. split; vm_compute; reflexivity.
  - eexists. split; [vm_compute; reflexivity|]. split; vm_compute; reflexivity.
Qed.


(** Why C6 asks for a number in the series: on a single bar the only
    return is NaN, the bar counts as a trade, and the drawdown is NaN. *)
Example single_bar_drawdown_is_nan :
  exists out,
    run_strategy (generate_dummy_data QuantEngine_init [bar 100 100 100])
                 example_config = Ok out /\
    strategy_return out = [NaN] /\
    calculate_metrics out !! "total_trades" = Some (PInt 1) /\
    calculate_metrics out !! "max_drawdown_pct" = Some (PFloat NaN) /\
    leb NaN zero = false.
Proof.
  eexists. split; [vm_compute; reflexivity|].
  split; [reflexivity|]. split; [vm_compute; reflexivity|].
  split; [vm_compute; reflexivity|]. reflexivity.
Qed.

(** C6 on a curve that only rises: it never falls below its peak and the
    drawdown is 0. *)
Example rising_curve_has_no_drawdown :
  exists out,
    run_strategy rising_engine degenerate_config = Ok out /\
    never_below_peak (strategy_return out) /\
    calculate_metrics out !! "max_drawdown_pct" = Some (PFloat (Fin (0 # 100))).
Proof.
  eexists. split; [vm_compute; reflexivity|]. split.
  - intros i c p Hc Hp.
    do 7 (destruct i as [|i];
          [vm_compute in Hc, Hp; injection Hc as <-; injection Hp as <-;
           reflexivity|]).
    vm_compute in Hc. discriminate Hc.
  - vm_compute. reflexivity.
Qed.


Lemma C7_witness :
  trades_of (strategy_return flat_frame) = [] /\
  let metrics := calculate_metrics flat_frame in
  metrics = {[ "total_trades" := PInt 0; "win_rate" := PInt 0;
               "expectancy" := PInt 0 ]} /\
  metrics !! "total_trades" = Some (PInt 0) /\
  metrics !! "win_rate" = Some (PInt 0) /\
  metrics !! "expectancy" = Some (PInt 0) /\
  metrics !! "max_drawdown_pct" = None /\
  metrics !! "net_profit_pct" = None /\
  size metrics = 3%nat.
Proof.
  split; [reflexivity|].
  apply (C7_no_trades_record flat_frame). reflexivity.
Defined.

(** Against C8 as the specification has it: with an empty list of stop
    losses the product has no element, and the optimizer has no output of
    0 rows: building the ranking raises.  A frame without a bar and a
    negative window leave no output either. *)
Lemma C8_counterexample_no_output :
  (product3 [2; 1] (@nil float) [Fin (1 # 2)] = [] /\
   optimize argsort_stable example_engine [2; 1] [] [Fin (1 # 2)]
     = Raise (KeyError "WinRate") /\
   ~ exists best_configs,
       optimize argsort_stable example_engine [2; 1] [] [Fin (1 # 2)]
         = Ok best_configs /\
       length best_configs = (2 * 0 * 1)%nat) /\
  optimize argsort_stable empty_engine [2; 1] [Fin (1 # 2)] [Fin (1 # 2)]
    = Raise (KeyError "max_drawdown_pct") /\
  optimize argsort_stable example_engine [2; -1] [Fin (1 # 2)] [Fin (1 # 2)]
    = Raise (ValueError "window must be an integer 0 or greater").
Proof.
  split; [|split; vm_compute; reflexivity].
  split; [reflexivity|]. split; [vm_compute; reflexivity|].
  intros (best & H & _). vm_compute in H. discriminate H.
Qed.

Lemma C8_witness :
  data rising_engine = Some rising_bars /\ rising_bars <> [] /\
  Forall (fun w => 0 <= w < 2 ^ 63) rising_windows /\
  rising_windows <> [] /\ rising_stop_losses <> [] /\
  rising_take_profits <> [] /\
  (exists results_log,
      sweep rising_engine rising_windows rising_stop_losses
            rising_take_profits = Ok results_log /\
      map params results_log
        = product3 rising_windows rising_stop_losses rising_take_profits) /\
  exists best_configs,
    optimize argsort_stable rising_engine
             rising_windows rising_stop_losses rising_take_profits
      = Ok best_configs /\
    length best_configs
      = (length rising_windows * length rising_stop_losses
         * length rising_take_profits)%nat /\
    map params best_configs
      ≡ₚ product3 rising_windows rising_stop_losses rising_take_profits /\
    (forall w sl tp,
        (w, sl, tp) ∈ map params best_configs
        <-> w ∈ rising_windows /\ sl ∈ rising_stop_losses
            /\ tp ∈ rising_take_profits) /\
    (NoDup rising_windows -> NoDup rising_stop_losses ->
     NoDup rising_take_profits -> NoDup (map params best_configs)).
Proof.
  split; [reflexivity|]. split; [discriminate|].
  assert (Hw : Forall (fun w => 0 <= w < 2 ^ 63) rising_windows)
    by (repeat constructor; lia).
  split; [exact Hw|].
  split; [discriminate|]. split; [discriminate|]. split; [discriminate|].
  destruct (C8_optimizer_covers_cartesian_product argsort_stable
              rising_engine rising_bars
              rising_windows rising_stop_losses rising_take_profits)
    as (Hlog & Hbest & _); [reflexivity | discriminate | exact Hw |].
  split; [exact Hlog|].
  apply Hbest; discriminate.
Defined.

Lemma C10_witness :
  data rising_engine = Some rising_bars /\ rising_bars <> [] /\
  exists out,
    run_strategy rising_engine degenerate_config = Ok out /\
    exists later : list float,
      strategy_return out = NaN :: later /\
      neb NaN zero = true /\ gtb NaN zero = false /\
      trades_of (strategy_return out) = NaN :: trades_of later /\
      winning_trades_of (strategy_return out) = winning_trades_of later /\
      (exists n : Z,
          calculate_metrics out !! "total_trades" = Some (PInt n) /\
          n = 1 + Z.of_nat (length (trades_of later)) /\ 1 <= n) /\
      calculate_metrics out !! "win_rate"
        = Some (PFloat
            (round (mul (div (of_nat (length (winning_trades_of later)))
                             (of_nat (S (length (trades_of later)))))
                        (of_Z 100)) 2)) /\
      calculate_metrics out <> degenerate_metrics.
Proof.
  split; [reflexivity|]. split; [discriminate|].
  destruct (C10_bar0_counts_as_trade rising_engine degenerate_config
              rising_bars) as [Hret Hall]; [reflexivity | discriminate |].
  destruct Hret as [out Hout]; [vm_compute; split; [discriminate | reflexivity]|].
  exists out. split; [exact Hout|]. by apply Hall.
Defined.

(** C10 at the rising bars with a window of 1: five winning trades among
    six trades, bar 0 being the sixth. *)
Example bar0_is_a_trade_and_no_win :
  exists out,
    run_strategy rising_engine degenerate_config = Ok out /\
    length (trades_of (strategy_return out)) = 6%nat /\
    length (winning_trades_of (strategy_return out)) = 5%nat /\
    calculate_metrics out !! "total_trades" = Some (PInt 6) /\
    calculate_metrics out !! "win_rate" = Some (PFloat (Fin (8333 # 100))).
Proof.
  eexists. split; [vm_compute; reflexivity|].
  split; [reflexivity|]. split; [reflexivity|].
  split; vm_compute; reflexivity.
Qed.

(* ===================================================================== *)
(** * run_strategy: shape of the returned frame *)
(* ===================================================================== *)

Lemma box_length op (w : nat) (s : list float) :
  length (shift1 NaN (rolling op w s)) = length s.
Proof. by rewrite shift1_length, rolling_length. Qed.

Lemma run_strategy_box_lengths self config out :
  run_strategy self config = Ok out ->
  length (box_high out) = length (rf_data out) /\
  length (box_low out) = length (rf_data out).
Proof.
  intros Hout.
  destruct (run_strategy_inv _ _ _ Hout)
    as (df & w & Hd & _ & Hdf & Hbh & Hbl & _).
  rewrite Hbh, Hbl, Hdf. unfold rolling_max, rolling_min.
  by rewrite !box_length, !length_map.
Qed.

(** Every column [run_strategy] adds has one value per bar of the data it
    was given. *)
Theorem run_strategy_columns_aligned :
  forall self config out,
    run_strategy self config = Ok out ->
    data self = Some (rf_data out) /\
    length (box_high out) = length (rf_data out) /\
    length (box_low out) = length (rf_data out) /\
    length (signal out) = length (rf_data out) /\
    length (pct_change_col out) = length (rf_data out) /\
    length (strategy_return out) = length (rf_data out).
Proof.
  intros self config out Hout.
  destruct (run_strategy_lengths _ _ _ Hout) as (Hs & Hp & Hr).
  destruct (run_strategy_box_lengths _ _ _ Hout) as (Hh & Hl).
  destruct (run_strategy_inv _ _ _ Hout) as (df & w & Hd & _ & Hdf & _).
  rewrite Hdf. split; [done|]. by rewrite <- Hdf.
Qed.

(** The signal column only holds -1, 0 and 1. *)
Theorem signal_values :
  forall self config out,
    run_strategy self config = Ok out ->
    Forall (fun s => s = -1 \/ s = 0 \/ s = 1) (signal out).
Proof.
  intros self config out Hout.
  destruct (run_strategy_lengths _ _ _ Hout) as (Ls & _).
  destruct (run_strategy_box_lengths _ _ _ Hout) as (Lh & Ll).
  destruct (run_strategy_inv _ _ _ Hout)
    as (df & w & _ & _ & Hdf & _ & _ & Hsig & _).
  apply Forall_lookup. intros i s Hi.
  assert (Hlt : (i < length df)%nat).
  { apply lookup_lt_Some in Hi. rewrite Ls, Hdf in Hi. done. }
  destruct (lookup_lt_is_Some_2 (map close df) i) as [c Hc];
    [by rewrite length_map|].
  destruct (lookup_lt_is_Some_2 (box_high out) i) as [h Hh];
    [by rewrite Lh, Hdf|].
  destruct (lookup_lt_is_Some_2 (box_low out) i) as [l Hl];
    [by rewrite Ll, Hdf|].
  rewrite Hsig, (signal_lookup _ _ _ i c h l Hc Hh Hl) in Hi.
  injection Hi as <-.
  destruct (ltb c l); [by left|]. destruct (gtb c h); auto.
Qed.

(* ===================================================================== *)
(** * run_strategy: no lookahead *)
(* ===================================================================== *)

Section Prefixes.

Context {A : Type}.

Lemma take_shift1 (na : A) (s : list A) (n : nat) :
  take n (shift1 na s) = shift1 na (take n s).
Proof.
  unfold shift1. rewrite take_take, length_take.
  destruct (Nat.min n (length s)) as [|m] eqn:E; [done|].
  simpl. f_equal. rewrite take_take. f_equal. lia.
Qed.

Lemma take_np_where (cond : list bool) (x y : list A) (n : nat) :
  take n (np_where cond x y)
  = np_where (take n cond) (take n x) (take n y).
Proof. unfold np_where. by rewrite !zip_with_take. Qed.

End Prefixes.

Lemma window_at_take (w : nat) (s : list float) (n i : nat) :
  (i < n)%nat -> window_at w (take n s) i = window_at w s i.
Proof.
  intros Hi. unfold window_at. rewrite take_take. do 2 f_equal. lia.
Qed.

Lemma take_rolling op (w : nat) (s : list float) (n : nat) :
  take n (rolling op w s) = rolling op w (take n s).
Proof.
  unfold rolling. rewrite <- fmap_take, take_seq, length_take.
  apply list_fmap_ext. intros j i Hi.
  apply lookup_seq in Hi as [-> Hlt]. simpl.
  unfold prep_values. rewrite fmap_take, window_at_take by lia. done.
Qed.

Lemma take_pct_change (s : list float) (n : nat) :
  take n (pct_change s) = pct_change (take n s).
Proof.
  unfold pct_change, ffill.
  by rewrite zip_with_take, take_shift1, take_ffill_from.
Qed.

Lemma take_signal (closes bh bl : list float) (n : nat) :
  take n (short_signal closes bl (long_signal closes bh))
  = short_signal (take n closes) (take n bl)
      (long_signal (take n closes) (take n bh)).
Proof.
  unfold short_signal, long_signal, broadcast.
  rewrite !take_np_where, !zip_with_take, !take_replicate, !length_take.
  done.
Qed.

Lemma take_lagged_return (sig : list Z) (pct : list float) (n : nat) :
  take n (lagged_return sig pct) = lagged_return (take n sig) (take n pct).
Proof.
  unfold lagged_return. by rewrite zip_with_take, take_shift1, fmap_take.
Qed.

(** Running the strategy on the first [n] bars gives the first [n] rows of
    the run on all bars: no value of a row depends on a later bar. *)
Theorem run_strategy_prefix :
  forall self config out (n : nat),
    run_strategy self config = Ok out ->
    exists out',
      run_strategy (generate_dummy_data self (take n (rf_data out))) config
        = Ok out' /\
      rf_data out' = take n (rf_data out) /\
      box_high out' = take n (box_high out) /\
      box_low out' = take n (box_low out) /\
      signal out' = take n (signal out) /\
      pct_change_col out' = take n (pct_change_col out) /\
      strategy_return out' = take n (strategy_return out).
Proof.
  intros self config out n Hout.
  destruct (run_strategy_inv _ _ _ Hout)
    as (df & w & Hd & Hw & Hdf & Hbh & Hbl & Hsig & Hpct & Hr).
  assert (Hret : exists out',
            run_strategy (generate_dummy_data self (take n df)) config
            = Ok out').
  { destruct (run_strategy_window _ _ _ Hout) as [Hw0 [Hb|Hb]].
    - by apply (run_strategy_total _ config (take n df)).
    - apply run_strategy_total_empty; [|done].
      rewrite Hdf in Hb. rewrite Hb. by destruct n. }
  destruct Hret as [out' Hout'].
  destruct (run_strategy_inv _ _ _ Hout')
    as (df' & w' & Hd' & Hw' & Hdf' & Hbh' & Hbl' & Hsig' & Hpct' & Hr').
  simpl in Hd'. injection Hd' as <-. assert (w' = w) by lia. subst w'.
  exists out'. rewrite Hdf. split; [done|]. split; [done|].
  assert (Eh : box_high out' = take n (box_high out)).
  { rewrite Hbh', Hbh, take_shift1. unfold rolling_max.
    by rewrite take_rolling, fmap_take. }
  assert (El : box_low out' = take n (box_low out)).
  { rewrite Hbl', Hbl, take_shift1. unfold rolling_min.
    by rewrite take_rolling, fmap_take. }
  assert (Es : signal out' = take n (signal out)).
  { rewrite Hsig', Hsig, take_signal, Eh, El. by rewrite fmap_take. }
  assert (Ep : pct_change_col out' = take n (pct_change_col out)).
  { by rewrite Hpct', Hpct, take_pct_change, fmap_take. }
  repeat split; try done.
  rewrite Hr', Hr, !apply_fees_map, !risk_cap_map, Es, Ep.
  by rewrite <- take_lagged_return, !fmap_take.
Qed.

(** The boxes and the signal of row [i] do not read the high and the low of
    row [i] or of any later row: two frames with the same closes, whose
    highs and lows agree on the rows before [i], agree there. *)
Theorem signal_ignores_own_high_low :
  forall self self' config out out' (i : nat),
    run_strategy self config = Ok out ->
    run_strategy self' config = Ok out' ->
    map close (rf_data out) = map close (rf_data out') ->
    take i (map high (rf_data out)) = take i (map high (rf_data out')) ->
    take i (map low (rf_data out)) = take i (map low (rf_data out')) ->
    box_high out !! i = box_high out' !! i /\
    box_low out !! i = box_low out' !! i /\
    signal out !! i = signal out' !! i.
Proof.
  intros self self' config out out' i Hout Hout' Hc Hh Hl.
  destruct (run_strategy_inv _ _ _ Hout)
    as (df & w & _ & Hw & Hdf & Hbh & Hbl & Hsig & _).
  destruct (run_strategy_inv _ _ _ Hout')
    as (df' & w' & _ & Hw' & Hdf' & Hbh' & Hbl' & Hsig' & _).
  assert (w' = w) by lia. subst w'. rewrite Hdf in *. rewrite Hdf' in *.
  assert (Hlen : length df = length df').
  { by rewrite <- (length_map close df), Hc, length_map. }
  assert (Ebox : forall op (s s' : list float),
            length s = length df -> length s' = length df ->
            take i s = take i s' ->
            shift1 NaN (rolling op w s) !! i
            = shift1 NaN (rolling op w s') !! i).
  { intros op s s' Ls Ls' E.
    destruct (decide (i < length df)%nat) as [Hi|Hi].
    - destruct i as [|j].
      + rewrite !shift1_lookup_0; [done | |]; rewrite rolling_length; lia.
      + rewrite !box_lookup_S by lia.
        rewrite <- (lookup_take_lt (rolling op w s) (S j) j) by lia.
        rewrite <- (lookup_take_lt (rolling op w s') (S j) j) by lia.
        by rewrite !take_rolling, E.
    - rewrite !lookup_ge_None_2; [done | |]; rewrite box_length; lia. }
  assert (Eh : box_high out !! i = box_high out' !! i).
  { rewrite Hbh, Hbh'. apply Ebox; by rewrite ?length_map. }
  assert (El : box_low out !! i = box_low out' !! i).
  { rewrite Hbl, Hbl'. apply Ebox; by rewrite ?length_map. }
  split; [done|]. split; [done|].
  rewrite Hsig, Hsig', <- Hc.
  unfold short_signal, long_signal, np_where, broadcast.
  rewrite !lookup_zip_with, Eh, El. done.
Qed.

(* ===================================================================== *)
(** * run_strategy: range of the returns *)
(* ===================================================================== *)

Lemma clamp_range config (sl tp : Q) (y : float) :
  stop_loss_pct config = Fin sl -> profit_target_pct config = Fin tp ->
  (- sl <= tp)%Q ->
  (y = NaN /\ clamp config y = NaN) \/
  exists q, clamp config y = Fin q /\ (- sl <= q <= tp)%Q.
Proof.
  intros Hsl Htp Hle. unfold clamp, gtb. rewrite Hsl, Htp.
  destruct y as [| | |a]; simpl; [by left | right ..].
  - exists tp. split; [done | lra].
  - destruct (Qcompare_spec tp (- sl));
      first [exfalso; lra | eexists; split; [reflexivity | lra]].
  - destruct (Qcompare_spec a (- sl)); simpl;
      [destruct (Qcompare_spec tp a) | destruct (Qcompare_spec tp (- sl))
       | destruct (Qcompare_spec tp a)];
      first [exfalso; lra | eexists; split; [reflexivity | lra]].
Qed.

Lemma charge_range config (fee q : Q) :
  fee_per_trade config = Fin fee ->
  (charge config (Fin q) = Fin q /\ (q == 0)%Q) \/
  (charge config (Fin q) = Fin (q + - fee) /\ ~ (q == 0)%Q).
Proof.
  intros Hfee. unfold charge, neb, zero. rewrite Hfee. simpl.
  destruct (Qeq_bool q 0) eqn:E; simpl.
  - left. split; [done|]. by apply Qeq_bool_iff.
  - right. split; [done|]. by apply Qeq_bool_neq.
Qed.

Lemma strategy_return_elem_range config (sl tp fee : Q) (y : float) :
  stop_loss_pct config = Fin sl -> profit_target_pct config = Fin tp ->
  fee_per_trade config = Fin fee ->
  (0 <= sl)%Q -> (0 <= tp)%Q -> (0 <= fee)%Q ->
  (y = NaN /\ charge config (clamp config y) = NaN) \/
  exists q, charge config (clamp config y) = Fin q /\
            (- (sl + fee) <= q <= tp)%Q.
Proof.
  intros Hsl Htp Hfee Psl Ptp Pfee.
  destruct (clamp_range config sl tp y Hsl Htp) as [[-> ->] | (q & -> & Hq)];
    [lra | by left |].
  right.
  destruct (charge_range config fee q Hfee) as [[-> _] | [-> _]];
    eexists; (split; [done | lra]).
Qed.

(** With a stop loss, a profit target and a fee that are numbers >= 0, no
    bar returns less than -(stop_loss + fee) or more than profit_target:
    every return is NaN or lies in that range. *)
Theorem strategy_return_range :
  forall self config out (sl tp fee : Q),
    stop_loss_pct config = Fin sl -> profit_target_pct config = Fin tp ->
    fee_per_trade config = Fin fee ->
    (0 <= sl)%Q -> (0 <= tp)%Q -> (0 <= fee)%Q ->
    run_strategy self config = Ok out ->
    Forall (fun x => x = NaN \/
                     exists q, x = Fin q /\ (- (sl + fee) <= q <= tp)%Q)
           (strategy_return out).
Proof.
  intros self config out sl tp fee Hsl Htp Hfee Psl Ptp Pfee Hout.
  destruct (run_strategy_inv _ _ _ Hout)
    as (df & w & _ & _ & _ & _ & _ & _ & _ & Hr).
  rewrite Hr, apply_fees_map, risk_cap_map.
  apply Forall_fmap, Forall_fmap, Forall_forall. intros y _. simpl.
  destruct (strategy_return_elem_range config sl tp fee y)
    as [[_ ->] | (q & -> & Hq)]; try done; [by left|].
  right. by exists q.
Qed.

(** The stop-loss clamp runs first and the profit-target clamp last: when
    the two bounds cross (profit_target < -stop_loss) every return that is
    not NaN comes out as profit_target. *)
Theorem risk_cap_crossed_bounds :
  forall config (sl tp : Q) (r : list float),
    stop_loss_pct config = Fin sl -> profit_target_pct config = Fin tp ->
    (tp < - sl)%Q ->
    risk_cap config r = map (fun y => if isnan y then NaN else Fin tp) r.
Proof.
  intros config sl tp r Hsl Htp Hlt. rewrite risk_cap_map.
  apply map_ext. intros y. unfold clamp, gtb. rewrite Hsl, Htp.
  destruct y as [| | |a]; simpl; try done.
  - by destruct (Qcompare_spec tp (- sl)); try lra.
  - destruct (Qcompare_spec a (- sl)); simpl.
    + destruct (Qcompare_spec tp a); try done; lra.
    + destruct (Qcompare_spec tp (- sl)); try done; lra.
    + destruct (Qcompare_spec tp a); try done; lra.
Qed.

(** A bar entered without a position (signal 0 on the bar before) has
    return 0 and is charged no fee, whatever the fee, when the two closes
    are numbers and the stop loss and the profit target are >= 0. *)
Theorem flat_bar_costs_nothing :
  forall self config out (sl tp c p : Q) (i : nat),
    stop_loss_pct config = Fin sl -> profit_target_pct config = Fin tp ->
    (0 <= sl)%Q -> (0 <= tp)%Q ->
    run_strategy self config = Ok out ->
    signal out !! i = Some 0 ->
    map close (rf_data out) !! i = Some (Fin p) ->
    map close (rf_data out) !! S i = Some (Fin c) ->
    ~ (p == 0)%Q ->
    exists q, strategy_return out !! S i = Some (Fin q) /\ (q == 0)%Q.
Proof.
  intros self config out sl tp c p i Hsl Htp Psl Ptp Hout Hs Hp Hc Hp0.
  destruct (run_strategy_lengths _ _ _ Hout) as (Ls & Lp & _).
  destruct (run_strategy_inv _ _ _ Hout)
    as (df & w & _ & _ & Hdf & _ & _ & _ & Hpct & Hr).
  rewrite Hdf in Hp, Hc.
  assert (H0 : lagged_return (signal out) (pct_change_col out) !! S i
               = Some (mul (of_Z 0) (sub (div (Fin c) (Fin p)) one))).
  { apply lagged_return_lookup_S; [lia | done |].
    rewrite Hpct. by apply pct_change_lookup_notnan. }
  rewrite Hr, apply_fees_map, risk_cap_map, !list_lookup_fmap, H0. simpl.
  destruct (Qeq_bool p 0) eqn:Ep; [by apply Qeq_bool_iff in Ep|]. simpl.
  change (inject_Z 0) with 0%Q.
  remember (0 * (c / p + - (1)))%Q as z eqn:Ez.
  assert (Hz : (z == 0)%Q) by (rewrite Ez; ring).
  exists z. split; [|done]. f_equal. clear Ez.
  unfold clamp, gtb, charge, neb, zero. rewrite Hsl, Htp. simpl.
  destruct (Qcompare_spec z (- sl)); try lra;
    (destruct (Qcompare_spec tp z); try lra; simpl;
     destruct (Qeq_bool z 0) eqn:E; try done;
     apply Qeq_bool_neq in E; by destruct E).
Qed.

(** When the stop loss plus the fee stay below 100% and the first two
    closes are numbers, the first not 0, the returns of the run form a
    well-formed series with a trade: what the drawdown figures of
    [calculate_metrics] ask of their input. *)
Theorem pipeline_returns_are_well_formed :
  forall self config out (sl tp fee c0 c1 : Q),
    stop_loss_pct config = Fin sl -> profit_target_pct config = Fin tp ->
    fee_per_trade config = Fin fee ->
    (0 <= sl)%Q -> (0 <= tp)%Q -> (0 <= fee)%Q -> (sl + fee < 1)%Q ->
    run_strategy self config = Ok out ->
    map close (rf_data out) !! O = Some (Fin c0) ->
    map close (rf_data out) !! 1%nat = Some (Fin c1) ->
    ~ (c0 == 0)%Q ->
    well_formed_returns (strategy_return out) /\
    trades_of (strategy_return out) <> [].
Proof.
  intros self config out sl tp fee c0 c1 Hsl Htp Hfee Psl Ptp Pfee Hlt
    Hout H0 H1 Hc0.
  destruct (run_strategy_lengths _ _ _ Hout) as (Ls & Lp & Lr).
  destruct (run_strategy_inv _ _ _ Hout)
    as (df & w & _ & _ & Hdf & _ & _ & _ & Hpct & Hr).
  assert (Hlen : (1 < length (rf_data out))%nat).
  { apply lookup_lt_Some in H1. by rewrite length_map in H1. }
  split; [split|].
  - rewrite Hr, apply_fees_map, risk_cap_map.
    apply Forall_fmap, Forall_fmap, Forall_forall. intros y _. simpl.
    destruct (strategy_return_elem_range config sl tp fee y)
      as [[_ ->] | (q & -> & Hq)]; try done. simpl. lra.
  - destruct (lookup_lt_is_Some_2 (signal out) O) as [s Hs]; [lia|].
    assert (Hl : lagged_return (signal out) (pct_change_col out) !! 1%nat
                 = Some (mul (of_Z s) (sub (div (Fin c1) (Fin c0)) one))).
    { apply lagged_return_lookup_S; [lia | done |].
      rewrite Hpct, <- Hdf. by apply pct_change_lookup_notnan. }
    assert (Hnum : exists q, mul (of_Z s) (sub (div (Fin c1) (Fin c0)) one)
                             = Fin q).
    { simpl. destruct (Qeq_bool c0 0) eqn:E; [by apply Qeq_bool_iff in E|].
      simpl. eauto. }
    destruct Hnum as [y Hy]. rewrite Hy in Hl.
    destruct (strategy_return_elem_range config sl tp fee (Fin y))
      as [[? _] | (q & Hq & _)]; try done.
    exists (Fin q). split; [|done].
    apply (list_elem_of_lookup_2 _ 1%nat).
    by rewrite Hr, apply_fees_map, risk_cap_map, !list_lookup_fmap, Hl; simpl;
      rewrite Hq.
  - apply (pipeline_has_trades self config); [done|].
    intros E. rewrite E in Hlen. simpl in Hlen. lia.
Qed.

(* ===================================================================== *)
(** * calculate_metrics: keys and ranges of the record *)
(* ===================================================================== *)

Lemma rint_bounds (q : Q) :
  (inject_Z (rint q) - (1 # 2) <= q <= inject_Z (rint q) + (1 # 2))%Q.
Proof.
  unfold rint.
  pose proof (Qfloor_le q) as Hlo. pose proof (Qlt_floor q) as Hhi.
  remember (Qfloor q) as f eqn:Ef. clear Ef.
  rewrite inject_Z_plus in Hhi. change (inject_Z 1) with 1%Q in Hhi.
  destruct (Qcompare_spec (q - inject_Z f) (1 # 2)); [destruct (Z.even f)| |];
    rewrite ?inject_Z_plus; change (inject_Z 1) with 1%Q; lra.
Qed.

Lemma rint_ge (a : Z) (q : Q) : (inject_Z a <= q)%Q -> a <= rint q.
Proof.
  intros Ha. destruct (Z_le_gt_dec a (rint q)) as [|Hgt]; [done|]. exfalso.
  assert (H : rint q + 1 <= a) by lia.
  rewrite Zle_Qle, inject_Z_plus in H. change (inject_Z 1) with 1%Q in H.
  pose proof (rint_bounds q). lra.
Qed.

Lemma rint_le (b : Z) (q : Q) : (q <= inject_Z b)%Q -> rint q <= b.
Proof.
  intros Hb. destruct (Z_le_gt_dec (rint q) b) as [|Hgt]; [done|]. exfalso.
  assert (H : b + 1 <= rint q) by lia.
  rewrite Zle_Qle, inject_Z_plus in H. change (inject_Z 1) with 1%Q in H.
  pose proof (rint_bounds q). lra.
Qed.

(** [round(m * 100, 2)] stays between two whole percentages that bound
    [m * 100]. *)
Lemma round_pct_between (a b : Z) (m : Q) :
  (inject_Z a <= m * (100 # 1) <= inject_Z b)%Q ->
  exists q, round (mul (Fin m) (of_Z 100)) 2 = Fin q /\
            (inject_Z a <= q <= inject_Z b)%Q.
Proof.
  intros [Ha Hb]. rewrite round_pct_Fin. eexists. split; [done|].
  assert (Hlo : a * 100 <= rint (m * (100 # 1) * (100 # 1))).
  { apply rint_ge. rewrite inject_Z_mult.
    change (inject_Z 100) with (100 # 1)%Q.
    remember (inject_Z a) as qa. lra. }
  assert (Hhi : rint (m * (100 # 1) * (100 # 1)) <= b * 100).
  { apply rint_le. rewrite inject_Z_mult.
    change (inject_Z 100) with (100 # 1)%Q.
    clear Hlo. remember (inject_Z b) as qb. lra. }
  remember (rint _) as z eqn:Ez. clear Ez.
  rewrite Zle_Qle, inject_Z_mult in Hlo, Hhi.
  change (inject_Z 100) with (100 # 1)%Q in Hlo, Hhi.
  remember (inject_Z a) as qa. remember (inject_Z b) as qb.
  remember (inject_Z z) as qz.
  split; [apply Qle_shift_div_l | apply Qle_shift_div_r]; lra.
Qed.

Lemma of_nat_div (w t : nat) :
  (0 < t)%nat ->
  div (of_nat w) (of_nat t)
  = Fin (inject_Z (Z.of_nat w) / inject_Z (Z.of_nat t)).
Proof.
  intros Ht. unfold of_nat, of_Z, div.
  destruct (Qeq_bool (inject_Z (Z.of_nat t)) 0) eqn:E; [|done].
  apply Qeq_bool_iff in E. unfold Qeq in E. simpl in E. lia.
Qed.

Lemma calculate_metrics_net_profit df_results :
  trades_of (strategy_return df_results) <> [] ->
  calculate_metrics df_results !! "net_profit_pct"
  = Some (PFloat
      (round (mul (sub (List.last (cumulative_returns
                                     (strategy_return df_results)) NaN) one)
                  (of_Z 100)) 2)).
Proof.
  unfold calculate_metrics, trades_of. intros Hne.
  destruct (List.filter _ _) as [|t ts]; [done|]. cbn [length Nat.eqb].
  by rewrite !lookup_insert_ne, lookup_singleton_eq.
Qed.

(** The record has the keys total_trades, win_rate and expectancy in both
    branches, and max_drawdown_pct and net_profit_pct exactly when the
    series has a trade. *)
Theorem calculate_metrics_keys_by_branch :
  forall df_results,
    let metrics := calculate_metrics df_results in
    let trades := trades_of (strategy_return df_results) in
    (trades = [] ->
     dom metrics = ({[ "total_trades"; "win_rate"; "expectancy" ]} : gset string))
    /\
    (trades <> [] ->
     dom metrics = ({[ "total_trades"; "win_rate"; "max_drawdown_pct";
                       "expectancy"; "net_profit_pct" ]} : gset string))
    /\
    (is_Some (metrics !! "max_drawdown_pct") <-> trades <> []) /\
    (is_Some (metrics !! "net_profit_pct") <-> trades <> []).
Proof.
  intros df_results metrics trades. subst metrics trades.
  destruct (trades_of (strategy_return df_results)) as [|t ts] eqn:Et.
  - rewrite (calculate_metrics_no_trades _ Et). unfold degenerate_metrics.
    split; [intros _; by vm_compute|]. split; [done|].
    split; (split; [intros [v Hv]; by vm_compute in Hv | done]).
  - assert (Hne : trades_of (strategy_return df_results) <> [])
      by (by rewrite Et).
    split; [done|]. split.
    + intros _. unfold calculate_metrics. fold (trades_of (strategy_return df_results)).
      rewrite Et. cbn [length Nat.eqb].
      rewrite !dom_insert_L, dom_singleton_L. by vm_compute.
    + rewrite (calculate_metrics_max_drawdown _ Hne),
        (calculate_metrics_net_profit _ Hne). split; split; eauto.
Qed.

(** total_trades counts the returns that are not equal to 0 (NaN
    included): it lies between 0 and the number of rows, and it is 0
    exactly when every return equals 0. *)
Theorem total_trades_counts_nonzero_returns :
  forall df_results,
    let r := strategy_return df_results in
    exists n : Z,
      calculate_metrics df_results !! "total_trades" = Some (PInt n) /\
      n = Z.of_nat (length (trades_of r)) /\
      0 <= n <= Z.of_nat (length r) /\
      (n = 0 <-> Forall (fun x => eqb x zero = true) r).
Proof.
  intros df_results r. subst r.
  exists (Z.of_nat (length (trades_of (strategy_return df_results)))).
  assert (Hz : trades_of (strategy_return df_results) = []
               <-> Forall (fun x => eqb x zero = true)
                          (strategy_return df_results)).
  { split; [|apply trades_of_zeros].
    unfold trades_of. generalize (strategy_return df_results).
    induction l as [|x l IH]; [constructor|]. simpl. unfold neb.
    destruct (eqb x zero) eqn:E; simpl; [|done].
    intros Hl. constructor; [done | by apply IH]. }
  split; [|split; [done|split]].
  - destruct (trades_of (strategy_return df_results)) as [|t ts] eqn:Et.
    + by rewrite (calculate_metrics_no_trades _ Et).
    + rewrite <- Et. apply calculate_metrics_total_trades. by rewrite Et.
  - pose proof (filter_length_le (fun x => neb x zero)
                  (strategy_return df_results)). unfold trades_of. lia.
  - rewrite <- Hz. split.
    + intros H. apply length_zero_iff_nil. lia.
    + by intros ->.
Qed.

Lemma win_rate_of_trades df_results :
  trades_of (strategy_return df_results) <> [] ->
  exists q : Q,
    calculate_metrics df_results !! "win_rate" = Some (PFloat (Fin q)) /\
    (0 <= q <= 100)%Q.
Proof.
  intros Hne. rewrite calculate_metrics_win_rate by done.
  set (trades := trades_of (strategy_return df_results)) in *.
  set (w := length (List.filter (fun x => gtb x zero) trades)).
  assert (Hw : (w <= length trades)%nat) by apply filter_length_le.
  assert (Hn : (0 < length trades)%nat) by (destruct trades; [done | simpl; lia]).
  rewrite of_nat_div by done.
  set (n := length trades) in *.
  destruct (round_pct_between 0 100
              (inject_Z (Z.of_nat w) / inject_Z (Z.of_nat n)))
    as (q & -> & Hq).
  - assert (Hn' : (0 < inject_Z (Z.of_nat n))%Q).
    { change 0%Q with (inject_Z 0). rewrite <- Zlt_Qlt. lia. }
    assert (Hw0 : (0 <= inject_Z (Z.of_nat w))%Q).
    { change 0%Q with (inject_Z 0). rewrite <- Zle_Qle. lia. }
    assert (Hwn : (inject_Z (Z.of_nat w) <= inject_Z (Z.of_nat n))%Q).
    { rewrite <- Zle_Qle. lia. }
    remember (inject_Z (Z.of_nat w)) as qw.
    remember (inject_Z (Z.of_nat n)) as qn.
    assert (H0 : (0 <= qw / qn)%Q) by (apply Qle_shift_div_l; lra).
    assert (H1 : (qw / qn <= 1)%Q) by (apply Qle_shift_div_r; lra).
    change (inject_Z 0) with 0%Q. change (inject_Z 100) with (100 # 1)%Q.
    lra.
  - exists q. split; [done|].
    change (inject_Z 0) with 0%Q in Hq.
    change (inject_Z 100) with (100 # 1)%Q in Hq. lra.
Qed.

(** win_rate is a number between 0 and 100 in every record, never NaN:
    the integer 0 without a trade, a rounded percentage with one. *)
Theorem win_rate_is_percentage :
  forall df_results,
    exists q : Q,
      float_of_pyval <$> calculate_metrics df_results !! "win_rate"
        = Some (Fin q) /\
      (0 <= q <= 100)%Q.
Proof.
  intros df_results.
  destruct (trades_of (strategy_return df_results)) as [|t ts] eqn:Et.
  - rewrite (calculate_metrics_no_trades _ Et). exists 0%Q.
    split; [done | lra].
  - destruct (win_rate_of_trades df_results) as (q & Hq & Hr);
      [by rewrite Et|].
    exists q. by rewrite Hq.
Qed.

Lemma drawdown_value_above_minus_one (a b : Q) :
  (0 < a)%Q -> (a <= b)%Q -> (-1 <= (a + - b) / b)%Q.
Proof. intros Ha Hab. apply Qle_shift_div_l; lra. Qed.

(** For a well-formed return series with a trade, max_drawdown_pct is a
    number between -100 and 0. *)
Theorem max_drawdown_pct_range :
  forall df_results,
    let r := strategy_return df_results in
    well_formed_returns r -> trades_of r <> [] ->
    exists q : Q,
      calculate_metrics df_results !! "max_drawdown_pct"
        = Some (PFloat (Fin q)) /\
      (-100 <= q <= 0)%Q.
Proof.
  intros df_results r [Hr Hnum] Htr.
  rewrite (calculate_metrics_max_drawdown _ Htr). fold r.
  destruct (series_min_drawdown r Hr Hnum) as (mn & Hmin & Hle & Hin & _).
  unfold max_drawdown_pct. rewrite Hmin.
  assert (Hge : (-1 <= mn)%Q).
  { destruct (drawdown_elem r _ Hr Hin) as (i & x & c & p & _ & _ & _ & Hok & E).
    destruct (drawdown_row _ _ _ Hok)
      as [(_ & _ & _ & E') | (a & b & _ & _ & _ & [Ha Hab] & E')];
      rewrite E' in E; [done|].
    injection E as ->. by apply drawdown_value_above_minus_one. }
  destruct (round_pct_between (-100) 0 mn) as (q & -> & Hq).
  - change (inject_Z (-100)) with (-100 # 1)%Q.
    change (inject_Z 0) with 0%Q. lra.
  - exists q. split; [done|].
    change (inject_Z (-100)) with (-100 # 1)%Q in Hq.
    change (inject_Z 0) with 0%Q in Hq. lra.
Qed.

Lemma Forall3_last_row (r cum peak : list float) (x : float) :
  Forall3 row_ok (r ++ [x]) cum peak ->
  exists c p, List.last cum NaN = c /\ row_ok x c p.
Proof.
  intros H. apply Forall3_app_inv_l in H
    as (cum1 & cum2 & pk1 & pk2 & -> & -> & _ & H2).
  inversion H2 as [|? c p ? ? ? Hok Hnil]; subst.
  inversion Hnil; subst. exists c, p. by rewrite last_last.
Qed.

(** net_profit_pct reads the last row of the equity curve: it is NaN when
    the last return is NaN, and a number >= -100 when the last return of a
    well-formed series is a number. *)
Theorem net_profit_pct_reads_last_row :
  forall df_results (r' : list float) (x : float),
    strategy_return df_results = r' ++ [x] ->
    Forall return_ok (r' ++ [x]) ->
    trades_of (r' ++ [x]) <> [] ->
    (isnan x = true ->
     calculate_metrics df_results !! "net_profit_pct" = Some (PFloat NaN)) /\
    (notnan x = true ->
     exists q : Q,
       calculate_metrics df_results !! "net_profit_pct"
         = Some (PFloat (Fin q)) /\ (-100 <= q)%Q).
Proof.
  intros df_results r' x Hr Hok Htr.
  rewrite calculate_metrics_net_profit by (by rewrite Hr). rewrite Hr.
  destruct (Forall3_last_row r' _ _ x (curve_ok _ Hok)) as (c & p & -> & Hrow).
  destruct x as [| | |q], c as [| | |a], p as [| | |b]; try done.
  split; [intros H; by vm_compute in H|]. intros _. destruct Hrow as [Ha _].
  change (sub (Fin a) one) with (Fin (a + - (1))).
  rewrite round_pct_Fin. eexists. split; [done|].
  assert (Hlo : -10000 <= rint ((a + - (1)) * (100 # 1) * (100 # 1))).
  { apply rint_ge. change (inject_Z (-10000)) with (-10000 # 1)%Q. lra. }
  remember (rint _) as z eqn:Ez. clear Ez.
  rewrite Zle_Qle in Hlo.
  change (inject_Z (-10000)) with (-10000 # 1)%Q in Hlo.
  remember (inject_Z z) as qz. apply Qle_shift_div_l; lra.
Qed.

(* ===================================================================== *)
(** * The optimizer: when it returns, and how it fails *)
(* ===================================================================== *)

Lemma getitem_Ok (d : gmap string pyval) (key : string) (v : pyval) :
  getitem d key = Ok v <-> d !! key = Some v.
Proof.
  unfold getitem. destruct (d !! key); split; intros H; try done;
    by injection H as ->.
Qed.

Lemma evaluate_inv engine combo row :
  evaluate engine combo = Ok row ->
  exists out,
    run_strategy engine (grid_config combo) = Ok out /\
    params row = combo /\
    calculate_metrics out !! "win_rate" = Some (WinRate row) /\
    calculate_metrics out !! "total_trades" = Some (Trades row) /\
    calculate_metrics out !! "max_drawdown_pct" = Some (Drawdown row) /\
    calculate_metrics out !! "expectancy" = Some (Expectancy row).
Proof.
  destruct combo as [[window sl] tp]. unfold evaluate, grid_config. simpl.
  destruct (run_strategy engine _) as [out|e] eqn:Hout; [|done]. simpl.
  destruct (getitem _ "win_rate") as [wr|] eqn:E1; [|done]. simpl.
  destruct (getitem _ "total_trades") as [tt|] eqn:E2; [|done]. simpl.
  destruct (getitem _ "max_drawdown_pct") as [dd|] eqn:E3; [|done]. simpl.
  destruct (getitem _ "expectancy") as [ex|] eqn:E4; [|done]. simpl.
  intros H. injection H as <-. exists out. simpl.
  apply getitem_Ok in E1, E2, E3, E4. done.
Qed.

Lemma empty_frame_has_no_trade self config out :
  run_strategy self config = Ok out -> rf_data out = [] ->
  trades_of (strategy_return out) = [].
Proof.
  intros Hout He. destruct (run_strategy_lengths _ _ _ Hout) as (_ & _ & Hr).
  rewrite He in Hr. by destruct (strategy_return out).
Qed.

Lemma max_drawdown_key_needs_trade df_results v :
  calculate_metrics df_results !! "max_drawdown_pct" = Some v ->
  trades_of (strategy_return df_results) <> [].
Proof.
  intros H Hno. rewrite (calculate_metrics_no_trades _ Hno) in H.
  by vm_compute in H.
Qed.

(** What a grid point needs to give a row. *)
Lemma evaluate_Ok_iff engine combo :
  (exists row, evaluate engine combo = Ok row) <->
  0 <= combo.1.1 < 2 ^ 63 /\ exists df, data engine = Some df /\ df <> [].
Proof.
  split.
  - intros [row Hrow].
    destruct (evaluate_inv _ _ _ Hrow) as (out & Hout & _ & _ & _ & Hdd & _).
    destruct (run_strategy_inv _ _ _ Hout) as (df & w & Hd & Hw & Hdf & _).
    assert (Hne : rf_data out <> []).
    { intros He. apply max_drawdown_key_needs_trade in Hdd. apply Hdd.
      by apply (empty_frame_has_no_trade engine (grid_config combo)). }
    destruct (run_strategy_window _ _ _ Hout) as [Hw0 [Hb|Hb]]; [|done].
    simpl in Hw0, Hb. split; [lia|]. exists df. split; [done|].
    by rewrite <- Hdf.
  - intros (Hw & df & Hd & Hne).
    destruct (evaluate_ok engine df combo Hd Hne Hw) as (row & Hrow & _).
    eauto.
Qed.

Lemma sweep_loop_Ok_inv engine combos :
  forall log rows,
    sweep_loop engine combos log = Ok rows ->
    exists new,
      rows = log ++ new /\
      Forall2 (fun combo row => evaluate engine combo = Ok row) combos new.
Proof.
  induction combos as [|combo combos IH]; intros log rows H; simpl in H.
  - injection H as <-. exists []. by rewrite app_nil_r.
  - destruct (evaluate engine combo) as [row|e] eqn:Hrow; [|done].
    simpl in H. destruct (IH _ _ H) as (new & -> & Hnew).
    exists (row :: new). rewrite <- app_assoc. split; [done|].
    by constructor.
Qed.

(** The first grid point that fails stops the loop with its exception. *)
Lemma sweep_loop_first_failure engine (good : list (Z * float * float))
    bad rest e :
  Forall (fun combo => exists row, evaluate engine combo = Ok row) good ->
  evaluate engine bad = Raise e ->
  forall log, sweep_loop engine (good ++ bad :: rest) log = Raise e.
Proof.
  intros Hgood Hbad. induction Hgood as [|combo good [row Hrow] _ IH];
    intros log; simpl.
  - by rewrite Hbad.
  - rewrite Hrow. simpl. apply IH.
Qed.

(** [main]'s computation returns a ranked table exactly when none of the
    three parameter lists is empty, every lookback window is at least 0
    and fits a 64-bit integer, and the engine holds a frame with at least
    one bar. *)
Theorem optimize_returns_iff :
  forall (kind : Argsort) engine
         (windows : list Z) (stop_losses take_profits : list float),
    (exists best_configs,
        optimize kind engine windows stop_losses take_profits
          = Ok best_configs)
    <->
    windows <> [] /\ stop_losses <> [] /\ take_profits <> [] /\
    Forall (fun w => 0 <= w < 2 ^ 63) windows /\
    exists df, data engine = Some df /\ df <> [].
Proof.
  intros kind engine ws sls tps. unfold optimize, sweep. split.
  - intros [best H].
    destruct (sweep_loop engine (product3 ws sls tps) []) as [log|e] eqn:Hlog;
      [|done].
    simpl in H. destruct (sweep_loop_Ok_inv _ _ _ _ Hlog) as (new & E & Hnew).
    simpl in E. subst new.
    assert (Hne : product3 ws sls tps <> []).
    { intros Hnil. rewrite Hnil in Hnew. inversion Hnew; subst. done. }
    assert (Hall : forall combo, combo ∈ product3 ws sls tps ->
              0 <= combo.1.1 < 2 ^ 63 /\
              exists df, data engine = Some df /\ df <> []).
    { intros combo Hin. apply evaluate_Ok_iff.
      apply list_elem_of_lookup in Hin as [i Hi].
      destruct (Forall2_lookup_l _ _ _ _ _ Hnew Hi) as (row & _ & Hrow). eauto. }
    rewrite product3_nil in Hne.
    destruct ws as [|w0 ws]; [by destruct Hne; left|].
    destruct sls as [|sl0 sls]; [by destruct Hne; right; left|].
    destruct tps as [|tp0 tps]; [by destruct Hne; right; right|].
    repeat split; try done.
    + apply Forall_forall. intros w Hw.
      apply (Hall (w, sl0, tp0)), product3_elem.
      repeat split; [done | apply list_elem_of_here ..].
    + apply (Hall (w0, sl0, tp0)), product3_elem.
      repeat split; apply list_elem_of_here.
  - intros (Hws & Hsls & Htps & Hpos & df & Hd & Hne).
    destruct (sweep_loop_ok engine df (product3 ws sls tps) Hd Hne)
      with (log := @nil Row) as (rows & -> & Hps).
    { apply Forall_forall. intros [[w sl] tp] Hin.
      apply product3_elem in Hin as (Hw & _). simpl.
      rewrite Forall_forall in Hpos. by apply Hpos. }
    simpl. apply sort_values_nonempty. intros ->. simpl in Hps.
    symmetry in Hps. apply product3_nil in Hps. tauto.
Qed.

Lemma evaluate_raises_on_empty_frame engine (combo : Z * float * float) :
  data engine = Some [] -> 0 <= combo.1.1 ->
  evaluate engine combo = Raise (KeyError "max_drawdown_pct").
Proof.
  intros Hd Hw. destruct combo as [[window sl] tp]. simpl in Hw.
  unfold evaluate.
  destruct (run_strategy_total_empty engine (grid_config (window, sl, tp))
              Hd Hw) as [out Hout].
  unfold grid_config in Hout. simpl in Hout. rewrite Hout. simpl.
  destruct (run_strategy_inv _ _ _ Hout) as (df & w & Hd' & _ & Hdf & _).
  rewrite Hd in Hd'. injection Hd' as <-.
  rewrite (calculate_metrics_no_trades out)
    by (by apply (empty_frame_has_no_trade _ _ _ Hout)).
  done.
Qed.

Lemma evaluate_raises_on_negative_window engine df (combo : Z * float * float) :
  data engine = Some df -> combo.1.1 < 0 ->
  evaluate engine combo
  = Raise (ValueError "window must be an integer 0 or greater").
Proof.
  intros Hd Hw. destruct combo as [[window sl] tp]. simpl in Hw.
  unfold evaluate, run_strategy. simpl. rewrite Hd.
  by rewrite rolling_apply_negative.
Qed.

(** A frame without a bar gives no trade, so the record has no
    max_drawdown_pct and the first grid point already stops the sweep with
    a KeyError for that key. *)
Theorem optimize_fails_on_empty_frame :
  forall (kind : Argsort) engine (w : Z) (windows : list Z)
         (stop_losses take_profits : list float),
    data engine = Some [] -> 0 <= w ->
    stop_losses <> [] -> take_profits <> [] ->
    sweep engine (w :: windows) stop_losses take_profits
      = Raise (KeyError "max_drawdown_pct") /\
    optimize kind engine (w :: windows) stop_losses take_profits
      = Raise (KeyError "max_drawdown_pct").
Proof.
  intros kind engine w ws sls tps Hd Hw Hsl Htp.
  destruct sls as [|sl sls]; [done|]. destruct tps as [|tp tps]; [done|].
  assert (E : sweep engine (w :: ws) (sl :: sls) (tp :: tps)
              = Raise (KeyError "max_drawdown_pct")).
  { unfold sweep.
    assert (Hp : exists rest, product3 (w :: ws) (sl :: sls) (tp :: tps)
                              = [] ++ (w, sl, tp) :: rest)
      by (eexists; reflexivity).
    destruct Hp as [rest ->].
    apply sweep_loop_first_failure; [constructor|].
    by apply evaluate_raises_on_empty_frame. }
  split; [done|]. unfold optimize. by rewrite E.
Qed.

Lemma list_first_match {A} (P : A -> Prop) `{forall x, Decision (P x)}
    (l : list A) (x : A) :
  x ∈ l -> P x ->
  exists good bad rest,
    l = good ++ bad :: rest /\ Forall (fun y => ~ P y) good /\ P bad.
Proof.
  induction l as [|y l IH]; intros Hin Hx; [by apply not_elem_of_nil in Hin|].
  destruct (decide (P y)) as [Hy|Hy].
  - exists [], y, l. split; [done|]. split; [constructor | done].
  - apply elem_of_cons in Hin as [-> | Hin]; [done|].
    destruct (IH Hin Hx) as (good & bad & rest & -> & Hg & Hb).
    exists (y :: good), bad, rest.
    split; [done|]. split; [by constructor | done].
Qed.

(** When every lookback window of the grid fits a 64-bit integer, one
    negative window makes the whole run fail with the ValueError of
    [rolling]: no table is returned, with or without the rows of the other
    grid points. *)
Theorem optimize_fails_on_negative_window :
  forall (kind : Argsort) engine df (w : Z) (windows : list Z)
         (stop_losses take_profits : list float),
    data engine = Some df -> df <> [] ->
    Forall (fun w' => w' < 2 ^ 63) windows ->
    w ∈ windows -> w < 0 ->
    stop_losses <> [] -> take_profits <> [] ->
    sweep engine windows stop_losses take_profits
      = Raise (ValueError "window must be an integer 0 or greater") /\
    optimize kind engine windows stop_losses take_profits
      = Raise (ValueError "window must be an integer 0 or greater").
Proof.
  intros kind engine df w ws sls tps Hd Hne Hfit Hin Hw Hsl Htp.
  destruct sls as [|sl sls]; [done|]. destruct tps as [|tp tps]; [done|].
  assert (E : sweep engine ws (sl :: sls) (tp :: tps)
              = Raise (ValueError "window must be an integer 0 or greater")).
  { unfold sweep.
    assert (Hall : Forall (fun combo : Z * float * float => combo.1.1 < 2 ^ 63)
                          (product3 ws (sl :: sls) (tp :: tps))).
    { apply Forall_forall. intros [[w' sl'] tp'] Hc.
      apply product3_elem in Hc as (Hc & _).
      rewrite Forall_forall in Hfit. by apply Hfit. }
    destruct (list_first_match (fun combo : Z * float * float => combo.1.1 < 0)
                (product3 ws (sl :: sls) (tp :: tps)) (w, sl, tp))
      as (good & bad & rest & E & Hgood & Hbad).
    { apply product3_elem. repeat split; [done | apply list_elem_of_here ..]. }
    { done. }
    rewrite E in Hall |- *. apply Forall_app in Hall as [Hallg _].
    apply sweep_loop_first_failure.
    - apply Forall_forall. intros combo Hc.
      rewrite Forall_forall in Hgood, Hallg.
      specialize (Hgood _ Hc). specialize (Hallg _ Hc). simpl in Hgood, Hallg.
      apply evaluate_Ok_iff. split; [lia | eauto].
    - by apply (evaluate_raises_on_negative_window engine df). }
  split; [done|]. unfold optimize. by rewrite E.
Qed.

(** With an empty parameter list the sweep has no grid point and returns
    no row; the frame built from it has no WinRate column, and sorting it
    raises a KeyError, whatever the engine holds. *)
Theorem optimize_fails_on_empty_grid :
  forall (kind : Argsort) engine
         (windows : list Z) (stop_losses take_profits : list float),
    windows = [] \/ stop_losses = [] \/ take_profits = [] ->
    sweep engine windows stop_losses take_profits = Ok [] /\
    optimize kind engine windows stop_losses take_profits
      = Raise (KeyError "WinRate").
Proof.
  intros kind engine ws sls tps H. apply product3_nil in H.
  unfold optimize, sweep. rewrite H. done.
Qed.

(* ===================================================================== *)
(** * The optimizer: the rows and the report *)
(* ===================================================================== *)

Lemma sweep_row_fields engine ws sls tps log row :
  sweep engine ws sls tps = Ok log -> row ∈ log ->
  params row ∈ product3 ws sls tps /\
  (exists q : Q, WinRate row = PFloat (Fin q) /\ (0 <= q <= 100)%Q) /\
  (exists n : Z, Trades row = PInt n /\ 1 <= n).
Proof.
  intros Hlog Hrow. unfold sweep in Hlog.
  destruct (sweep_loop_Ok_inv _ _ _ _ Hlog) as (new & E & Hnew).
  simpl in E. subst new.
  apply list_elem_of_lookup in Hrow as [i Hi].
  destruct (Forall2_lookup_r _ _ _ _ _ Hnew Hi) as (combo & Hc & Hev).
  destruct (evaluate_inv _ _ _ Hev) as (out & Hout & Hp & Hwr & Htt & Hdd & _).
  pose proof (max_drawdown_key_needs_trade _ _ Hdd) as Htr.
  split; [rewrite Hp; by eapply list_elem_of_lookup_2|]. split.
  - destruct (win_rate_of_trades out Htr) as (q & Hq & Hr).
    exists q. split; [congruence | done].
  - rewrite (calculate_metrics_total_trades _ Htr) in Htt.
    injection Htt as <-. eexists. split; [done|].
    destruct (trades_of (strategy_return out)); [done | simpl; lia].
Qed.

(** Every row of the sweep carries the parameters of a grid point, a
    WinRate that is a number between 0 and 100, and at least one trade. *)
Theorem sweep_rows_are_well_formed :
  forall engine (windows : list Z) (stop_losses take_profits : list float)
         results_log,
    sweep engine windows stop_losses take_profits = Ok results_log ->
    Forall (fun row =>
              (Window row ∈ windows /\ StopLoss row ∈ stop_losses /\
               TakeProfit row ∈ take_profits) /\
              (exists q : Q, WinRate row = PFloat (Fin q) /\ (0 <= q <= 100)%Q) /\
              (exists n : Z, Trades row = PInt n /\ 1 <= n))
           results_log.
Proof.
  intros engine ws sls tps log Hlog. apply Forall_forall. intros row Hrow.
  destruct (sweep_row_fields _ _ _ _ _ _ Hlog Hrow) as (Hp & Hwr & Htt).
  split; [|done]. by apply product3_elem in Hp.
Qed.

Lemma optimize_inv kind engine ws sls tps best :
  optimize kind engine ws sls tps = Ok best ->
  exists log,
    sweep engine ws sls tps = Ok log /\
    sort_values_WinRate_desc kind log = Ok best.
Proof.
  unfold optimize. destruct (sweep engine ws sls tps) as [log|e]; [|done].
  simpl. eauto.
Qed.

Lemma filter_none {A} (f : A -> bool) (l : list A) :
  Forall (fun x => f x = false) l -> List.filter f l = [].
Proof. induction 1 as [|x l Hx _ IH]; [done|]. simpl. by rewrite Hx. Qed.

(** The five rows [main] prints are the first rows of the ranking, and no
    row left out has a larger WinRate than a printed one. *)
Theorem top_configurations_are_best :
  forall (kind : Argsort) engine windows stop_losses take_profits best_configs,
    optimize kind engine windows stop_losses take_profits = Ok best_configs ->
    length (top_configurations best_configs)
      = Nat.min 5 (length best_configs) /\
    forall shown hidden,
      shown ∈ top_configurations best_configs ->
      hidden ∈ drop 5 best_configs ->
      ltb (sort_key shown) (sort_key hidden) = false.
Proof.
  intros kind engine ws sls tps best Hbest.
  destruct (optimize_inv _ _ _ _ _ _ Hbest) as (log & _ & Hsort).
  pose proof (sort_values_descending _ _ _ Hsort) as Hdesc.
  unfold top_configurations. split; [apply length_take|].
  intros shown hidden Hs Hh. unfold descending_WinRate in Hdesc.
  rewrite <- (take_drop 5 best) in Hdesc.
  by apply (StronglySorted_app_1_elem_of _ _ _ _ _ Hdesc).
Qed.

(** The first row of the ranking has the largest WinRate of the sweep, and
    [main] recommends a configuration exactly when that WinRate is >= 80:
    then it recommends the parameters of that first row. *)
Theorem recommended_config_is_top_row :
  forall (kind : Argsort) engine windows stop_losses take_profits best_configs,
    optimize kind engine windows stop_losses take_profits = Ok best_configs ->
    exists results_log top,
      sweep engine windows stop_losses take_profits = Ok results_log /\
      head best_configs = Some top /\ top ∈ results_log /\
      (forall row, row ∈ results_log ->
                   ltb (sort_key top) (sort_key row) = false) /\
      recommended_config best_configs
        = if leb (of_Z 80) (sort_key top) then Some (params top) else None.
Proof.
  intros kind engine ws sls tps best Hbest.
  destruct (optimize_inv _ _ _ _ _ _ Hbest) as (log & Hlog & Hsort).
  pose proof (sort_values_descending _ _ _ Hsort) as Hdesc.
  pose proof (sort_values_perm _ _ _ Hsort) as Hperm.
  destruct best as [|top rest].
  { apply Permutation_nil_l in Hperm. subst log. done. }
  exists log, top. split; [done|]. split; [done|].
  inversion Hdesc as [|? ? Hrest Htop]; subst.
  split; [rewrite <- Hperm; apply list_elem_of_here|]. split.
  - intros row Hrow. rewrite <- Hperm in Hrow.
    apply elem_of_cons in Hrow as [-> | Hrow]; [apply ltb_irrefl|].
    rewrite Forall_forall in Htop. by apply Htop.
  - unfold recommended_config, high_win_rate. simpl.
    destruct (leb (of_Z 80) (sort_key top)) eqn:E; [done|].
    rewrite filter_none; [done|].
    apply Forall_forall. intros row Hrow.
    assert (Hkey : forall r, r ∈ top :: rest ->
              exists q, sort_key r = Fin q).
    { intros r Hr. rewrite Hperm in Hr.
      destruct (sweep_row_fields _ _ _ _ _ _ Hlog Hr) as (_ & (q & Hq & _) & _).
      exists q. unfold sort_key. by rewrite Hq. }
    destruct (Hkey top) as [t Ht]; [apply list_elem_of_here|].
    destruct (Hkey row) as [q Hq]; [by apply list_elem_of_further|].
    rewrite Forall_forall in Htop. specialize (Htop row Hrow).
    rewrite Ht in E. rewrite Ht, Hq in Htop. rewrite Hq.
    apply ltb_Fin_false in Htop.
    unfold leb in *. apply orb_false_iff in E as [E1 E2].
    apply orb_false_iff. change (of_Z 80) with (Fin (80 # 1)) in *.
    rewrite ltb_Fin_false in E1. split.
    + apply ltb_Fin_false. lra.
    + destruct (eqb (Fin (80 # 1)) (Fin q)) eqn:E3; [|done].
      apply eqb_Fin in E3.
      assert (E4 : eqb (Fin (80 # 1)) (Fin t) = true) by (apply eqb_Fin; lra).
      congruence.
Qed.

(** On every frame with at least one bar, [main] returns a table with one
    row for each of the 4 x 3 x 3 grid points it hard-codes, ranked by
    descending WinRate. *)
Theorem main_returns_one_row_per_grid_point :
  forall (kind : Argsort) (df : DataFrame),
    df <> [] ->
    exists best_configs,
      main kind df = Ok best_configs /\
      length best_configs = 36%nat /\
      map params best_configs
        ≡ₚ product3 main_lookback_windows main_stop_losses main_take_profits /\
      descending_WinRate best_configs.
Proof.
  intros kind df Hne. unfold main, optimize, sweep.
  set (engine := generate_dummy_data QuantEngine_init df).
  destruct (sweep_loop_ok engine df
              (product3 main_lookback_windows main_stop_losses
                        main_take_profits))
    with (log := @nil Row) as (rows & -> & Hps);
    [done | done | repeat constructor; simpl; lia |].
  simpl app. cbn [bind].
  destruct (sort_values_nonempty kind rows) as [best Hbest].
  { intros ->. discriminate Hps. }
  exists best. rewrite Hbest. split; [done|].
  pose proof (sort_values_perm _ _ _ Hbest) as Hperm.
  split; [|split].
  - rewrite Hperm, <- (length_map params), Hps. reflexivity.
  - by rewrite Hperm, Hps.
  - by apply (sort_values_descending kind rows).
Qed.

(* ===================================================================== *)
(** * generate_dummy_data: the synthetic bars *)
(* ===================================================================== *)

Lemma accumulate_from_length op acc vals :
  length (accumulate_from op acc vals) = length vals.
Proof. revert acc. induction vals as [|v vals IH]; intros acc; simpl; [done|]. by rewrite IH. Qed.

Lemma accumulate_length op vals : length (accumulate op vals) = length vals.
Proof. destruct vals; simpl; [done|]. by rewrite accumulate_from_length. Qed.

Lemma accumulate_from_positive acc vals :
  positive acc -> Forall positive vals ->
  Forall positive (accumulate_from mul acc vals).
Proof.
  intros Hacc Hvals. revert acc Hacc.
  induction Hvals as [|v vals (q & -> & Hq) _ IH]; intros acc (a & -> & Ha);
    simpl; [constructor|].
  assert (Hp : positive (Fin (a * q))).
  { exists (a * q)%Q. split; [done|]. by apply Qmult_lt_0_compat. }
  constructor; [done|]. by apply IH.
Qed.

Lemma price_path_length returns : length (price_path returns) = length returns.
Proof. unfold price_path. by rewrite !length_map, accumulate_length, length_map. Qed.

Lemma price_path_positive returns :
  Forall (fun x => exists q, x = Fin q /\ (-1 < q)%Q) returns ->
  Forall positive (price_path returns).
Proof.
  intros Hr. unfold price_path. apply Forall_fmap.
  assert (Hv : Forall positive (map (add one) returns)).
  { apply Forall_fmap. eapply Forall_impl; [exact Hr|].
    intros x (q & -> & Hq). exists (1 + q)%Q. split; [done | lra]. }
  assert (Ha : Forall positive (accumulate mul (map (add one) returns))).
  { destruct Hv as [|v vals Hv Hvals]; [constructor|]. simpl.
    constructor; [done|]. by apply accumulate_from_positive. }
  eapply Forall_impl; [exact Ha|]. intros x (q & -> & Hq). simpl.
  exists (inject_Z 100 * q)%Q. split; [done|].
  change (inject_Z 100) with (100 # 1)%Q. lra.
Qed.

Lemma open_column_length closes : length (open_column closes) = length closes.
Proof. unfold open_column. rewrite length_zip_with, shift1_length. lia. Qed.

Lemma open_column_lookup_0 closes c :
  closes !! O = Some c -> open_column closes !! O = Some c.
Proof.
  intros Hc. unfold open_column. rewrite lookup_zip_with.
  rewrite shift1_lookup_0 by (by eapply lookup_lt_Some). simpl.
  by rewrite Hc.
Qed.

Lemma open_column_lookup_S closes (i : nat) prev c :
  closes !! i = Some prev -> closes !! S i = Some c -> notnan prev = true ->
  open_column closes !! S i = Some prev.
Proof.
  intros Hp Hc Hn. unfold open_column. rewrite lookup_zip_with.
  rewrite shift1_lookup_S by (by eapply lookup_lt_Some).
  rewrite Hp. simpl. rewrite Hc. simpl. unfold fillna.
  by destruct prev.
Qed.

Lemma open_column_positive closes :
  Forall positive closes -> Forall positive (open_column closes).
Proof.
  intros Hc. apply Forall_lookup. intros i o Ho.
  assert (Hi : (i < length closes)%nat).
  { apply lookup_lt_Some in Ho. by rewrite open_column_length in Ho. }
  rewrite Forall_lookup in Hc. destruct i as [|i].
  - destruct (lookup_lt_is_Some_2 closes O Hi) as [c Hc0].
    rewrite (open_column_lookup_0 _ _ Hc0) in Ho. injection Ho as <-.
    by apply (Hc O).
  - destruct (lookup_lt_is_Some_2 closes i) as [p Hp]; [lia|].
    destruct (lookup_lt_is_Some_2 closes (S i) Hi) as [c Hc1].
    pose proof (Hc i p Hp) as Hpos.
    rewrite (open_column_lookup_S _ _ _ _ Hp Hc1) in Ho.
    + by injection Ho as <-.
    + by destruct Hpos as (q & -> & _).
Qed.

Lemma synthetic_frame_length returns wick_high wick_low :
  length wick_high = length returns -> length wick_low = length returns ->
  length (synthetic_frame returns wick_high wick_low) = length returns.
Proof.
  intros Hh Hl. unfold synthetic_frame.
  rewrite !length_zip_with, !length_map, open_column_length,
    price_path_length. lia.
Qed.

Lemma synthetic_frame_lookup returns wick_high wick_low (i : nat) (b : Bar) :
  synthetic_frame returns wick_high wick_low !! i = Some b ->
  exists c o nh nl,
    price_path returns !! i = Some c /\
    open_column (price_path returns) !! i = Some o /\
    wick_high !! i = Some nh /\ wick_low !! i = Some nl /\
    b = {| close := c; open := o;
           high := mul (row_max o c) (add one (abs nh));
           low := mul (row_min o c) (sub one (abs nl)) |}.
Proof.
  unfold synthetic_frame. intros H.
  apply lookup_zip_with_Some in H as ([c o] & [h l] & -> & Hco & Hhl).
  apply lookup_zip_with_Some in Hco as (c' & o' & E & Hc & Ho).
  injection E as <- <-.
  apply lookup_zip_with_Some in Hhl as (h' & l' & E & Hh & Hl).
  injection E as <- <-.
  apply lookup_zip_with_Some in Hh as (m & fh & -> & Hm & Hfh).
  apply lookup_zip_with_Some in Hl as (mi & fl & -> & Hmi & Hfl).
  apply lookup_zip_with_Some in Hm as (o1 & c1 & -> & Ho1 & Hc1).
  apply lookup_zip_with_Some in Hmi as (o2 & c2 & -> & Ho2 & Hc2).
  rewrite list_lookup_fmap in Hfh, Hfl.
  destruct (wick_high !! i) as [nh|] eqn:Enh; [|done].
  destruct (wick_low !! i) as [nl|] eqn:Enl; [|done].
  simpl in Hfh, Hfl. injection Hfh as <-. injection Hfl as <-.
  assert (o1 = o) by congruence. assert (o2 = o) by congruence.
  assert (c1 = c) by congruence. assert (c2 = c) by congruence. subst.
  by exists c, o, nh, nl.
Qed.

(** The generated frame has one bar per draw, its close column is the
    random walk, the first open is the first close and every other open is
    the close of the bar before. *)
Theorem synthetic_frame_opens_at_previous_close :
  forall returns wick_high wick_low,
    draws_ok returns wick_high wick_low ->
    let df := synthetic_frame returns wick_high wick_low in
    length df = length returns /\
    map close df = price_path returns /\
    (forall b, df !! O = Some b -> open b = close b) /\
    (forall (i : nat) prev b,
        df !! i = Some prev -> df !! S i = Some b -> open b = close prev).
Proof.
  intros returns wh wl (Lh & Ll & Hr & _ & _) df. subst df.
  pose proof (price_path_positive returns Hr) as Hpos.
  split; [by apply synthetic_frame_length|]. split.
  { apply list_eq. intros i. rewrite list_lookup_fmap.
    destruct (synthetic_frame returns wh wl !! i) as [b|] eqn:Eb; simpl.
    - destruct (synthetic_frame_lookup _ _ _ _ _ Eb)
        as (c & o & nh & nl & Hc & _ & _ & _ & ->). by rewrite Hc.
    - symmetry. apply lookup_ge_None. apply lookup_ge_None in Eb.
      rewrite synthetic_frame_length in Eb by done.
      by rewrite price_path_length. }
  split.
  - intros b Hb.
    destruct (synthetic_frame_lookup _ _ _ _ _ Hb)
      as (c & o & nh & nl & Hc & Ho & _ & _ & ->). simpl.
    rewrite (open_column_lookup_0 _ _ Hc) in Ho. by injection Ho.
  - intros i prev b Hp Hb.
    destruct (synthetic_frame_lookup _ _ _ _ _ Hp)
      as (cp & op & nhp & nlp & Hcp & _ & _ & _ & ->).
    destruct (synthetic_frame_lookup _ _ _ _ _ Hb)
      as (c & o & nh & nl & Hc & Ho & _ & _ & ->). simpl.
    rewrite Forall_lookup in Hpos. destruct (Hpos i cp Hcp) as (q & -> & _).
    rewrite (open_column_lookup_S _ _ _ _ Hcp Hc) in Ho by done.
    by injection Ho.
Qed.

(** With returns above -100% and a low wick below 100%, every generated
    bar has positive prices with [low <= open, close <= high]; no price is
    NaN. *)
Theorem synthetic_frame_bars_are_well_formed :
  forall returns wick_high wick_low,
    draws_ok returns wick_high wick_low ->
    Forall ohlc_ok (synthetic_frame returns wick_high wick_low) /\
    no_nan_prices (synthetic_frame returns wick_high wick_low).
Proof.
  intros returns wh wl (Lh & Ll & Hr & Hwh & Hwl).
  pose proof (price_path_positive returns Hr) as Hpos.
  pose proof (open_column_positive _ Hpos) as Hopen.
  assert (H : Forall ohlc_ok (synthetic_frame returns wh wl)).
  { apply Forall_lookup. intros i b Hb.
    destruct (synthetic_frame_lookup _ _ _ _ _ Hb)
      as (c & o & nh & nl & Hc & Ho & Hnh & Hnl & ->).
    rewrite Forall_lookup in Hpos, Hopen, Hwh, Hwl.
    destruct (Hpos i c Hc) as (qc & -> & Pc).
    destruct (Hopen i o Ho) as (qo & -> & Po).
    destruct (Hwh i nh Hnh) as (qh & ->).
    destruct (Hwl i nl Hnl) as (ql & -> & Pl).
    pose proof (Qabs_nonneg qh) as Ah. pose proof (Qabs_nonneg ql) as Al.
    unfold row_max, row_min, maximum, minimum. simpl.
    remember (Qabs qh) as ah. remember (Qabs ql) as al.
    destruct (Qcompare_spec qo qc), (Qcompare_spec qc qo); try lra; simpl;
      eexists _, _, _, _; (split; [reflexivity|]); nra. }
  split; [done|]. eapply Forall_impl; [exact H|].
  by intros b (c & o & h & l & -> & _).
Qed.

(* ===================================================================== *)
(** * The further theorems at the examples *)
(* ===================================================================== *)

Lemma run_strategy_columns_aligned_witness :
  exists out,
    run_strategy example_engine example_config = Ok out /\
    data example_engine = Some (rf_data out) /\
    length (box_high out) = length (rf_data out) /\
    length (box_low out) = length (rf_data out) /\
    length (signal out) = length (rf_data out) /\
    length (pct_change_col out) = length (rf_data out) /\
    length (strategy_return out) = length (rf_data out).
Proof.
  eexists. split; [vm_compute; reflexivity|].
  apply (run_strategy_columns_aligned example_engine example_config).
  vm_compute; reflexivity.
Defined.

Lemma signal_values_witness :
  exists out,
    run_strategy example_engine example_config = Ok out /\
    Forall (fun s => s = -1 \/ s = 0 \/ s = 1) (signal out).
Proof.
  eexists. split; [vm_compute; reflexivity|].
  apply (signal_values example_engine example_config).
  vm_compute; reflexivity.
Defined.

Lemma run_strategy_prefix_witness :
  exists out,
    run_strategy example_engine example_config = Ok out /\
    exists out',
      run_strategy (generate_dummy_data example_engine (take 3 (rf_data out)))
                   example_config = Ok out' /\
      rf_data out' = take 3 (rf_data out) /\
      box_high out' = take 3 (box_high out) /\
      box_low out' = take 3 (box_low out) /\
      signal out' = take 3 (signal out) /\
      pct_change_col out' = take 3 (pct_change_col out) /\
      strategy_return out' = take 3 (strategy_return out).
Proof.
  eexists. split; [vm_compute; reflexivity|].
  apply (run_strategy_prefix example_engine example_config _ 3).
  vm_compute; reflexivity.
Defined.

Lemma signal_ignores_own_high_low_witness :
  exists out out',
    run_strategy example_engine example_config = Ok out /\
    run_strategy (generate_dummy_data QuantEngine_init example_bars_other_wick)
                 example_config = Ok out' /\
    map high (rf_data out) <> map high (rf_data out') /\
    (box_high out !! 5%nat = box_high out' !! 5%nat /\
     box_low out !! 5%nat = box_low out' !! 5%nat /\
     signal out !! 5%nat = signal out' !! 5%nat).
Proof.
  eexists. eexists. split; [vm_compute; reflexivity|].
  split; [vm_compute; reflexivity|]. split; [discriminate|].
  apply (signal_ignores_own_high_low
           example_engine
           (generate_dummy_data QuantEngine_init example_bars_other_wick)
           example_config);
    [vm_compute; reflexivity | vm_compute; reflexivity
     | reflexivity | reflexivity | reflexivity].
Defined.

Lemma strategy_return_range_witness :
  exists out,
    run_strategy example_engine example_config = Ok out /\
    Forall (fun x => x = NaN \/
                     exists q, x = Fin q /\
                               (- ((1 # 2) + 0) <= q <= 1 # 2)%Q)
           (strategy_return out).
Proof.
  eexists. split; [vm_compute; reflexivity|].
  apply (strategy_return_range example_engine example_config _
           (1 # 2) (1 # 2) 0);
    [reflexivity | reflexivity | reflexivity | lra | lra | lra
     | vm_compute; reflexivity].
Defined.

Lemma risk_cap_crossed_bounds_witness :
  (-1 # 2 < - (-1 # 2))%Q /\
  risk_cap negative_stop_config [NaN; Fin 0; Fin 3; Fin (-3)]
  = map (fun y => if isnan y then NaN else Fin (-1 # 2))
        [NaN; Fin 0; Fin 3; Fin (-3)].
Proof.
  split; [lra|].
  apply (risk_cap_crossed_bounds negative_stop_config (-1 # 2) (-1 # 2));
    [reflexivity | reflexivity | lra].
Defined.

Lemma flat_bar_costs_nothing_witness :
  exists out,
    run_strategy example_engine negative_fee_config = Ok out /\
    signal out !! O = Some 0 /\
    exists q, strategy_return out !! 1%nat = Some (Fin q) /\ (q == 0)%Q.
Proof.
  eexists. split; [vm_compute; reflexivity|]. split; [reflexivity|].
  apply (flat_bar_costs_nothing example_engine negative_fee_config _
           (1 # 2) (1 # 2) 101 100 0);
    [reflexivity | reflexivity | lra | lra | vm_compute; reflexivity
     | reflexivity | reflexivity | reflexivity | lra].
Defined.

Lemma pipeline_returns_are_well_formed_witness :
  exists out,
    run_strategy example_engine example_config = Ok out /\
    well_formed_returns (strategy_return out) /\
    trades_of (strategy_return out) <> [].
Proof.
  eexists. split; [vm_compute; reflexivity|].
  apply (pipeline_returns_are_well_formed example_engine example_config _
           (1 # 2) (1 # 2) 0 100 101);
    [reflexivity | reflexivity | reflexivity | lra | lra | lra | lra
     | vm_compute; reflexivity | reflexivity | reflexivity | lra].
Defined.

Lemma max_drawdown_pct_range_witness :
  exists out,
    run_strategy example_engine example_config = Ok out /\
    well_formed_returns (strategy_return out) /\
    trades_of (strategy_return out) <> [] /\
    exists q : Q,
      calculate_metrics out !! "max_drawdown_pct" = Some (PFloat (Fin q)) /\
      (-100 <= q <= 0)%Q.
Proof.
  eexists. split; [vm_compute; reflexivity|].
  assert (Hwf : well_formed_returns
            [NaN; Fin (0 # 100); Fin (0 # 101); Fin (-1 # 99);
             Fin (0 # 100); Fin (0 # 99)]).
  { split.
    - repeat constructor.
    - exists (Fin (-1 # 99)). split; [|reflexivity].
      do 3 apply list_elem_of_further. apply list_elem_of_here. }
  split; [exact Hwf|]. split; [discriminate|].
  apply (max_drawdown_pct_range
           {| rf_data := example_bars;
              box_high := _; box_low := _; signal := _;
              pct_change_col := _;
              strategy_return :=
                [NaN; Fin (0 # 100); Fin (0 # 101); Fin (-1 # 99);
                 Fin (0 # 100); Fin (0 # 99)] |});
    [exact Hwf | discriminate].
Defined.

Lemma net_profit_pct_reads_last_row_witness :
  exists out,
    run_strategy example_engine example_config = Ok out /\
    strategy_return out
      = [NaN; Fin (0 # 100); Fin (0 # 101); Fin (-1 # 99); Fin (0 # 100)]
        ++ [Fin (0 # 99)] /\
    (isnan (Fin (0 # 99)) = true ->
     calculate_metrics out !! "net_profit_pct" = Some (PFloat NaN)) /\
    (notnan (Fin (0 # 99)) = true ->
     exists q : Q,
       calculate_metrics out !! "net_profit_pct" = Some (PFloat (Fin q)) /\
       (-100 <= q)%Q).
Proof.
  eexists. split; [vm_compute; reflexivity|]. split; [reflexivity|].
  apply (net_profit_pct_reads_last_row
           {| rf_data := example_bars;
              box_high := _; box_low := _; signal := _;
              pct_change_col := _;
              strategy_return :=
                [NaN; Fin (0 # 100); Fin (0 # 101); Fin (-1 # 99);
                 Fin (0 # 100); Fin (0 # 99)] |}
           [NaN; Fin (0 # 100); Fin (0 # 101); Fin (-1 # 99); Fin (0 # 100)]
           (Fin (0 # 99)));
    [reflexivity | repeat constructor | discriminate].
Defined.

Lemma optimize_fails_on_empty_frame_witness :
  data empty_engine = Some [] /\ 0 <= 2 /\
  sweep empty_engine [2; 1] [Fin (1 # 2)] [Fin (1 # 2)]
    = Raise (KeyError "max_drawdown_pct") /\
  optimize argsort_stable empty_engine [2; 1] [Fin (1 # 2)] [Fin (1 # 2)]
    = Raise (KeyError "max_drawdown_pct").
Proof.
  split; [reflexivity|]. split; [lia|].
  apply (optimize_fails_on_empty_frame argsort_stable empty_engine 2 [1]
           [Fin (1 # 2)] [Fin (1 # 2)]);
    [reflexivity | lia | discriminate | discriminate].
Defined.

Lemma optimize_fails_on_negative_window_witness :
  data example_engine = Some example_bars /\ -1 < 0 /\
  Forall (fun w' => w' < 2 ^ 63) [2; -1; 1] /\
  sweep example_engine [2; -1; 1] [Fin (1 # 2)] [Fin (1 # 2)]
    = Raise (ValueError "window must be an integer 0 or greater") /\
  optimize argsort_stable example_engine [2; -1; 1] [Fin (1 # 2)] [Fin (1 # 2)]
    = Raise (ValueError "window must be an integer 0 or greater").
Proof.
  split; [reflexivity|]. split; [lia|].
  assert (Hfit : Forall (fun w' => w' < 2 ^ 63) [2; -1; 1])
    by (repeat constructor; reflexivity).
  split; [exact Hfit|].
  apply (optimize_fails_on_negative_window argsort_stable example_engine
           example_bars (-1) [2; -1; 1] [Fin (1 # 2)] [Fin (1 # 2)]);
    [reflexivity | discriminate | exact Hfit
     | apply list_elem_of_further, list_elem_of_here
     | lia | discriminate | discriminate].
Defined.

Lemma optimize_fails_on_empty_grid_witness :
  sweep example_engine [2; 1] [] [Fin (1 # 2)] = Ok [] /\
  optimize argsort_stable example_engine [2; 1] [] [Fin (1 # 2)]
    = Raise (KeyError "WinRate").
Proof.
  apply (optimize_fails_on_empty_grid argsort_stable example_engine
           [2; 1] [] [Fin (1 # 2)]).
  right. left. reflexivity.
Defined.

Lemma sweep_rows_are_well_formed_witness :
  exists results_log,
    sweep example_engine [2; 1] [Fin (1 # 2); Fin (6 # 10)] [Fin (1 # 2)]
      = Ok results_log /\
    Forall (fun row =>
              (Window row ∈ [2; 1] /\
               StopLoss row ∈ [Fin (1 # 2); Fin (6 # 10)] /\
               TakeProfit row ∈ [Fin (1 # 2)]) /\
              (exists q : Q, WinRate row = PFloat (Fin q) /\ (0 <= q <= 100)%Q) /\
              (exists n : Z, Trades row = PInt n /\ 1 <= n))
           results_log.
Proof.
  eexists. split; [vm_compute; reflexivity|].
  apply (sweep_rows_are_well_formed example_engine
           [2; 1] [Fin (1 # 2); Fin (6 # 10)] [Fin (1 # 2)]).
  vm_compute; reflexivity.
Defined.

Lemma top_configurations_are_best_witness :
  exists best_configs,
    optimize argsort_stable rising_engine
             rising_windows rising_stop_losses rising_take_profits
      = Ok best_configs /\
    map sort_key (top_configurations best_configs)
      = [Fin (8333 # 100); Fin (8333 # 100); Fin (8000 # 100);
         Fin (8000 # 100); Fin (7500 # 100)] /\
    map sort_key (drop 5 best_configs) = [Fin (7500 # 100)] /\
    length (top_configurations best_configs)
      = Nat.min 5 (length best_configs) /\
    forall shown hidden,
      shown ∈ top_configurations best_configs ->
      hidden ∈ drop 5 best_configs ->
      ltb (sort_key shown) (sort_key hidden) = false.
Proof.
  eexists. split; [vm_compute; reflexivity|].
  split; [vm_compute; reflexivity|]. split; [vm_compute; reflexivity|].
  apply (top_configurations_are_best argsort_stable rising_engine
           rising_windows rising_stop_losses rising_take_profits).
  vm_compute; reflexivity.
Defined.

Lemma recommended_config_is_top_row_witness :
  exists best_configs,
    optimize argsort_stable rising_engine
             rising_windows rising_stop_losses rising_take_profits
      = Ok best_configs /\
    recommended_config best_configs = Some (1, Fin (1 # 2), Fin (1 # 2)) /\
    exists results_log top,
      sweep rising_engine rising_windows rising_stop_losses
            rising_take_profits = Ok results_log /\
      head best_configs = Some top /\ top ∈ results_log /\
      (forall row, row ∈ results_log ->
                   ltb (sort_key top) (sort_key row) = false) /\
      recommended_config best_configs
        = if leb (of_Z 80) (sort_key top) then Some (params top) else None.
Proof.
  eexists. split; [vm_compute; reflexivity|].
  split; [vm_compute; reflexivity|].
  apply (recommended_config_is_top_row argsort_stable rising_engine
           rising_windows rising_stop_losses rising_take_profits).
  vm_compute; reflexivity.
Defined.

(** A table in which no configuration reaches 80: no recommendation. *)
Example no_recommendation_below_80 :
  exists best_configs,
    optimize argsort_stable rising_engine [3] rising_stop_losses
             rising_take_profits = Ok best_configs /\
    map sort_key best_configs = [Fin (7500 # 100); Fin (7500 # 100)] /\
    recommended_config best_configs = None.
Proof.
  eexists. split; [vm_compute; reflexivity|].
  split; vm_compute; reflexivity.
Qed.

Lemma synthetic_frame_opens_at_previous_close_witness :
  draws_ok example_returns example_wick_high example_wick_low /\
  let df := synthetic_frame example_returns example_wick_high
                            example_wick_low in
  length df = length example_returns /\
  map close df = price_path example_returns /\
  (forall b, df !! O = Some b -> open b = close b) /\
  (forall (i : nat) prev b,
      df !! i = Some prev -> df !! S i = Some b -> open b = close prev).
Proof.
  assert (Hd : draws_ok example_returns example_wick_high example_wick_low).
  { split; [reflexivity|]. split; [reflexivity|].
    split; [|split]; repeat constructor; eexists; split; reflexivity. }
  split; [exact Hd|].
  apply (synthetic_frame_opens_at_previous_close
           example_returns example_wick_high example_wick_low Hd).
Defined.

Lemma synthetic_frame_bars_are_well_formed_witness :
  draws_ok example_returns example_wick_high example_wick_low /\
  Forall ohlc_ok
    (synthetic_frame example_returns example_wick_high example_wick_low) /\
  no_nan_prices
    (synthetic_frame example_returns example_wick_high example_wick_low).
Proof.
  assert (Hd : draws_ok example_returns example_wick_high example_wick_low).
  { split; [reflexivity|]. split; [reflexivity|].
    split; [|split]; repeat constructor; eexists; split; reflexivity. }
  split; [exact Hd|].
  apply (synthetic_frame_bars_are_well_formed
           example_returns example_wick_high example_wick_low Hd).
Defined.

Lemma main_returns_one_row_per_grid_point_witness :
  example_bars <> [] /\
  exists best_configs,
    main argsort_stable example_bars = Ok best_configs /\
    length best_configs = 36%nat /\
    map params best_configs
      ≡ₚ product3 main_lookback_windows main_stop_losses main_take_profits /\
    descending_WinRate best_configs.
Proof.
  split; [discriminate|].
  apply (main_returns_one_row_per_grid_point argsort_stable example_bars).
  discriminate.
Defined.
